(** * augur-node log processors: a shallow embedding and its properties

    The log processors of augur-node project decoded blockchain logs into a
    relational store through knex and publish a notification per log through
    the process-wide [augurEmitter].  Each processor comes with a removal
    counterpart that is run when a chain reorganisation retracts the log.

    Embedded here, from the sources:
    - [order-canceled.ts]            (processOrderCanceledLog / ...Removal)
    - [initial-report-redeemed.ts]   (processInitialReporterRedeemedLog / ...Removal)
    - the complete-sets processor    (processCompleteSetsPurchasedOrSoldLog / ...Removal)
    - the dispute crowdsourcer processors (created, contribution, completed)
    - [monitor-ethereum-node-health.ts]

    Tables are lists of rows in insertion order; a knex statement is a
    function on the store that also leaves an entry in a journal, so that the
    order of statements and notifications can be stated.  The migrations
    (column defaults, key constraints) are not part of the sources at hand:
    an insert appends its row, as the processors themselves make no check;
    [Constrained] has the inserting processors on tables with constraints,
    whatever these are, where an insert can be refused. *)

From Stdlib Require Import String List ZArith QArith Bool Lia.
Import ListNotations.
Local Open Scope string_scope.
Local Open Scope list_scope.

(** ** JavaScript values and objects *)

Inductive JsValue : Type :=
| VUndefined
| VNull
| VBool (b : bool)
| VNum (n : Z)
| VDec (q : Q)            (* a BigNumber, or its decimal rendering *)
| VStr (s : string)
| VArr (l : list Z).

(** An object is its own properties in insertion order. *)
Definition JsObject : Type := list (string * JsValue).

Fixpoint obj_get (k : string) (o : JsObject) : JsValue :=
  match o with
  | [] => VUndefined
  | (k', v) :: o' => if String.eqb k k' then v else obj_get k o'
  end.

(** [o[k] = v]: an existing property keeps its place, a new one goes last. *)
Fixpoint obj_set (k : string) (v : JsValue) (o : JsObject) : JsObject :=
  match o with
  | [] => [(k, v)]
  | (k', v') :: o' =>
      if String.eqb k k' then (k, v) :: o' else (k', v') :: obj_set k v o'
  end.

Definition Object_keys (o : JsObject) : list string := map fst o.

(** [Object.assign(target, source)]; an [undefined] source is skipped. *)
Definition Object_assign1 (target : JsObject) (source : option JsObject) : JsObject :=
  match source with
  | None => target
  | Some s => fold_left (fun acc kv => obj_set (fst kv) (snd kv) acc) s target
  end.

(** [Object.assign({}, a, b)] *)
Definition Object_assign (a : JsObject) (b : option JsObject) : JsObject :=
  Object_assign1 (Object_assign1 [] (Some a)) b.

(** Two payloads have the same shape when they carry the same fields. *)
Definition same_shape (p q : JsObject) : Prop :=
  forall k, In k (Object_keys p) <-> In k (Object_keys q).

(** [String(v)] as a template literal renders it, for the values met here. *)
Definition template_string (v : JsValue) : string :=
  match v with
  | VUndefined => "undefined"
  | VNull => "null"
  | VBool true => "true"
  | VBool false => "false"
  | VStr s => s
  | _ => "[value]"
  end.

(** ** Errors *)

Record Error : Type := mkError { error_name : string; message : string }.

(** [new Error(msg)] *)
Definition new_Error (msg : string) : Error := mkError "Error" msg.

(** The error class the design documents name for a violated precondition. *)
Definition is_InconsistentStateError (e : Error) : bool :=
  String.eqb (error_name e) "InconsistentStateError".

(** ** Rows of the derived store *)

(** Modelled from the spec: the enum [OrderState] of [types.ts], which is not
    among the sources; the order states named there are OPEN, FILLED and
    CANCELED. *)
Inductive OrderState : Type := OPEN | FILLED | CANCELED.

Module Orders.
Record row : Type := mk {
  orderId : string;
  marketId : string;
  outcome : Z;
  price : JsValue;              (* string|number *)
  orderState : OrderState }.
Definition set_orderState (s : OrderState) (r : row) : row :=
  mk (orderId r) (marketId r) (outcome r) (price r) s.
End Orders.

Module OrdersCanceled.
Record row : Type := mk {
  orderId : string;
  transactionHash : string;
  logIndex : Z;
  blockNumber : Z }.
End OrdersCanceled.

Module InitialReports.
Record row : Type := mk {
  marketId : string;
  redeemed : bool }.
Definition set_redeemed (b : bool) (r : row) : row := mk (marketId r) b.
End InitialReports.

Module Markets.
Record row : Type := mk {
  marketId : string;
  minPrice : Q;
  maxPrice : Q;
  numTicks : Q;
  openInterest : Q }.
Definition set_openInterest (q : Q) (r : row) : row :=
  mk (marketId r) (minPrice r) (maxPrice r) (numTicks r) q.
End Markets.

Module CompleteSets.
Record row : Type := mk {
  marketId : string;
  account : string;
  blockNumber : Z;
  universe : string;
  eventName : string;
  transactionHash : string;
  logIndex : Z;
  tradeGroupId : string;
  numCompleteSets : Q;
  numPurchasedOrSold : Q }.
(** The row as the object literal [completeSetPurchasedData]. *)
Definition object (r : row) : JsObject :=
  [ ("marketId", VStr (marketId r));
    ("account", VStr (account r));
    ("blockNumber", VNum (blockNumber r));
    ("universe", VStr (universe r));
    ("eventName", VStr (eventName r));
    ("transactionHash", VStr (transactionHash r));
    ("logIndex", VNum (logIndex r));
    ("tradeGroupId", VStr (tradeGroupId r));
    ("numCompleteSets", VDec (numCompleteSets r));
    ("numPurchasedOrSold", VDec (numPurchasedOrSold r)) ].
End CompleteSets.

Module Payouts.
Record row : Type := mk {
  payoutID : Z;
  marketID : string;
  payoutNumerators : list Z;
  invalid : bool }.
End Payouts.

Module Crowdsourcers.
Record row : Type := mk {
  blockNumber : Z;
  transactionHash : string;
  logIndex : Z;
  crowdsourcerID : string;
  marketID : string;
  size : Z;
  payoutID : option Z;          (* [undefined] is stored as NULL *)
  completed : option Z }.       (* not given by the insert: NULL *)
Definition set_completed (c : Z) (r : row) : row :=
  mk (blockNumber r) (transactionHash r) (logIndex r) (crowdsourcerID r)
     (marketID r) (size r) (payoutID r) (Some c).
End Crowdsourcers.

Module Disputes.
Record row : Type := mk {
  blockNumber : Z;
  transactionHash : string;
  logIndex : Z;
  reporter : string;
  crowdsourcerID : string;
  amountStaked : Z }.
End Disputes.

Record Store : Type := mkStore {
  orders : list Orders.row;
  orders_canceled : list OrdersCanceled.row;
  initial_reports : list InitialReports.row;
  markets : list Markets.row;
  completeSets : list CompleteSets.row;
  crowdsourcers : list Crowdsourcers.row;
  disputes : list Disputes.row;
  payouts : list Payouts.row }.

(** A table of the store: its name, and how to read and replace its rows. *)
Record Table (R : Type) : Type := mkTable {
  table_name : string;
  rows : Store -> list R;
  with_rows : list R -> Store -> Store }.
Arguments table_name {R} _.
Arguments rows {R} _ _.
Arguments with_rows {R} _ _ _.

Definition orders_t : Table Orders.row :=
  mkTable _ "orders" orders
    (fun l s => mkStore l (orders_canceled s) (initial_reports s) (markets s)
                        (completeSets s) (crowdsourcers s) (disputes s) (payouts s)).
Definition orders_canceled_t : Table OrdersCanceled.row :=
  mkTable _ "orders_canceled" orders_canceled
    (fun l s => mkStore (orders s) l (initial_reports s) (markets s)
                        (completeSets s) (crowdsourcers s) (disputes s) (payouts s)).
Definition initial_reports_t : Table InitialReports.row :=
  mkTable _ "initial_reports" initial_reports
    (fun l s => mkStore (orders s) (orders_canceled s) l (markets s)
                        (completeSets s) (crowdsourcers s) (disputes s) (payouts s)).
Definition markets_t : Table Markets.row :=
  mkTable _ "markets" markets
    (fun l s => mkStore (orders s) (orders_canceled s) (initial_reports s) l
                        (completeSets s) (crowdsourcers s) (disputes s) (payouts s)).
Definition completeSets_t : Table CompleteSets.row :=
  mkTable _ "completeSets" completeSets
    (fun l s => mkStore (orders s) (orders_canceled s) (initial_reports s) (markets s)
                        l (crowdsourcers s) (disputes s) (payouts s)).
Definition crowdsourcers_t : Table Crowdsourcers.row :=
  mkTable _ "crowdsourcers" crowdsourcers
    (fun l s => mkStore (orders s) (orders_canceled s) (initial_reports s) (markets s)
                        (completeSets s) l (disputes s) (payouts s)).
Definition disputes_t : Table Disputes.row :=
  mkTable _ "disputes" disputes
    (fun l s => mkStore (orders s) (orders_canceled s) (initial_reports s) (markets s)
                        (completeSets s) (crowdsourcers s) l (payouts s)).
Definition payouts_t : Table Payouts.row :=
  mkTable _ "payouts" payouts
    (fun l s => mkStore (orders s) (orders_canceled s) (initial_reports s) (markets s)
                        (completeSets s) (crowdsourcers s) (disputes s) l).

(** ** The world a processor runs in *)

(** A knex handle: the connection pool, or a transaction opened on it. *)
Inductive Knex : Type :=
| Pool
| InTransaction (trx : nat).

(** [db.transacting(trx)] *)
Definition transacting (db : Knex) (trx : nat) : Knex := InTransaction trx.

Inductive Statement : Type := SELECT | INSERT | UPDATE | DELETE.

(** What a processor does that the outside can see, in the order it does it. *)
Inductive Effect : Type :=
| Ran (on : Knex) (stmt : Statement) (table : string)
| Emit (eventName : string) (payload : JsObject).

(** A promise that was started and not awaited. *)
Inductive Task : Type :=
| TaskUpdateOpenInterest (db : Knex) (marketId : string).

Record World : Type := mkWorld {
  store : Store;
  journal : list Effect;          (* oldest first *)
  detached : list Task }.         (* oldest first *)

(** An awaited promise settles: it resolves with a value or rejects with an
    error, and either way the world is what the code made of it so far. *)
Inductive Outcome (A : Type) : Type :=
| Resolved (a : A) (w : World)
| Rejected (e : Error) (w : World).
Arguments Resolved {A} _ _.
Arguments Rejected {A} _ _.

Definition Async (A : Type) : Type := World -> Outcome A.

Definition ret {A} (a : A) : Async A := fun w => Resolved a w.

Definition bind {A B} (m : Async A) (k : A -> Async B) : Async B :=
  fun w => match m w with
           | Resolved a w' => k a w'
           | Rejected e w' => Rejected e w'
           end.

Definition throw {A} (e : Error) : Async A := fun w => Rejected e w.

Notation "x <- m ;; k" := (bind m (fun x => k))
  (at level 61, m at next level, right associativity).
Notation "m ;; k" := (bind m (fun _ => k))
  (at level 61, right associativity).

(** Node's callback convention, [(err, value) => ...]: a failure is handed
    over as a value and it is up to the callback to look at it. *)
Definition asCallback {A} (m : Async A) : Async (option Error * option A) :=
  fun w => match m w with
           | Resolved a w' => Resolved (None, Some a) w'
           | Rejected e w' => Resolved (Some e, None) w'
           end.

Definition log_effect (e : Effect) : Async unit :=
  fun w => Resolved tt (mkWorld (store w) (journal w ++ [e]) (detached w)).

Definition modify_store (f : Store -> Store) : Async unit :=
  fun w => Resolved tt (mkWorld (f (store w)) (journal w) (detached w)).

Definition read_store {A} (f : Store -> A) : Async A :=
  fun w => Resolved (f (store w)) w.

(** Calling an async function without [await]: it is left running. *)
Definition detach (t : Task) : Async unit :=
  fun w => Resolved tt (mkWorld (store w) (journal w) (detached w ++ [t])).

(** [augurEmitter.emit(name, payload)] *)
Definition emit (name : string) (payload : JsObject) : Async unit :=
  log_effect (Emit name payload).

(** ** knex statements *)

Section Statements.
Context {R : Type}.
Variable db : Knex.
Variable t : Table R.

(** [db.from(t).where(...).update(...)] *)
Definition knex_update (where_ : R -> bool) (set_ : R -> R) : Async unit :=
  log_effect (Ran db UPDATE (table_name t)) ;;
  modify_store (fun s =>
    with_rows t (map (fun r => if where_ r then set_ r else r) (rows t s)) s).

(** [db.into(t).insert(row)] *)
Definition knex_insert (r : R) : Async unit :=
  log_effect (Ran db INSERT (table_name t)) ;;
  modify_store (fun s => with_rows t (rows t s ++ [r]) s).

(** [db.from(t).where(...).del()] *)
Definition knex_del (where_ : R -> bool) : Async unit :=
  log_effect (Ran db DELETE (table_name t)) ;;
  modify_store (fun s =>
    with_rows t (filter (fun r => negb (where_ r)) (rows t s)) s).

(** [db.first(...).from(t).where(...)]: a row, or [undefined] *)
Definition knex_first (where_ : R -> bool) : Async (option R) :=
  log_effect (Ran db SELECT (table_name t)) ;;
  read_store (fun s => find where_ (rows t s)).

(** [db.select(...).from(t).where(...)] *)
Definition knex_select (where_ : R -> bool) : Async (list R) :=
  log_effect (Ran db SELECT (table_name t)) ;;
  read_store (fun s => filter where_ (rows t s)).
End Statements.

(** ** Decoded logs *)

(** [FormattedEventLog]: the fields every log has, and the inputs of its
    event, which differ from one event to the next. *)
Record FormattedEventLog (I : Type) : Type := mkLog {
  blockNumber : Z;
  transactionHash : string;
  logIndex : Z;
  eventName : string;
  inputs : I }.
Arguments mkLog {I} _ _ _ _ _.
Arguments blockNumber {I} _.
Arguments transactionHash {I} _.
Arguments logIndex {I} _.
Arguments eventName {I} _.
Arguments inputs {I} _.

(** The inputs of an event, seen as properties of the log object. *)
Class EventInputs (I : Type) : Type := inputs_object : I -> JsObject.

(** The log as the object that is handed to the emitter. *)
Definition log_object {I} `{EventInputs I} (log : FormattedEventLog I) : JsObject :=
  [ ("blockNumber", VNum (blockNumber log));
    ("transactionHash", VStr (transactionHash log));
    ("logIndex", VNum (logIndex log));
    ("eventName", VStr (eventName log)) ] ++ inputs_object (inputs log).

Module OrderCanceled.
Record Inputs : Type := mk {
  orderId : string;
  orderType : string }.
#[global] Instance as_object : EventInputs Inputs := fun i =>
  [ ("orderId", VStr (orderId i)); ("orderType", VStr (orderType i)) ].
End OrderCanceled.

Module InitialReporterRedeemed.
Record Inputs : Type := mk {
  market : string }.
#[global] Instance as_object : EventInputs Inputs := fun i =>
  [ ("market", VStr (market i)) ].
End InitialReporterRedeemed.

Module CompleteSetsPurchasedOrSold.
Record Inputs : Type := mk {
  market : string;
  account : string;
  numCompleteSets : Z;            (* on-chain amount, base 10 *)
  tradeGroupId : string;
  universe : string }.
#[global] Instance as_object : EventInputs Inputs := fun i =>
  [ ("market", VStr (market i));
    ("account", VStr (account i));
    ("numCompleteSets", VNum (numCompleteSets i));
    ("tradeGroupId", VStr (tradeGroupId i));
    ("universe", VStr (universe i)) ].
End CompleteSetsPurchasedOrSold.

Module DisputeCrowdsourcerCreated.
Record Inputs : Type := mk {
  market : string;
  payoutNumerators : list Z;
  invalid : bool;
  disputeCrowdsourcer : string;
  size : Z }.
#[global] Instance as_object : EventInputs Inputs := fun i =>
  [ ("market", VStr (market i));
    ("payoutNumerators", VArr (payoutNumerators i));
    ("invalid", VBool (invalid i));
    ("disputeCrowdsourcer", VStr (disputeCrowdsourcer i));
    ("size", VNum (size i)) ].
End DisputeCrowdsourcerCreated.

Module DisputeCrowdsourcerContribution.
Record Inputs : Type := mk {
  reporter : string;
  disputeCrowdsourcer : string;
  amountStaked : Z }.
#[global] Instance as_object : EventInputs Inputs := fun i =>
  [ ("reporter", VStr (reporter i));
    ("disputeCrowdsourcer", VStr (disputeCrowdsourcer i));
    ("amountStaked", VNum (amountStaked i)) ].
End DisputeCrowdsourcerContribution.

Module DisputeCrowdsourcerCompleted.
(* event DisputeCrowdsourcerCompleted(address indexed universe,
     address indexed market, address disputeCrowdsourcer); *)
Record Inputs : Type := mk {
  universe : string;
  market : string;
  disputeCrowdsourcer : string }.
#[global] Instance as_object : EventInputs Inputs := fun i =>
  [ ("universe", VStr (universe i));
    ("market", VStr (market i));
    ("disputeCrowdsourcer", VStr (disputeCrowdsourcer i)) ].
End DisputeCrowdsourcerCompleted.

(** ** What the processors import *)

(** The parts of augur.js the code calls. *)
Record ContractAddresses : Type := mkAddresses {
  Universe : string;
  Controller : string }.

Record Augur : Type := mkAugur {
  utils_convertOnChainAmountToDisplayAmount : Z -> Q -> Q;
  rpc_getNetworkID : string;
  contracts_addresses : string -> ContractAddresses }.

(** Modelled from the spec: the string enum [SubscriptionEventNames] of
    [constants.ts], not among the sources; a stable event-name tag, one per
    business event, independent of direction.  Each tag names itself. *)
Definition SubscriptionEventNames (key : string) : string := key.

(** Modelled from the spec: [numTicksToTickSize] of
    [utils/convert-fixed-point-to-decimal], not among the sources; the tick
    size is (maxPrice - minPrice) / numTicks. *)
Definition numTicksToTickSize (numTicks minPrice maxPrice : Q) : Q :=
  ((maxPrice - minPrice) / numTicks)%Q.

(** The sum of the fills, from scratch. *)
Definition sum_fills (fills : list CompleteSets.row) : Q :=
  fold_right (fun r acc => (CompleteSets.numCompleteSets r + acc)%Q) 0%Q fills.

(** Modelled from the spec: [updateOpenInterest] of
    [order-filled/update-volumetrics], not among the sources; the per-market
    cached total is recomputed, not patched, from the sum of the market's
    outstanding complete-set fills. *)
Definition updateOpenInterest (db : Knex) (marketId : string) : Async unit :=
  fills <- knex_select db completeSets_t
             (fun r => String.eqb (CompleteSets.marketId r) marketId) ;;
  knex_update db markets_t
    (fun m => String.eqb (Markets.marketId m) marketId)
    (Markets.set_openInterest (sum_fills fills)).

Fixpoint numerators_eqb (a b : list Z) : bool :=
  match a, b with
  | [], [] => true
  | x :: a', y :: b' => Z.eqb x y && numerators_eqb a' b'
  | _, _ => false
  end.

Definition payout_matches (marketId : string) (payoutNumerators : list Z)
    (invalid : bool) (p : Payouts.row) : bool :=
  String.eqb (Payouts.marketID p) marketId
  && numerators_eqb (Payouts.payoutNumerators p) payoutNumerators
  && Bool.eqb (Payouts.invalid p) invalid.

(** The key an auto-increment column gives the next row. *)
Definition next_payoutID (s : Store) : Z :=
  Z.succ (fold_right Z.max 0%Z (map Payouts.payoutID (payouts s))).

(** Modelled from the spec: [insertPayout] of [./database], not among the
    sources; the payout set keyed by (market, payoutNumerators, invalid) is
    found, or created when it is not there yet, inside the transaction it is
    given. *)
Definition insertPayout (db : Knex) (trx : nat) (marketId : string)
    (payoutNumerators : list Z) (invalid : bool) : Async Z :=
  found <- knex_first (transacting db trx) payouts_t
             (payout_matches marketId payoutNumerators invalid) ;;
  match found with
  | Some p => ret (Payouts.payoutID p)
  | None =>
      payoutID <- read_store next_payoutID ;;
      knex_insert (transacting db trx) payouts_t
        (Payouts.mk payoutID marketId payoutNumerators invalid) ;;
      ret payoutID
  end.

(** ** order-canceled.ts *)

(** The columns [db.first("marketId", "outcome", "price")] selects. *)
Definition MarketIDAndOutcomeAndPrice (r : Orders.row) : JsObject :=
  [ ("marketId", VStr (Orders.marketId r));
    ("outcome", VNum (Orders.outcome r));
    ("price", Orders.price r) ].

Definition processOrderCanceledLog (db : Knex) (augur : Augur)
    (log : FormattedEventLog OrderCanceled.Inputs) : Async unit :=
  let orderId := OrderCanceled.orderId (inputs log) in
  let orderTypeLabel :=
    if String.eqb (OrderCanceled.orderType (inputs log)) "0" then "buy" else "sell" in
  knex_update db orders_t (fun r => String.eqb (Orders.orderId r) orderId)
    (Orders.set_orderState CANCELED) ;;
  knex_insert db orders_canceled_t
    (OrdersCanceled.mk orderId (transactionHash log) (logIndex log) (blockNumber log)) ;;
  ordersRow <- knex_first db orders_t (fun r => String.eqb (Orders.orderId r) orderId) ;;
  let ordersRow :=
    option_map (fun r => obj_set "orderType" (VStr orderTypeLabel)
                           (MarketIDAndOutcomeAndPrice r)) ordersRow in
  emit (SubscriptionEventNames "OrderCanceled") (Object_assign (log_object log) ordersRow).

Definition processOrderCanceledLogRemoval (db : Knex) (augur : Augur)
    (log : FormattedEventLog OrderCanceled.Inputs) : Async unit :=
  let orderId := OrderCanceled.orderId (inputs log) in
  let orderTypeLabel :=
    if String.eqb (OrderCanceled.orderType (inputs log)) "0" then "buy" else "sell" in
  knex_update db orders_t (fun r => String.eqb (Orders.orderId r) orderId)
    (Orders.set_orderState OPEN) ;;
  knex_del db orders_canceled_t
    (fun r => String.eqb (OrdersCanceled.orderId r) orderId) ;;
  ordersRow <- knex_first db orders_t (fun r => String.eqb (Orders.orderId r) orderId) ;;
  let ordersRow :=
    option_map (fun r => obj_set "orderType" (VStr orderTypeLabel)
                           (MarketIDAndOutcomeAndPrice r)) ordersRow in
  emit (SubscriptionEventNames "OrderCanceled") (Object_assign (log_object log) ordersRow).

(** ** initial-report-redeemed.ts *)

Definition processInitialReporterRedeemedLog (db : Knex) (augur : Augur)
    (log : FormattedEventLog InitialReporterRedeemed.Inputs) : Async unit :=
  knex_update db initial_reports_t
    (fun r => String.eqb (InitialReports.marketId r)
                (InitialReporterRedeemed.market (inputs log)))
    (InitialReports.set_redeemed true) ;;
  emit (SubscriptionEventNames "InitialReporterRedeemed") (log_object log).

Definition processInitialReporterRedeemedLogRemoval (db : Knex) (augur : Augur)
    (log : FormattedEventLog InitialReporterRedeemed.Inputs) : Async unit :=
  knex_update db initial_reports_t
    (fun r => String.eqb (InitialReports.marketId r)
                (InitialReporterRedeemed.market (inputs log)))
    (InitialReports.set_redeemed false) ;;
  emit (SubscriptionEventNames "InitialReporterRedeemed") (log_object log).

(** ** The complete-sets processor *)

Definition processCompleteSetsPurchasedOrSoldLog (db : Knex) (augur : Augur)
    (log : FormattedEventLog CompleteSetsPurchasedOrSold.Inputs) : Async unit :=
  let marketId := CompleteSetsPurchasedOrSold.market (inputs log) in
  marketsRow <- knex_first db markets_t
                  (fun m => String.eqb (Markets.marketId m) marketId) ;;
  match marketsRow with
  | None =>
      throw (new_Error "market min price, max price, category, and/or num ticks not found")
  | Some marketsRow =>
      let minPrice := Markets.minPrice marketsRow in
      let maxPrice := Markets.maxPrice marketsRow in
      let numTicks := Markets.numTicks marketsRow in
      let tickSize := numTicksToTickSize numTicks minPrice maxPrice in
      let numCompleteSets :=
        utils_convertOnChainAmountToDisplayAmount augur
          (CompleteSetsPurchasedOrSold.numCompleteSets (inputs log)) tickSize in
      let completeSetPurchasedData :=
        CompleteSets.mk marketId
          (CompleteSetsPurchasedOrSold.account (inputs log))
          (blockNumber log)
          (CompleteSetsPurchasedOrSold.universe (inputs log))
          (eventName log)
          (transactionHash log)
          (logIndex log)
          (CompleteSetsPurchasedOrSold.tradeGroupId (inputs log))
          numCompleteSets
          numCompleteSets in
      knex_insert db completeSets_t completeSetPurchasedData ;;
      emit (SubscriptionEventNames (eventName log))
           (CompleteSets.object completeSetPurchasedData) ;;
      (* updateOpenInterest(db, marketId);   -- no await *)
      detach (TaskUpdateOpenInterest db marketId)
  end.

Definition processCompleteSetsPurchasedOrSoldLogRemoval (db : Knex) (augur : Augur)
    (log : FormattedEventLog CompleteSetsPurchasedOrSold.Inputs) : Async unit :=
  knex_del db completeSets_t
    (fun r => String.eqb (CompleteSets.transactionHash r) (transactionHash log)
              && Z.eqb (CompleteSets.logIndex r) (logIndex log)) ;;
  emit (SubscriptionEventNames (eventName log)) (log_object log) ;;
  (* await updateOpenInterest(db, log.market); *)
  updateOpenInterest db (CompleteSetsPurchasedOrSold.market (inputs log)).

(** A detached promise runs to its end once the processor that started it
    has given up control. *)
Definition run_task (t : Task) : Async unit :=
  match t with
  | TaskUpdateOpenInterest db marketId => updateOpenInterest db marketId
  end.

(** The world once every detached promise has settled; a rejection there is
    nobody's to catch. *)
Definition settle (w : World) : World :=
  fold_left
    (fun w t => match run_task t w with
                | Resolved _ w' => w'
                | Rejected _ w' => w'
                end)
    (detached w) (mkWorld (store w) (journal w) []).

(** ** The dispute crowdsourcer processors

    These take a transaction and a node-style callback; [callback(err)] is
    the promise rejecting with [err], [callback(null)] is it resolving. *)

Definition processDisputeCrowdsourcerCreatedLog (db : Knex) (augur : Augur) (trx : nat)
    (log : FormattedEventLog DisputeCrowdsourcerCreated.Inputs) : Async unit :=
  r <- asCallback (insertPayout db trx
                     (DisputeCrowdsourcerCreated.market (inputs log))
                     (DisputeCrowdsourcerCreated.payoutNumerators (inputs log))
                     (DisputeCrowdsourcerCreated.invalid (inputs log))) ;;
  (* (err, payoutID) => ...   -- err is not looked at *)
  let payoutID := snd r in
  let crowdsourcerToInsert :=
    Crowdsourcers.mk (blockNumber log) (transactionHash log) (logIndex log)
      (DisputeCrowdsourcerCreated.disputeCrowdsourcer (inputs log))
      (DisputeCrowdsourcerCreated.market (inputs log))
      (DisputeCrowdsourcerCreated.size (inputs log))
      payoutID None in
  r <- asCallback (knex_insert (transacting db trx) crowdsourcers_t crowdsourcerToInsert) ;;
  match fst r with
  | Some err => throw err
  | None => emit "DisputeCrowdsourcerCreated" (log_object log) ;; ret tt
  end.

Definition processDisputeCrowdsourcerCreatedLogRemoval (db : Knex) (augur : Augur) (trx : nat)
    (log : FormattedEventLog DisputeCrowdsourcerCreated.Inputs) : Async unit :=
  r <- asCallback (knex_del (transacting db trx) crowdsourcers_t
         (fun c => String.eqb (Crowdsourcers.crowdsourcerID c)
                     (DisputeCrowdsourcerCreated.disputeCrowdsourcer (inputs log)))) ;;
  match fst r with
  | Some err => throw err
  | None => emit "DisputeCrowdsourcerCreated" (log_object log) ;; ret tt
  end.

Definition processDisputeCrowdsourcerContributionLog (db : Knex) (augur : Augur) (trx : nat)
    (log : FormattedEventLog DisputeCrowdsourcerContribution.Inputs) : Async unit :=
  let disputeToInsert :=
    Disputes.mk (blockNumber log) (transactionHash log) (logIndex log)
      (DisputeCrowdsourcerContribution.reporter (inputs log))
      (DisputeCrowdsourcerContribution.disputeCrowdsourcer (inputs log))
      (DisputeCrowdsourcerContribution.amountStaked (inputs log)) in
  r <- asCallback (knex_insert (transacting db trx) disputes_t disputeToInsert) ;;
  match fst r with
  | Some err => throw err
  | None => emit "DisputeCrowdsourcerContribution" (log_object log) ;; ret tt
  end.

Definition processDisputeCrowdsourcerContributionLogRemoval (db : Knex) (augur : Augur)
    (trx : nat) (log : FormattedEventLog DisputeCrowdsourcerContribution.Inputs)
    : Async unit :=
  r <- asCallback (knex_del (transacting db trx) disputes_t
         (fun d => String.eqb (Disputes.transactionHash d) (transactionHash log)
                   && Z.eqb (Disputes.logIndex d) (logIndex log))) ;;
  match fst r with
  | Some err => throw err
  | None => emit "DisputeCrowdsourcerContribution" (log_object log) ;; ret tt
  end.

Definition processDisputeCrowdsourcerCompletedLog (db : Knex) (augur : Augur) (trx : nat)
    (log : FormattedEventLog DisputeCrowdsourcerCompleted.Inputs) : Async unit :=
  r <- asCallback (knex_update (transacting db trx) crowdsourcers_t
         (fun c => String.eqb (Crowdsourcers.crowdsourcerID c)
                     (DisputeCrowdsourcerCompleted.disputeCrowdsourcer (inputs log)))
         (Crowdsourcers.set_completed 1)) ;;
  match fst r with
  | Some err => throw err
  | None => emit "DisputeCrowdsourcerCompleted" (log_object log) ;; ret tt
  end.

Definition processDisputeCrowdsourcerCompletedLogRemoval (db : Knex) (augur : Augur)
    (trx : nat) (log : FormattedEventLog DisputeCrowdsourcerCompleted.Inputs)
    : Async unit :=
  r <- asCallback (knex_update (transacting db trx) crowdsourcers_t
         (fun c => String.eqb (Crowdsourcers.crowdsourcerID c)
                     (DisputeCrowdsourcerCompleted.disputeCrowdsourcer (inputs log)))
         (Crowdsourcers.set_completed 0)) ;;
  match fst r with
  | Some err => throw err
  | None => emit "DisputeCrowdsourcerCompleted" (log_object log) ;; ret tt
  end.

(** ** The processors as pairs *)

(** A log together with the event it is a log of. *)
Inductive LogEvent : Type :=
| OrderCanceledLog (log : FormattedEventLog OrderCanceled.Inputs)
| InitialReporterRedeemedLog (log : FormattedEventLog InitialReporterRedeemed.Inputs)
| CompleteSetsPurchasedOrSoldLog (log : FormattedEventLog CompleteSetsPurchasedOrSold.Inputs)
| DisputeCrowdsourcerCreatedLog (log : FormattedEventLog DisputeCrowdsourcerCreated.Inputs)
| DisputeCrowdsourcerContributionLog
    (log : FormattedEventLog DisputeCrowdsourcerContribution.Inputs)
| DisputeCrowdsourcerCompletedLog (log : FormattedEventLog DisputeCrowdsourcerCompleted.Inputs).

(** Modelled from the spec: the handler registry, which is not among the
    sources; it maps an event-type tag to a pair of functions, apply and
    revert, each taking the transaction and the log.  The processors that
    take no transaction of their own are handed it as their [db]. *)
Definition apply (db : Knex) (augur : Augur) (trx : nat) (e : LogEvent) : Async unit :=
  match e with
  | OrderCanceledLog log => processOrderCanceledLog (transacting db trx) augur log
  | InitialReporterRedeemedLog log =>
      processInitialReporterRedeemedLog (transacting db trx) augur log
  | CompleteSetsPurchasedOrSoldLog log =>
      processCompleteSetsPurchasedOrSoldLog (transacting db trx) augur log
  | DisputeCrowdsourcerCreatedLog log => processDisputeCrowdsourcerCreatedLog db augur trx log
  | DisputeCrowdsourcerContributionLog log =>
      processDisputeCrowdsourcerContributionLog db augur trx log
  | DisputeCrowdsourcerCompletedLog log =>
      processDisputeCrowdsourcerCompletedLog db augur trx log
  end.

(** Modelled from the spec: the revert half of the handler registry. *)
Definition revert (db : Knex) (augur : Augur) (trx : nat) (e : LogEvent) : Async unit :=
  match e with
  | OrderCanceledLog log => processOrderCanceledLogRemoval (transacting db trx) augur log
  | InitialReporterRedeemedLog log =>
      processInitialReporterRedeemedLogRemoval (transacting db trx) augur log
  | CompleteSetsPurchasedOrSoldLog log =>
      processCompleteSetsPurchasedOrSoldLogRemoval (transacting db trx) augur log
  | DisputeCrowdsourcerCreatedLog log =>
      processDisputeCrowdsourcerCreatedLogRemoval db augur trx log
  | DisputeCrowdsourcerContributionLog log =>
      processDisputeCrowdsourcerContributionLogRemoval db augur trx log
  | DisputeCrowdsourcerCompletedLog log =>
      processDisputeCrowdsourcerCompletedLogRemoval db augur trx log
  end.

(** The world a promise leaves behind, however it settled. *)
Definition world_of {A} (o : Outcome A) : World :=
  match o with
  | Resolved _ w => w
  | Rejected _ w => w
  end.

Definition resolved {A} (o : Outcome A) : bool :=
  match o with
  | Resolved _ _ => true
  | Rejected _ _ => false
  end.

(** The notifications of a journal, oldest first. *)
Definition emitted (j : list Effect) : list (string * JsObject) :=
  flat_map (fun e => match e with
                     | Emit n p => [(n, p)]
                     | Ran _ _ _ => []
                     end) j.

(** ** monitor-ethereum-node-health.ts *)

Inductive HealthEffect : Type :=
| ClearInterval                       (* clearInterval(monitorEthereumNodeHealthId) *)
| ErrorCallback (err : Error).        (* errorCallback(err) *)

(** [universeController !== controller], [controller] being a string *)
Definition strict_neq_string (v : JsValue) (s : string) : bool :=
  match v with
  | VStr s' => negb (String.eqb s' s)
  | _ => true
  end.

(** The callback handed to [augur.api.Universe.getController] on each tick of
    the interval, with what it does in the order it does it.  [errorCallback]
    is [ErrorCallback | undefined]: given or not. *)
Definition getControllerCallback (controller : string) (errorCallback : bool)
    (err : option Error) (universeController : JsValue) : list HealthEffect :=
  (match err with
   | Some e => ClearInterval :: (if errorCallback then [ErrorCallback e] else [])
   | None => []
   end)
  ++
  (if strict_neq_string universeController controller
   then ClearInterval ::
        (if errorCallback
         then [ErrorCallback (new_Error
                 ("Controller mismatch. Configured: " ++ controller
                  ++ " Found: " ++ template_string universeController))]
         else [])
   else []).

(** One tick of the interval [monitorEthereumNodeHealth] sets up: the call
    goes to the configured universe, and [rpc] is what the node answers. *)
Definition monitorEthereumNodeHealth_tick (augur : Augur) (errorCallback : bool)
    (rpc : string -> option Error * JsValue) : list HealthEffect :=
  let networkId := rpc_getNetworkID augur in
  let universe := Universe (contracts_addresses augur networkId) in
  let controller := Controller (contracts_addresses augur networkId) in
  let answer := rpc universe in
  getControllerCallback controller errorCallback (fst answer) (snd answer).

(** The calls of [errorCallback] among the effects, in order. *)
Definition errorCallback_calls (l : list HealthEffect) : list Error :=
  flat_map (fun e => match e with
                     | ErrorCallback err => [err]
                     | ClearInterval => []
                     end) l.

(** ** Shorthands for what the processors build and select *)

(** The fill row the Forward processor builds from a log and its market. *)
Definition fill_of (augur : Augur) (log : FormattedEventLog CompleteSetsPurchasedOrSold.Inputs)
    (m : Markets.row) : CompleteSets.row :=
  let numCompleteSets :=
    utils_convertOnChainAmountToDisplayAmount augur
      (CompleteSetsPurchasedOrSold.numCompleteSets (inputs log))
      (numTicksToTickSize (Markets.numTicks m) (Markets.minPrice m) (Markets.maxPrice m)) in
  CompleteSets.mk (CompleteSetsPurchasedOrSold.market (inputs log))
    (CompleteSetsPurchasedOrSold.account (inputs log))
    (blockNumber log)
    (CompleteSetsPurchasedOrSold.universe (inputs log))
    (eventName log) (transactionHash log) (logIndex log)
    (CompleteSetsPurchasedOrSold.tradeGroupId (inputs log))
    numCompleteSets numCompleteSets.

Definition market_is (marketId : string) (m : Markets.row) : bool :=
  String.eqb (Markets.marketId m) marketId.

Definition fill_of_market (marketId : string) (r : CompleteSets.row) : bool :=
  String.eqb (CompleteSets.marketId r) marketId.

Definition fill_of_log {I} (log : FormattedEventLog I) (r : CompleteSets.row) : bool :=
  String.eqb (CompleteSets.transactionHash r) (transactionHash log)
  && Z.eqb (CompleteSets.logIndex r) (logIndex log).

(** The store once [updateOpenInterest] has run for a market. *)
Definition recomputed (marketId : string) (s : Store) : Store :=
  mkStore (orders s) (orders_canceled s) (initial_reports s)
    (map (fun m => if market_is marketId m
                   then Markets.set_openInterest
                          (sum_fills (filter (fill_of_market marketId) (completeSets s))) m
                   else m) (markets s))
    (completeSets s) (crowdsourcers s) (disputes s) (payouts s).

(** The crowdsourcer row the creation processor inserts. *)
Definition crowdsourcer_of (log : FormattedEventLog DisputeCrowdsourcerCreated.Inputs)
    (payoutID : option Z) : Crowdsourcers.row :=
  Crowdsourcers.mk (blockNumber log) (transactionHash log) (logIndex log)
    (DisputeCrowdsourcerCreated.disputeCrowdsourcer (inputs log))
    (DisputeCrowdsourcerCreated.market (inputs log))
    (DisputeCrowdsourcerCreated.size (inputs log))
    payoutID None.

Definition payout_of_log (log : FormattedEventLog DisputeCrowdsourcerCreated.Inputs)
    : Payouts.row -> bool :=
  payout_matches (DisputeCrowdsourcerCreated.market (inputs log))
    (DisputeCrowdsourcerCreated.payoutNumerators (inputs log))
    (DisputeCrowdsourcerCreated.invalid (inputs log)).

(** The dispute row the contribution processor inserts. *)
Definition dispute_of (log : FormattedEventLog DisputeCrowdsourcerContribution.Inputs)
    : Disputes.row :=
  Disputes.mk (blockNumber log) (transactionHash log) (logIndex log)
    (DisputeCrowdsourcerContribution.reporter (inputs log))
    (DisputeCrowdsourcerContribution.disputeCrowdsourcer (inputs log))
    (DisputeCrowdsourcerContribution.amountStaked (inputs log)).

Definition dispute_of_log {I} (log : FormattedEventLog I) (d : Disputes.row) : bool :=
  String.eqb (Disputes.transactionHash d) (transactionHash log)
  && Z.eqb (Disputes.logIndex d) (logIndex log).

Definition crowdsourcer_is (id : string) (c : Crowdsourcers.row) : bool :=
  String.eqb (Crowdsourcers.crowdsourcerID c) id.

(** ** The state a Forward log expects to find *)

Definition order_is (orderId : string) (r : Orders.row) : bool :=
  String.eqb (Orders.orderId r) orderId.

Definition cancellation_of (orderId : string) (r : OrdersCanceled.row) : bool :=
  String.eqb (OrdersCanceled.orderId r) orderId.

Definition report_of (marketId : string) (r : InitialReports.row) : bool :=
  String.eqb (InitialReports.marketId r) marketId.

(** The cached total of every row of the market is the sum of its fills. *)
Definition aggregate_consistent (marketId : string) (s : Store) : Prop :=
  forall m, In m (markets s) -> market_is marketId m = true ->
    Markets.openInterest m
    = sum_fills (filter (fill_of_market marketId) (completeSets s)).

(** The store is as it is before the log was ever applied: the flag the log
    sets is down, the row the log inserts is not there, and what the log
    reads (market, payout set) is. *)
Definition forward_ready (e : LogEvent) (s : Store) : Prop :=
  match e with
  | OrderCanceledLog log =>
      let orderId := OrderCanceled.orderId (inputs log) in
      (forall r, In r (orders s) -> order_is orderId r = true ->
                 Orders.orderState r = OPEN)
      /\ (forall c, In c (orders_canceled s) -> cancellation_of orderId c = false)
  | InitialReporterRedeemedLog log =>
      forall r, In r (initial_reports s) ->
        report_of (InitialReporterRedeemed.market (inputs log)) r = true ->
        InitialReports.redeemed r = false
  | CompleteSetsPurchasedOrSoldLog log =>
      let marketId := CompleteSetsPurchasedOrSold.market (inputs log) in
      (exists m, In m (markets s) /\ market_is marketId m = true)
      /\ (forall r, In r (completeSets s) -> fill_of_log log r = false)
      /\ aggregate_consistent marketId s
  | DisputeCrowdsourcerCreatedLog log =>
      (forall c, In c (crowdsourcers s) ->
         crowdsourcer_is (DisputeCrowdsourcerCreated.disputeCrowdsourcer (inputs log)) c
         = false)
      /\ (exists p, In p (payouts s) /\ payout_of_log log p = true)
  | DisputeCrowdsourcerContributionLog log =>
      forall d, In d (disputes s) -> dispute_of_log log d = false
  | DisputeCrowdsourcerCompletedLog log =>
      forall c, In c (crowdsourcers s) ->
        crowdsourcer_is (DisputeCrowdsourcerCompleted.disputeCrowdsourcer (inputs log)) c
        = true ->
        Crowdsourcers.completed c = Some 0%Z
  end.

(** Forward then Removal gives the store back, for a pair of processors that
    leaves nothing running. *)
Definition restores (apply_ revert_ : Async unit) (w : World) : Prop :=
  exists w1 w2,
    apply_ w = Resolved tt w1 /\ detached w1 = detached w
    /\ revert_ w1 = Resolved tt w2 /\ detached w2 = detached w
    /\ store w2 = store w.

(** ** Replaying complete-set logs *)

Inductive Direction : Type := Forward | Removal.

Definition process_fill (db : Knex) (augur : Augur) (d : Direction)
    (log : FormattedEventLog CompleteSetsPurchasedOrSold.Inputs) : Async unit :=
  match d with
  | Forward => processCompleteSetsPurchasedOrSoldLog db augur log
  | Removal => processCompleteSetsPurchasedOrSoldLogRemoval db augur log
  end.

(** The logs are processed one after the other, each with whatever it left
    running settled before the next. *)
Fixpoint replay (db : Knex) (augur : Augur)
    (steps : list (Direction * FormattedEventLog CompleteSetsPurchasedOrSold.Inputs))
    (w : World) : World :=
  match steps with
  | [] => w
  | (d, log) :: steps' =>
      replay db augur steps' (settle (world_of (process_fill db augur d log w)))
  end.

(** Every market's cached total is the sum of its fills. *)
Definition all_consistent (s : Store) : Prop :=
  forall marketId, aggregate_consistent marketId s.

(** A log identity belongs to one market: logs with the same
    (transactionHash, logIndex) name the same market ... *)
Definition keys_agree
    (logs : list (FormattedEventLog CompleteSetsPurchasedOrSold.Inputs)) : Prop :=
  forall l1 l2, In l1 logs -> In l2 logs ->
    transactionHash l1 = transactionHash l2 -> logIndex l1 = logIndex l2 ->
    CompleteSetsPurchasedOrSold.market (inputs l1)
    = CompleteSetsPurchasedOrSold.market (inputs l2).

(** ... and so do the fills already stored under it. *)
Definition fills_keyed
    (logs : list (FormattedEventLog CompleteSetsPurchasedOrSold.Inputs))
    (s : Store) : Prop :=
  forall r log, In r (completeSets s) -> In log logs ->
    fill_of_log log r = true ->
    CompleteSets.marketId r = CompleteSetsPurchasedOrSold.market (inputs log).

(** ** Tables with constraints

    The migrations that declare the tables, with their keys and their NOT
    NULL columns, are not among the sources, so what the database refuses is
    left open: a constraint tells, from the rows of a table and a row to
    insert, whether the insert is refused, and with what error.  The
    processors above are those of a database that refuses nothing; the ones
    of [Constrained] are the same code on a database with constraints.
    Updates of a flag and deletes are not refused. *)
Definition Constraint (R : Type) : Type := list R -> R -> option Error.

(** The constraints of the tables the processors insert into. *)
Record Schema : Type := mkSchema {
  orders_canceled_c : Constraint OrdersCanceled.row;
  completeSets_c : Constraint CompleteSets.row;
  crowdsourcers_c : Constraint Crowdsourcers.row;
  disputes_c : Constraint Disputes.row;
  payouts_c : Constraint Payouts.row }.

(** The database that refuses nothing. *)
Definition unconstrained : Schema :=
  mkSchema (fun _ _ => None) (fun _ _ => None) (fun _ _ => None)
           (fun _ _ => None) (fun _ _ => None).

(** The cancellation record the Forward processor inserts. *)
Definition cancellation_record (log : FormattedEventLog OrderCanceled.Inputs)
    : OrdersCanceled.row :=
  OrdersCanceled.mk (OrderCanceled.orderId (inputs log))
    (transactionHash log) (logIndex log) (blockNumber log).

Module Constrained.
Section UnderSchema.
Variable schema : Schema.

(** [db.into(t).insert(row)] on a table with a constraint: a refused insert
    rejects with the error of the database and stores nothing. *)
Definition knex_insert {R} (db : Knex) (t : Table R) (c : Constraint R) (r : R)
    : Async unit :=
  log_effect (Ran db INSERT (table_name t)) ;;
  stored <- read_store (rows t) ;;
  match c stored r with
  | Some err => throw err
  | None => modify_store (fun s => with_rows t (rows t s ++ [r]) s)
  end.

(** Modelled from the spec: [insertPayout] of [./database], as above, its
    insert put to the constraint of the payouts table. *)
Definition insertPayout (db : Knex) (trx : nat) (marketId : string)
    (payoutNumerators : list Z) (invalid : bool) : Async Z :=
  found <- knex_first (transacting db trx) payouts_t
             (payout_matches marketId payoutNumerators invalid) ;;
  match found with
  | Some p => ret (Payouts.payoutID p)
  | None =>
      payoutID <- read_store next_payoutID ;;
      knex_insert (transacting db trx) payouts_t (payouts_c schema)
        (Payouts.mk payoutID marketId payoutNumerators invalid) ;;
      ret payoutID
  end.

Definition processOrderCanceledLog (db : Knex) (augur : Augur)
    (log : FormattedEventLog OrderCanceled.Inputs) : Async unit :=
  let orderId := OrderCanceled.orderId (inputs log) in
  let orderTypeLabel :=
    if String.eqb (OrderCanceled.orderType (inputs log)) "0" then "buy" else "sell" in
  knex_update db orders_t (fun r => String.eqb (Orders.orderId r) orderId)
    (Orders.set_orderState CANCELED) ;;
  knex_insert db orders_canceled_t (orders_canceled_c schema)
    (OrdersCanceled.mk orderId (transactionHash log) (logIndex log) (blockNumber log)) ;;
  ordersRow <- knex_first db orders_t (fun r => String.eqb (Orders.orderId r) orderId) ;;
  let ordersRow :=
    option_map (fun r => obj_set "orderType" (VStr orderTypeLabel)
                           (MarketIDAndOutcomeAndPrice r)) ordersRow in
  emit (SubscriptionEventNames "OrderCanceled") (Object_assign (log_object log) ordersRow).

Definition processCompleteSetsPurchasedOrSoldLog (db : Knex) (augur : Augur)
    (log : FormattedEventLog CompleteSetsPurchasedOrSold.Inputs) : Async unit :=
  let marketId := CompleteSetsPurchasedOrSold.market (inputs log) in
  marketsRow <- knex_first db markets_t
                  (fun m => String.eqb (Markets.marketId m) marketId) ;;
  match marketsRow with
  | None =>
      throw (new_Error "market min price, max price, category, and/or num ticks not found")
  | Some marketsRow =>
      let minPrice := Markets.minPrice marketsRow in
      let maxPrice := Markets.maxPrice marketsRow in
      let numTicks := Markets.numTicks marketsRow in
      let tickSize := numTicksToTickSize numTicks minPrice maxPrice in
      let numCompleteSets :=
        utils_convertOnChainAmountToDisplayAmount augur
          (CompleteSetsPurchasedOrSold.numCompleteSets (inputs log)) tickSize in
      let completeSetPurchasedData :=
        CompleteSets.mk marketId
          (CompleteSetsPurchasedOrSold.account (inputs log))
          (blockNumber log)
          (CompleteSetsPurchasedOrSold.universe (inputs log))
          (eventName log)
          (transactionHash log)
          (logIndex log)
          (CompleteSetsPurchasedOrSold.tradeGroupId (inputs log))
          numCompleteSets
          numCompleteSets in
      knex_insert db completeSets_t (completeSets_c schema) completeSetPurchasedData ;;
      emit (SubscriptionEventNames (eventName log))
           (CompleteSets.object completeSetPurchasedData) ;;
      (* updateOpenInterest(db, marketId);   -- no await *)
      detach (TaskUpdateOpenInterest db marketId)
  end.

Definition processDisputeCrowdsourcerCreatedLog (db : Knex) (augur : Augur) (trx : nat)
    (log : FormattedEventLog DisputeCrowdsourcerCreated.Inputs) : Async unit :=
  r <- asCallback (insertPayout db trx
                     (DisputeCrowdsourcerCreated.market (inputs log))
                     (DisputeCrowdsourcerCreated.payoutNumerators (inputs log))
                     (DisputeCrowdsourcerCreated.invalid (inputs log))) ;;
  (* (err, payoutID) => ...   -- err is not looked at *)
  let payoutID := snd r in
  let crowdsourcerToInsert :=
    Crowdsourcers.mk (blockNumber log) (transactionHash log) (logIndex log)
      (DisputeCrowdsourcerCreated.disputeCrowdsourcer (inputs log))
      (DisputeCrowdsourcerCreated.market (inputs log))
      (DisputeCrowdsourcerCreated.size (inputs log))
      payoutID None in
  r <- asCallback (knex_insert (transacting db trx) crowdsourcers_t
                     (crowdsourcers_c schema) crowdsourcerToInsert) ;;
  match fst r with
  | Some err => throw err
  | None => emit "DisputeCrowdsourcerCreated" (log_object log) ;; ret tt
  end.

Definition processDisputeCrowdsourcerContributionLog (db : Knex) (augur : Augur) (trx : nat)
    (log : FormattedEventLog DisputeCrowdsourcerContribution.Inputs) : Async unit :=
  let disputeToInsert :=
    Disputes.mk (blockNumber log) (transactionHash log) (logIndex log)
      (DisputeCrowdsourcerContribution.reporter (inputs log))
      (DisputeCrowdsourcerContribution.disputeCrowdsourcer (inputs log))
      (DisputeCrowdsourcerContribution.amountStaked (inputs log)) in
  r <- asCallback (knex_insert (transacting db trx) disputes_t
                     (disputes_c schema) disputeToInsert) ;;
  match fst r with
  | Some err => throw err
  | None => emit "DisputeCrowdsourcerContribution" (log_object log) ;; ret tt
  end.

(** Modelled from the spec: the apply half of the handler registry, as
    above.  The flag-setting processors insert nothing: they are the ones
    above. *)
Definition apply (db : Knex) (augur : Augur) (trx : nat) (e : LogEvent) : Async unit :=
  match e with
  | OrderCanceledLog log => processOrderCanceledLog (transacting db trx) augur log
  | InitialReporterRedeemedLog log =>
      processInitialReporterRedeemedLog (transacting db trx) augur log
  | CompleteSetsPurchasedOrSoldLog log =>
      processCompleteSetsPurchasedOrSoldLog (transacting db trx) augur log
  | DisputeCrowdsourcerCreatedLog log => processDisputeCrowdsourcerCreatedLog db augur trx log
  | DisputeCrowdsourcerContributionLog log =>
      processDisputeCrowdsourcerContributionLog db augur trx log
  | DisputeCrowdsourcerCompletedLog log =>
      processDisputeCrowdsourcerCompletedLog db augur trx log
  end.
End UnderSchema.
End Constrained.

(** The payoutID [insertPayout] calls back with on a store: that of the
    payout row found, that of the row created, or [undefined] when the
    payouts table refuses the new row. *)
Definition payoutID_of_creation (schema : Schema)
    (log : FormattedEventLog DisputeCrowdsourcerCreated.Inputs) (s : Store) : option Z :=
  match find (payout_of_log log) (payouts s) with
  | Some p => Some (Payouts.payoutID p)
  | None =>
      match payouts_c schema (payouts s)
              (Payouts.mk (next_payoutID s)
                 (DisputeCrowdsourcerCreated.market (inputs log))
                 (DisputeCrowdsourcerCreated.payoutNumerators (inputs log))
                 (DisputeCrowdsourcerCreated.invalid (inputs log))) with
      | Some _ => None
      | None => Some (next_payoutID s)
      end
  end.

(** The row the Forward processor of a log inserts into its own table, put
    to the constraint of that table: the error the insert is refused with,
    if it is.  The flag-setting processors insert nothing. *)
Definition own_insert_refused (schema : Schema) (augur : Augur) (e : LogEvent) (s : Store)
    : option Error :=
  match e with
  | OrderCanceledLog log =>
      orders_canceled_c schema (orders_canceled s) (cancellation_record log)
  | InitialReporterRedeemedLog _ => None
  | CompleteSetsPurchasedOrSoldLog log =>
      match find (market_is (CompleteSetsPurchasedOrSold.market (inputs log))) (markets s)
      with
      | Some m => completeSets_c schema (completeSets s) (fill_of augur log m)
      | None => None
      end
  | DisputeCrowdsourcerCreatedLog log =>
      crowdsourcers_c schema (crowdsourcers s)
        (crowdsourcer_of log (payoutID_of_creation schema log s))
  | DisputeCrowdsourcerContributionLog log =>
      disputes_c schema (disputes s) (dispute_of log)
  | DisputeCrowdsourcerCompletedLog _ => None
  end.

(** The market row a complete-set log needs is not there. *)
Definition market_missing (e : LogEvent) (s : Store) : bool :=
  match e with
  | CompleteSetsPurchasedOrSoldLog log =>
      match find (market_is (CompleteSetsPurchasedOrSold.market (inputs log))) (markets s)
      with
      | Some _ => false
      | None => true
      end
  | _ => false
  end.

(** What a Forward processor has written by the time it issues the insert
    into its own table: the order-cancellation processor has set the orders
    to CANCELED, and the creation processor has had the payout row created
    when there was none and the payouts table took it. *)
Definition written_before_own_insert (schema : Schema) (e : LogEvent) (s : Store) : Store :=
  match e with
  | OrderCanceledLog log =>
      with_rows orders_t
        (map (fun r => if order_is (OrderCanceled.orderId (inputs log)) r
                       then Orders.set_orderState CANCELED r else r) (orders s)) s
  | DisputeCrowdsourcerCreatedLog log =>
      match find (payout_of_log log) (payouts s) with
      | Some _ => s
      | None =>
          let payout := Payouts.mk (next_payoutID s)
                          (DisputeCrowdsourcerCreated.market (inputs log))
                          (DisputeCrowdsourcerCreated.payoutNumerators (inputs log))
                          (DisputeCrowdsourcerCreated.invalid (inputs log)) in
          match payouts_c schema (payouts s) payout with
          | Some _ => s
          | None => with_rows payouts_t (payouts s ++ [payout]) s
          end
      end
  | _ => s
  end.

(** [processCompleteSetsPurchasedOrSoldLogRemoval] with the
    [updateOpenInterest] it imports from [./order-filled/update-volumetrics]
    left open. *)
Definition processCompleteSetsPurchasedOrSoldLogRemoval_with
    (updateOpenInterest : Knex -> string -> Async unit) (db : Knex) (augur : Augur)
    (log : FormattedEventLog CompleteSetsPurchasedOrSold.Inputs) : Async unit :=
  knex_del db completeSets_t
    (fun r => String.eqb (CompleteSets.transactionHash r) (transactionHash log)
              && Z.eqb (CompleteSets.logIndex r) (logIndex log)) ;;
  emit (SubscriptionEventNames (eventName log)) (log_object log) ;;
  (* await updateOpenInterest(db, log.market); *)
  updateOpenInterest db (CompleteSetsPurchasedOrSold.market (inputs log)).


(** ** Sample data *)

Definition sample_augur : Augur :=
  mkAugur (fun onChainAmount tickSize => (inject_Z onChainAmount * tickSize)%Q)
          "1" (fun _ => mkAddresses "0xUNIVERSE" "0xCONTROLLER").

Definition empty_store : Store := mkStore [] [] [] [] [] [] [] [].

Definition cancel_0xABC : FormattedEventLog OrderCanceled.Inputs :=
  mkLog 100 "0xT1" 0 "OrderCanceled" (OrderCanceled.mk "0xABC" "0").

Definition order_0xABC (state : OrderState) : Orders.row :=
  Orders.mk "0xABC" "0xMARKET" 1 (VStr "0.5") state.

(** A world whose only order is 0xABC, in the given state. *)
Definition world_with_order (state : OrderState) : World :=
  mkWorld (mkStore [order_0xABC state] [] [] [] [] [] [] []) [] [].

Definition sample_market (openInterest : Q) : Markets.row :=
  Markets.mk "0xMARKET" 0 1 100 openInterest.

(** A complete-set purchase log for the sample market. *)
Definition purchase (transactionHash : string) (logIndex : Z) (onChainAmount : Z)
    : FormattedEventLog CompleteSetsPurchasedOrSold.Inputs :=
  mkLog 101 transactionHash logIndex "CompleteSetsPurchased"
    (CompleteSetsPurchasedOrSold.mk "0xMARKET" "0xACCOUNT" onChainAmount
       "0xGROUP" "0xUNIVERSE").

(** A world whose only row is the sample market, with no fill yet. *)
Definition world_with_market : World :=
  mkWorld (mkStore [] [] [] [sample_market 0] [] [] [] []) [] [].

Definition redeemed_0xMARKET : FormattedEventLog InitialReporterRedeemed.Inputs :=
  mkLog 102 "0xT3" 1 "InitialReporterRedeemed" (InitialReporterRedeemed.mk "0xMARKET").

(** A world whose only row is the initial report of the sample market. *)
Definition world_with_report (redeemed : bool) : World :=
  mkWorld (mkStore [] [] [InitialReports.mk "0xMARKET" redeemed] [] [] [] [] []) [] [].


Definition crowdsourcer_created (marketId crowdsourcerID : string)
    (payoutNumerators : list Z) (invalid : bool) (logIndex : Z)
    : FormattedEventLog DisputeCrowdsourcerCreated.Inputs :=
  mkLog 103 "0xT4" logIndex "DisputeCrowdsourcerCreated"
    (DisputeCrowdsourcerCreated.mk marketId payoutNumerators invalid crowdsourcerID 50).

Definition crowdsourcer_completed (crowdsourcerID : string)
    : FormattedEventLog DisputeCrowdsourcerCompleted.Inputs :=
  mkLog 106 "0xT6" 0 "DisputeCrowdsourcerCompleted"
    (DisputeCrowdsourcerCompleted.mk "0xUNIVERSE" "0xMARKET" crowdsourcerID).

(** A constraint that refuses a row whose key a stored row has already. *)
Definition unique_key {R} (same_key : R -> R -> bool) (err : Error) : Constraint R :=
  fun stored r => if existsb (same_key r) stored then Some err else None.

Definition SQLITE_CONSTRAINT (column : string) : Error :=
  new_Error ("SQLITE_CONSTRAINT: UNIQUE constraint failed: " ++ column).

(** Modelled from the spec: the keys of the tables as the design documents
    give them, the migrations not being among the sources: a cancellation
    record is keyed by its order id, a fill and a contribution by
    (transactionHash, logIndex), a crowdsourcer by its crowdsourcerID, and a
    payout set by (market, payoutNumerators, invalid). *)
Definition keyed_schema : Schema :=
  mkSchema
    (unique_key (fun r r' => String.eqb (OrdersCanceled.orderId r) (OrdersCanceled.orderId r'))
       (SQLITE_CONSTRAINT "orders_canceled.orderId"))
    (unique_key (fun r r' =>
                   String.eqb (CompleteSets.transactionHash r) (CompleteSets.transactionHash r')
                   && Z.eqb (CompleteSets.logIndex r) (CompleteSets.logIndex r'))
       (SQLITE_CONSTRAINT "completeSets.transactionHash, completeSets.logIndex"))
    (unique_key (fun r r' =>
                   String.eqb (Crowdsourcers.crowdsourcerID r) (Crowdsourcers.crowdsourcerID r'))
       (SQLITE_CONSTRAINT "crowdsourcers.crowdsourcerID"))
    (unique_key (fun r r' =>
                   String.eqb (Disputes.transactionHash r) (Disputes.transactionHash r')
                   && Z.eqb (Disputes.logIndex r) (Disputes.logIndex r'))
       (SQLITE_CONSTRAINT "disputes.transactionHash, disputes.logIndex"))
    (unique_key (fun r r' =>
                   payout_matches (Payouts.marketID r) (Payouts.payoutNumerators r)
                     (Payouts.invalid r) r')
       (SQLITE_CONSTRAINT "payouts.marketID, payouts.payoutNumerators, payouts.invalid")).

(** * Further definitions: what else the sources show *)

From Stdlib Require Import Permutation Sorted.

(** ** Processors by direction *)

Definition process_cancellation (db : Knex) (augur : Augur) (d : Direction)
    (log : FormattedEventLog OrderCanceled.Inputs) : Async unit :=
  match d with
  | Forward => processOrderCanceledLog db augur log
  | Removal => processOrderCanceledLogRemoval db augur log
  end.

Definition process_redemption (db : Knex) (augur : Augur) (d : Direction)
    (log : FormattedEventLog InitialReporterRedeemed.Inputs) : Async unit :=
  match d with
  | Forward => processInitialReporterRedeemedLog db augur log
  | Removal => processInitialReporterRedeemedLogRemoval db augur log
  end.

Definition process_completion (db : Knex) (augur : Augur) (trx : nat) (d : Direction)
    (log : FormattedEventLog DisputeCrowdsourcerCompleted.Inputs) : Async unit :=
  match d with
  | Forward => processDisputeCrowdsourcerCompletedLog db augur trx log
  | Removal => processDisputeCrowdsourcerCompletedLogRemoval db augur trx log
  end.

Definition process_contribution (db : Knex) (augur : Augur) (trx : nat) (d : Direction)
    (log : FormattedEventLog DisputeCrowdsourcerContribution.Inputs) : Async unit :=
  match d with
  | Forward => processDisputeCrowdsourcerContributionLog db augur trx log
  | Removal => processDisputeCrowdsourcerContributionLogRemoval db augur trx log
  end.

(** The direction of the last log of a list that names a given row, if one
    does. *)
Fixpoint last_direction {L} (names : L -> bool) (steps : list (Direction * L))
    : option Direction :=
  match steps with
  | [] => None
  | (d, log) :: steps' =>
      match last_direction names steps' with
      | Some d' => Some d'
      | None => if names log then Some d else None
      end
  end.

(** Initial-report redemption logs, processed one after the other. *)
Fixpoint redemptions (db : Knex) (augur : Augur)
    (steps : list (Direction * FormattedEventLog InitialReporterRedeemed.Inputs))
    (w : World) : World :=
  match steps with
  | [] => w
  | (d, log) :: steps' =>
      redemptions db augur steps' (world_of (process_redemption db augur d log w))
  end.

(** Crowdsourcer completion logs, processed one after the other. *)
Fixpoint completions (db : Knex) (augur : Augur) (trx : nat)
    (steps : list (Direction * FormattedEventLog DisputeCrowdsourcerCompleted.Inputs))
    (w : World) : World :=
  match steps with
  | [] => w
  | (d, log) :: steps' =>
      completions db augur trx steps' (world_of (process_completion db augur trx d log w))
  end.

(** The store a promise leaves behind. *)
Definition store_after {A} (m : Async A) (w : World) : Store := store (world_of (m w)).

(** Every statement of a journal ran on the given handle. *)
Definition statements_on (k : Knex) (j : list Effect) : Prop :=
  forall on stmt table, In (Ran on stmt table) j -> on = k.

(** Whatever world it starts in, a promise only adds to the journal, and
    every statement it adds runs on the given handle. *)
Definition runs_on {A} (k : Knex) (m : Async A) : Prop :=
  forall w, exists j, journal (world_of (m w)) = journal w ++ j /\ statements_on k j.

(** [processDisputeCrowdsourcerCreatedLog] with the [insertPayout] it imports
    from [./database] left open. *)
Definition processDisputeCrowdsourcerCreatedLog_with
    (insertPayout : Knex -> nat -> string -> list Z -> bool -> Async Z)
    (db : Knex) (augur : Augur) (trx : nat)
    (log : FormattedEventLog DisputeCrowdsourcerCreated.Inputs) : Async unit :=
  r <- asCallback (insertPayout db trx
                     (DisputeCrowdsourcerCreated.market (inputs log))
                     (DisputeCrowdsourcerCreated.payoutNumerators (inputs log))
                     (DisputeCrowdsourcerCreated.invalid (inputs log))) ;;
  (* (err, payoutID) => ...   -- err is not looked at *)
  let payoutID := snd r in
  let crowdsourcerToInsert :=
    Crowdsourcers.mk (blockNumber log) (transactionHash log) (logIndex log)
      (DisputeCrowdsourcerCreated.disputeCrowdsourcer (inputs log))
      (DisputeCrowdsourcerCreated.market (inputs log))
      (DisputeCrowdsourcerCreated.size (inputs log))
      payoutID None in
  r <- asCallback (knex_insert (transacting db trx) crowdsourcers_t crowdsourcerToInsert) ;;
  match fst r with
  | Some err => throw err
  | None => emit "DisputeCrowdsourcerCreated" (log_object log) ;; ret tt
  end.

(** An [insertPayout] that calls back with an error. *)
Definition failing_insertPayout (err : Error)
    : Knex -> nat -> string -> list Z -> bool -> Async Z :=
  fun _ _ _ _ _ => throw err.

Definition contribution (transactionHash reporter crowdsourcerID : string)
    (logIndex amountStaked : Z)
    : FormattedEventLog DisputeCrowdsourcerContribution.Inputs :=
  mkLog 104 transactionHash logIndex "DisputeCrowdsourcerContribution"
    (DisputeCrowdsourcerContribution.mk reporter crowdsourcerID amountStaked).

(** ** monitor-ethereum-node-health.ts: the interval and its timer *)

(** An interval set by [monitorEthereumNodeHealth], with what its callback
    closes over. *)
Record Interval : Type := mkInterval {
  interval_id : nat;
  interval_universe : string;
  interval_controller : string;
  interval_errorCallback : bool }.

(** The module variable [monitorEthereumNodeHealthId], the intervals that are
    set and not cleared, the number of timers handed out so far, and the
    calls of error callbacks so far. *)
Record Timers : Type := mkTimers {
  monitorEthereumNodeHealthId : option nat;
  intervals : list Interval;
  timers_created : nat;
  errorCallback_called : list Error }.

Definition no_timers : Timers := mkTimers None [] 0 [].

(** [clearInterval(id)]; clearing [undefined] or a timer that is not set does
    nothing. *)
Definition clearInterval (id : option nat) (t : Timers) : Timers :=
  match id with
  | None => t
  | Some id =>
      mkTimers (monitorEthereumNodeHealthId t)
        (filter (fun i => negb (Nat.eqb (interval_id i) id)) (intervals t))
        (timers_created t) (errorCallback_called t)
  end.

(** [monitorEthereumNodeHealth(augur, errorCallback)].  [setInterval] does not
    throw, so the [catch] around it is never entered. *)
Definition monitorEthereumNodeHealth (augur : Augur) (errorCallback : bool)
    (t : Timers) : Timers :=
  let networkId := rpc_getNetworkID augur in
  let universe := Universe (contracts_addresses augur networkId) in
  let controller := Controller (contracts_addresses augur networkId) in
  let t := match monitorEthereumNodeHealthId t with
           | Some id => clearInterval (Some id) t
           | None => t
           end in
  let id := timers_created t in
  mkTimers (Some id)
    (intervals t ++ [mkInterval id universe controller errorCallback])
    (S id) (errorCallback_called t).

(** What an effect of the callback does to the timers: [clearInterval] is
    called on the module variable as it is when the callback runs. *)
Definition health_effect (t : Timers) (e : HealthEffect) : Timers :=
  match e with
  | ClearInterval => clearInterval (monitorEthereumNodeHealthId t) t
  | ErrorCallback err =>
      mkTimers (monitorEthereumNodeHealthId t) (intervals t) (timers_created t)
        (errorCallback_called t ++ [err])
  end.

(** The node's answer to a [getController] call made by a tick of the given
    interval reaches its callback. *)
Definition getController_answered (i : Interval) (err : option Error)
    (universeController : JsValue) (t : Timers) : Timers :=
  fold_left health_effect
    (getControllerCallback (interval_controller i) (interval_errorCallback i)
       err universeController) t.

Inductive MonitorStep : Type :=
| Monitored (augur : Augur) (errorCallback : bool)
| Answered (i : Interval) (err : option Error) (universeController : JsValue).

Definition monitor_step (t : Timers) (s : MonitorStep) : Timers :=
  match s with
  | Monitored augur errorCallback => monitorEthereumNodeHealth augur errorCallback t
  | Answered i err universeController => getController_answered i err universeController t
  end.

Definition monitor_steps (steps : list MonitorStep) : Timers :=
  fold_left monitor_step steps no_timers.

(** The answer is the configured controller and no error came with it. *)
Definition healthy (controller : string) (err : option Error)
    (universeController : JsValue) : Prop :=
  err = None /\ universeController = VStr controller.

(** At most one interval is set, and it is the one the module variable
    names; timers handed out are below the counter. *)
Definition one_interval (t : Timers) : Prop :=
  (forall i, In i (intervals t) -> monitorEthereumNodeHealthId t = Some (interval_id i))
  /\ (length (intervals t) <= 1)%nat
  /\ (forall id, monitorEthereumNodeHealthId t = Some id -> (id < timers_created t)%nat).

(** ** The trading-positions getter *)




(** A function that returns or throws. *)
Inductive Result (A : Type) : Type :=
| Returns (a : A)
| Throws (e : Error).
Arguments Returns {A} _.
Arguments Throws {A} _.

(** [TypeError: Cannot read property ... of undefined] *)
Definition TypeError (msg : string) : Error := mkError "TypeError" msg.

(** The markets table as this getter reads it. *)
Module MarketsUniverse.
Record row : Type := mk {
  marketId : string;
  universe : option string }.       (* NULL when not set *)
End MarketsUniverse.




(** The parts of bignumber.js the getter calls, and [ZERO] of the constants. *)
Module BigNumberJs.
Record Lib : Type := mk {
  BigNumber : Type;
  ZERO : BigNumber;
  eq : BigNumber -> BigNumber -> bool;          (* a.eq(b) *)
  minus : BigNumber -> BigNumber -> BigNumber;  (* a.minus(b) *)
  negated : BigNumber -> BigNumber;             (* a.negated() *)
  (* BigNumber.minimum(...l): whether it returns or throws is the library's,
     on no argument in particular *)
  minimum : list BigNumber -> Result BigNumber }.
End BigNumberJs.

(** [x.eq(ZERO)] *)
Definition eq_ZERO {B : BigNumberJs.Lib} (x : BigNumberJs.BigNumber B) : bool :=
  BigNumberJs.eq B x (BigNumberJs.ZERO B).

Module Position.
Section Fields.
Variable B : BigNumberJs.Lib.
(** [TradingPosition]: a [ProfitLossResult] with its market, its outcome and
    the two positions derived from it. *)
Record t : Type := mk {
  marketId : string;
  outcome : Z;
  netPosition : BigNumberJs.BigNumber B;
  position : BigNumberJs.BigNumber B;
  realized : BigNumberJs.BigNumber B;
  unrealized : BigNumberJs.BigNumber B;
  total : BigNumberJs.BigNumber B;
  cost : BigNumberJs.BigNumber B;
  averagePrice : BigNumberJs.BigNumber B;
  numEscrowed : BigNumberJs.BigNumber B;
  totalPosition : BigNumberJs.BigNumber B;
  timestamp : Z }.
(** [Object.assign({}, p, { netPosition })] *)
Definition with_netPosition (n : BigNumberJs.BigNumber B) (p : t) : t :=
  mk (marketId p) (outcome p) n (position p) (realized p) (unrealized p) (total p)
     (cost p) (averagePrice p) (numEscrowed p) (totalPosition p) (timestamp p).
(** [p.position = v] *)
Definition with_position (v : BigNumberJs.BigNumber B) (p : t) : t :=
  mk (marketId p) (outcome p) (netPosition p) v (realized p) (unrealized p) (total p)
     (cost p) (averagePrice p) (numEscrowed p) (totalPosition p) (timestamp p).
End Fields.
Arguments marketId {B} _.
Arguments outcome {B} _.
Arguments netPosition {B} _.
Arguments position {B} _.
Arguments totalPosition {B} _.
Arguments timestamp {B} _.
Arguments with_netPosition {B} _ _.
Arguments with_position {B} _ _.
End Position.

(** *** lodash *)

(** [_.sortBy(l, key)]: ascending, and stable. *)
Fixpoint sort_insert {A} (key : A -> Z) (x : A) (l : list A) : list A :=
  match l with
  | [] => [x]
  | y :: l' => if Z.leb (key x) (key y) then x :: l else y :: sort_insert key x l'
  end.

Definition sortBy {A} (key : A -> Z) (l : list A) : list A :=
  fold_right (sort_insert key) [] l.

(** [_.range(n)] for a count that is not negative *)
Definition range (n : Z) : list Z := map Z.of_nat (seq 0 (Z.to_nat n)).

(** [_.zip(a, b)]: as long as the longer one, the shorter padded with
    [undefined]. *)
Fixpoint zip {A C} (a : list A) (b : list C) : list (option A * option C) :=
  match a with
  | [] => map (fun y => (None, Some y)) b
  | x :: a' =>
      match b with
      | [] => (Some x, None) :: zip a' []
      | y :: b' => (Some x, Some y) :: zip a' b'
      end
  end.

(** [_.findIndex(l, p)]: the first index whose element satisfies [p], or -1 *)
Fixpoint findIndex_from {A} (p : A -> bool) (i : Z) (l : list A) : Z :=
  match l with
  | [] => (-1)%Z
  | x :: l' => if p x then i else findIndex_from p (i + 1)%Z l'
  end.

Definition findIndex {A} (p : A -> bool) (l : list A) : Z := findIndex_from p 0%Z l.

(** *** The net positions of one market *)

Section NetPositions.
Variable B : BigNumberJs.Lib.
(** [sumProfitLossResults] of [./get-profit-loss], which is not among the
    sources; its second argument may be [undefined], and it returns or
    throws. *)
Variable sumProfitLossResults :
  Position.t B -> option (Position.t B) -> Result (Position.t B).

(** The outcome number the sorted positions skip:
    [_.findIndex(_.zip(sortedOutcomes, _.range(numOutcomes)), ...)] *)
Definition missingOutcome (sortedOutcomes : list (Position.t B)) (numOutcomes : Z) : Z :=
  findIndex
    (fun pair : option (Position.t B) * option Z =>
       match pair with
       | (None, _) => true                                   (* !outcomePl *)
       | (Some outcomePl, Some outcomeNumber) =>
           negb (Z.eqb (Position.outcome outcomePl) outcomeNumber)
       | (Some _, None) => true              (* a number !== undefined *)
       end)
    (zip sortedOutcomes (range numOutcomes)).

(** The position pushed for the outcome that is missing. *)
Definition missing_position (marketId : string) (outcome timestamp : Z) : Position.t B :=
  let ZERO := BigNumberJs.ZERO B in
  Position.mk B marketId outcome ZERO ZERO ZERO ZERO ZERO ZERO ZERO ZERO ZERO timestamp.

(** The callback [getUserTradingPositions] maps over the positions of each
    market, with [numOutcomesByMarket[marketId]] and
    [marketTypesByMarket[marketId]] as it finds them. *)
Definition netPositionsOfMarket (numOutcomes : option Z) (marketType : option string)
    (marketId : string) (outcomes : list (Position.t B))
    : Result (list (Position.t B)) :=
  let sortedOutcomes := sortBy Position.outcome outcomes in
  let outcomesWithZeroPosition :=
    filter (fun o => eq_ZERO (Position.totalPosition o)) outcomes in
  let isMissingOneOutcome :=
    match numOutcomes with
    | Some n => Z.eqb n (Z.of_nat (length sortedOutcomes) + 1)
    | None => false
    end in
  let hasOneZeroPosition := Nat.eqb (length outcomesWithZeroPosition) 1 in
  if (isMissingOneOutcome && hasOneZeroPosition)
     || (negb isMissingOneOutcome && negb hasOneZeroPosition)
  then Returns sortedOutcomes
  else
    let pushed :=
      if isMissingOneOutcome
      then
        match sortedOutcomes with
        | [] => Throws (TypeError "Cannot read property 'timestamp' of undefined")
        | first :: _ =>
            Returns
              (outcomesWithZeroPosition
               ++ [missing_position marketId
                     (missingOutcome sortedOutcomes
                        (Z.of_nat (length sortedOutcomes) + 1))
                     (Position.timestamp first)])
        end
      else Returns outcomesWithZeroPosition in
    match pushed with
    | Throws e => Throws e
    | Returns [] => Throws (TypeError "Cannot read property 'outcome' of undefined")
    | Returns (zero :: _) =>
        if Z.eqb (Position.outcome zero) 0 then Returns sortedOutcomes
        else
          let nonZeroPositionOutcomePls :=
            filter (fun o => negb (eq_ZERO (Position.position o))) sortedOutcomes in
          match BigNumberJs.minimum B
                  (map Position.totalPosition nonZeroPositionOutcomePls) with
          | Throws e => Throws e
          | Returns minimumPosition =>
              let adjustedOutcomePls :=
                map (fun outcomePl =>
                       Position.with_netPosition
                         (BigNumberJs.minus B (Position.totalPosition outcomePl)
                            minimumPosition)
                         outcomePl)
                    nonZeroPositionOutcomePls in
              let shortOutcome :=
                Position.with_netPosition (BigNumberJs.negated B minimumPosition) zero in
              if match marketType with
                 | Some type => String.eqb type "categorical"
                 | None => false
                 end
              then Returns (adjustedOutcomePls ++ [shortOutcome])
              else if Z.eqb (Position.outcome shortOutcome) 1
              then
                match sumProfitLossResults shortOutcome (hd_error adjustedOutcomePls) with
                | Throws e => Throws e
                | Returns result =>
                    Returns [Position.with_position (Position.position shortOutcome) result]
                end
              else Returns nonZeroPositionOutcomePls
          end
    end.
End NetPositions.
Arguments missingOutcome {B} _ _.
Arguments missing_position {B} _ _ _.
Arguments netPositionsOfMarket {B} _ _ _ _ _.

(** What [BigNumber.minimum()] is taken to throw in the examples: with no
    argument it makes a BigNumber of [undefined], which is not a number. *)
Definition not_a_number : Error := new_Error "[BigNumber Error] Not a number: undefined".

(** Rationals as big numbers, for examples; the least of no number throws. *)
Definition QNumbers : BigNumberJs.Lib :=
  BigNumberJs.mk Q 0%Q Qeq_bool Qminus Qopp
    (fun l => match l with
              | [] => Throws not_a_number
              | x :: l' =>
                  Returns (fold_left (fun m n => if Qle_bool n m then n else m) l' x)
              end).

Definition sample_position (outcome : Z) (shares : Q) : Position.t QNumbers :=
  Position.mk QNumbers "0xMARKET" outcome shares shares 0%Q 0%Q 0%Q 0%Q 0%Q 0%Q shares 1000.

(** A position held in escrow only: [position] is zero, the shares are in
    [numEscrowed] and so in [totalPosition]. *)
Definition escrowed_position (outcome : Z) (shares : Q) : Position.t QNumbers :=
  Position.mk QNumbers "0xMARKET" outcome shares 0%Q 0%Q 0%Q 0%Q 0%Q 0%Q shares shares 1000.

(** The least number from [i] on that the outcomes, taken in order, skip. *)
Fixpoint first_skipped {B} (i : Z) (l : list (Position.t B)) : Z :=
  match l with
  | [] => i
  | p :: l' => if Z.eqb (Position.outcome p) i then first_skipped (i + 1)%Z l' else i
  end.

Definition outcome_le {B} (p q : Position.t B) : Prop :=
  (Position.outcome p <= Position.outcome q)%Z.

Definition outcome_lt {B} (p q : Position.t B) : Prop :=
  (Position.outcome p < Position.outcome q)%Z.

(** * Properties *)

(** ** Updating, inserting and deleting rows *)

Section Rows.
Context {R : Type}.
Variable where_ : R -> bool.

Lemma update_nothing (set_ : R -> R) (l : list R) :
  (forall r, In r l -> where_ r = true -> set_ r = r) ->
  map (fun r => if where_ r then set_ r else r) l = l.
Proof.
  induction l as [|r l IH]; intros Hl; simpl; [reflexivity|].
  rewrite IH by (intros; apply Hl; simpl; auto).
  destruct (where_ r) eqn:E; [rewrite Hl|]; simpl; auto.
Qed.

Lemma update_update (f g : R -> R) (l : list R) :
  (forall r, where_ (f r) = where_ r) ->
  map (fun r => if where_ r then g r else r)
      (map (fun r => if where_ r then f r else r) l)
  = map (fun r => if where_ r then g (f r) else r) l.
Proof.
  intros Hf. rewrite map_map. apply map_ext. intros r.
  destruct (where_ r) eqn:E; [rewrite Hf, E|rewrite E]; reflexivity.
Qed.

Lemma update_then_undo (f g : R -> R) (l : list R) :
  (forall r, where_ (f r) = where_ r) ->
  (forall r, In r l -> where_ r = true -> g (f r) = r) ->
  map (fun r => if where_ r then g r else r)
      (map (fun r => if where_ r then f r else r) l) = l.
Proof.
  intros Hf Hg. rewrite update_update by exact Hf.
  apply (update_nothing (fun r => g (f r))). exact Hg.
Qed.

Lemma delete_nothing (l : list R) :
  (forall r, In r l -> where_ r = false) ->
  filter (fun r => negb (where_ r)) l = l.
Proof.
  induction l as [|r l IH]; intros Hl; simpl; [reflexivity|].
  rewrite (Hl r) by (simpl; auto). simpl.
  rewrite IH by (intros; apply Hl; simpl; auto). reflexivity.
Qed.

Lemma insert_then_delete (l : list R) (x : R) :
  (forall r, In r l -> where_ r = false) ->
  where_ x = true ->
  filter (fun r => negb (where_ r)) (l ++ [x]) = l.
Proof.
  intros Hl Hx. rewrite filter_app. simpl. rewrite Hx. simpl.
  rewrite app_nil_r. apply delete_nothing. exact Hl.
Qed.

Lemma delete_spec (l : list R) (r : R) :
  In r (filter (fun r => negb (where_ r)) l) <-> In r l /\ where_ r = false.
Proof.
  rewrite filter_In. rewrite negb_true_iff. reflexivity.
Qed.

Lemma find_update_some (set_ : R -> R) (l : list R) (x : R) :
  (forall r, where_ (set_ r) = where_ r) ->
  In x l -> where_ x = true ->
  exists y, find where_ (map (fun r => if where_ r then set_ r else r) l) = Some y
            /\ where_ y = true.
Proof.
  intros Hs. induction l as [|r l IH]; intros Hin Hx; [destruct Hin|].
  simpl. destruct (where_ r) eqn:E.
  - rewrite Hs, E. exists (set_ r). rewrite Hs. auto.
  - rewrite E. destruct Hin as [->|Hin]; [congruence|]. apply IH; assumption.
Qed.

Lemma find_select_nothing (l : list R) :
  (forall r, In r l -> where_ r = false) -> find where_ l = None.
Proof.
  induction l as [|r l IH]; intros Hl; simpl; [reflexivity|].
  rewrite (Hl r) by (simpl; auto). apply IH. intros; apply Hl; simpl; auto.
Qed.

Lemma find_inserted (l : list R) (x : R) :
  (forall r, In r l -> where_ r = false) -> where_ x = true ->
  find where_ (l ++ [x]) = Some x.
Proof.
  induction l as [|r l IH]; intros Hl Hx; simpl.
  - rewrite Hx. reflexivity.
  - rewrite (Hl r) by (simpl; auto). apply IH; [|exact Hx].
    intros; apply Hl; simpl; auto.
Qed.
Lemma update_fixed (set_ : R -> R) (l : list R) :
  map (fun r => if where_ r then set_ r else r) l = l ->
  forall r, In r l -> where_ r = true -> set_ r = r.
Proof.
  induction l as [|x l IH]; intros Hl r Hin Hr; [destruct Hin|].
  simpl in Hl. injection Hl as Hx Hl.
  destruct Hin as [->|Hin]; [rewrite Hr in Hx; exact Hx | apply IH; assumption].
Qed.

Lemma delete_fixed (l : list R) :
  filter (fun r => negb (where_ r)) l = l ->
  forall r, In r l -> where_ r = false.
Proof.
  intros Hl r Hin. rewrite <- Hl in Hin. apply filter_In in Hin.
  apply negb_true_iff. apply Hin.
Qed.

Lemma insert_then_delete_fixed (l : list R) (x : R) :
  where_ x = true ->
  filter (fun r => negb (where_ r)) (l ++ [x]) = l ->
  forall r, In r l -> where_ r = false.
Proof.
  intros Hx Hl. apply delete_fixed.
  rewrite filter_app in Hl. simpl in Hl. rewrite Hx in Hl. simpl in Hl.
  rewrite app_nil_r in Hl. exact Hl.
Qed.
End Rows.

Lemma store_eta (s : Store) :
  mkStore (orders s) (orders_canceled s) (initial_reports s) (markets s)
          (completeSets s) (crowdsourcers s) (disputes s) (payouts s) = s.
Proof. destruct s; reflexivity. Qed.

Lemma emitted_app j1 j2 :
  emitted (j1 ++ j2) = emitted j1 ++ emitted j2.
Proof. unfold emitted. apply flat_map_app. Qed.

Lemma numerators_eqb_refl l : numerators_eqb l l = true.
Proof.
  induction l as [|x l IH]; simpl; [reflexivity|].
  rewrite Z.eqb_refl, IH. reflexivity.
Qed.

Lemma payout_matches_own marketId payoutNumerators invalid payoutID :
  payout_matches marketId payoutNumerators invalid
    (Payouts.mk payoutID marketId payoutNumerators invalid) = true.
Proof.
  unfold payout_matches. simpl.
  rewrite String.eqb_refl, numerators_eqb_refl, Bool.eqb_reflx. reflexivity.
Qed.

(** ** What each processor comes to *)

(** Running the statements of a processor: the monad and the knex
    primitives are unfolded, the processors they call are not. *)
Ltac statements :=
  cbv [bind ret throw asCallback knex_update knex_insert knex_del knex_first
       knex_select emit detach log_effect modify_store read_store].

(** Reducing the projections of a world or a store that was just built. *)
Ltac project :=
  cbn [store journal detached orders orders_canceled initial_reports markets
       completeSets crowdsourcers disputes payouts].

Lemma processOrderCanceledLog_run db augur log w :
  processOrderCanceledLog db augur log w =
  let s := store w in
  let orderId := OrderCanceled.orderId (inputs log) in
  let where_ := fun r => String.eqb (Orders.orderId r) orderId in
  let orders' := map (fun r => if where_ r then Orders.set_orderState CANCELED r else r)
                     (orders s) in
  let label := if String.eqb (OrderCanceled.orderType (inputs log)) "0"
               then "buy" else "sell" in
  Resolved tt (mkWorld
    (mkStore orders'
       (orders_canceled s ++
          [OrdersCanceled.mk orderId (transactionHash log) (logIndex log) (blockNumber log)])
       (initial_reports s) (markets s) (completeSets s) (crowdsourcers s)
       (disputes s) (payouts s))
    (journal w ++ [Ran db UPDATE "orders"; Ran db INSERT "orders_canceled";
                   Ran db SELECT "orders";
                   Emit "OrderCanceled"
                     (Object_assign (log_object log)
                        (option_map (fun r => obj_set "orderType" (VStr label)
                                                (MarketIDAndOutcomeAndPrice r))
                                    (find where_ orders')))])
    (detached w)).
Proof.
  unfold processOrderCanceledLog. statements. simpl.
  repeat rewrite <- app_assoc. reflexivity.
Qed.

Lemma processOrderCanceledLogRemoval_run db augur log w :
  processOrderCanceledLogRemoval db augur log w =
  let s := store w in
  let orderId := OrderCanceled.orderId (inputs log) in
  let where_ := fun r => String.eqb (Orders.orderId r) orderId in
  let orders' := map (fun r => if where_ r then Orders.set_orderState OPEN r else r)
                     (orders s) in
  let label := if String.eqb (OrderCanceled.orderType (inputs log)) "0"
               then "buy" else "sell" in
  Resolved tt (mkWorld
    (mkStore orders'
       (filter (fun r => negb (String.eqb (OrdersCanceled.orderId r) orderId))
               (orders_canceled s))
       (initial_reports s) (markets s) (completeSets s) (crowdsourcers s)
       (disputes s) (payouts s))
    (journal w ++ [Ran db UPDATE "orders"; Ran db DELETE "orders_canceled";
                   Ran db SELECT "orders";
                   Emit "OrderCanceled"
                     (Object_assign (log_object log)
                        (option_map (fun r => obj_set "orderType" (VStr label)
                                                (MarketIDAndOutcomeAndPrice r))
                                    (find where_ orders')))])
    (detached w)).
Proof.
  unfold processOrderCanceledLogRemoval. statements. simpl.
  repeat rewrite <- app_assoc. reflexivity.
Qed.

Lemma processInitialReporterRedeemedLog_run db augur log w :
  processInitialReporterRedeemedLog db augur log w =
  let s := store w in
  Resolved tt (mkWorld
    (mkStore (orders s) (orders_canceled s)
       (map (fun r => if String.eqb (InitialReports.marketId r)
                           (InitialReporterRedeemed.market (inputs log))
                      then InitialReports.set_redeemed true r else r)
            (initial_reports s))
       (markets s) (completeSets s) (crowdsourcers s) (disputes s) (payouts s))
    (journal w ++ [Ran db UPDATE "initial_reports";
                   Emit "InitialReporterRedeemed" (log_object log)])
    (detached w)).
Proof.
  unfold processInitialReporterRedeemedLog. statements. simpl.
  repeat rewrite <- app_assoc. reflexivity.
Qed.

Lemma processInitialReporterRedeemedLogRemoval_run db augur log w :
  processInitialReporterRedeemedLogRemoval db augur log w =
  let s := store w in
  Resolved tt (mkWorld
    (mkStore (orders s) (orders_canceled s)
       (map (fun r => if String.eqb (InitialReports.marketId r)
                           (InitialReporterRedeemed.market (inputs log))
                      then InitialReports.set_redeemed false r else r)
            (initial_reports s))
       (markets s) (completeSets s) (crowdsourcers s) (disputes s) (payouts s))
    (journal w ++ [Ran db UPDATE "initial_reports";
                   Emit "InitialReporterRedeemed" (log_object log)])
    (detached w)).
Proof.
  unfold processInitialReporterRedeemedLogRemoval. statements. simpl.
  repeat rewrite <- app_assoc. reflexivity.
Qed.

Lemma updateOpenInterest_run db marketId w :
  updateOpenInterest db marketId w =
  Resolved tt (mkWorld (recomputed marketId (store w))
                 (journal w ++ [Ran db SELECT "completeSets"; Ran db UPDATE "markets"])
                 (detached w)).
Proof.
  unfold updateOpenInterest. statements. simpl.
  repeat rewrite <- app_assoc. reflexivity.
Qed.

Lemma processCompleteSetsPurchasedOrSoldLog_found db augur log w m :
  find (market_is (CompleteSetsPurchasedOrSold.market (inputs log))) (markets (store w))
    = Some m ->
  processCompleteSetsPurchasedOrSoldLog db augur log w =
  let s := store w in
  Resolved tt (mkWorld
    (mkStore (orders s) (orders_canceled s) (initial_reports s) (markets s)
       (completeSets s ++ [fill_of augur log m])
       (crowdsourcers s) (disputes s) (payouts s))
    (journal w ++ [Ran db SELECT "markets"; Ran db INSERT "completeSets";
                   Emit (eventName log) (CompleteSets.object (fill_of augur log m))])
    (detached w ++
       [TaskUpdateOpenInterest db (CompleteSetsPurchasedOrSold.market (inputs log))])).
Proof.
  intros Hm.
  unfold processCompleteSetsPurchasedOrSoldLog. statements. simpl.
  unfold market_is in Hm. rewrite Hm. simpl.
  repeat rewrite <- app_assoc. reflexivity.
Qed.

Lemma processCompleteSetsPurchasedOrSoldLog_missing db augur log w :
  find (market_is (CompleteSetsPurchasedOrSold.market (inputs log))) (markets (store w))
    = None ->
  processCompleteSetsPurchasedOrSoldLog db augur log w =
  Rejected (new_Error "market min price, max price, category, and/or num ticks not found")
    (mkWorld (store w) (journal w ++ [Ran db SELECT "markets"]) (detached w)).
Proof.
  intros Hm.
  unfold processCompleteSetsPurchasedOrSoldLog. statements. simpl.
  unfold market_is in Hm. rewrite Hm. reflexivity.
Qed.

Lemma processCompleteSetsPurchasedOrSoldLogRemoval_run db augur log w :
  processCompleteSetsPurchasedOrSoldLogRemoval db augur log w =
  let s := store w in
  Resolved tt (mkWorld
    (recomputed (CompleteSetsPurchasedOrSold.market (inputs log))
       (mkStore (orders s) (orders_canceled s) (initial_reports s) (markets s)
          (filter (fun r => negb (fill_of_log log r)) (completeSets s))
          (crowdsourcers s) (disputes s) (payouts s)))
    (journal w ++ [Ran db DELETE "completeSets"; Emit (eventName log) (log_object log);
                   Ran db SELECT "completeSets"; Ran db UPDATE "markets"])
    (detached w)).
Proof.
  unfold processCompleteSetsPurchasedOrSoldLogRemoval. statements.
  rewrite updateOpenInterest_run. simpl.
  repeat rewrite <- app_assoc. reflexivity.
Qed.

Lemma insertPayout_found db trx marketId payoutNumerators invalid w p :
  find (payout_matches marketId payoutNumerators invalid) (payouts (store w)) = Some p ->
  insertPayout db trx marketId payoutNumerators invalid w =
  Resolved (Payouts.payoutID p)
    (mkWorld (store w) (journal w ++ [Ran (InTransaction trx) SELECT "payouts"])
       (detached w)).
Proof.
  intros Hp. unfold insertPayout. statements. simpl.
  rewrite Hp. reflexivity.
Qed.

Lemma insertPayout_created db trx marketId payoutNumerators invalid w :
  find (payout_matches marketId payoutNumerators invalid) (payouts (store w)) = None ->
  insertPayout db trx marketId payoutNumerators invalid w =
  let s := store w in
  Resolved (next_payoutID s)
    (mkWorld
       (mkStore (orders s) (orders_canceled s) (initial_reports s) (markets s)
          (completeSets s) (crowdsourcers s) (disputes s)
          (payouts s ++ [Payouts.mk (next_payoutID s) marketId payoutNumerators invalid]))
       (journal w ++ [Ran (InTransaction trx) SELECT "payouts";
                      Ran (InTransaction trx) INSERT "payouts"])
       (detached w)).
Proof.
  intros Hp.
  unfold insertPayout. statements. simpl.
  rewrite Hp. simpl. repeat rewrite <- app_assoc. reflexivity.
Qed.

Lemma processDisputeCrowdsourcerCreatedLog_found db augur trx log w p :
  find (payout_of_log log) (payouts (store w)) = Some p ->
  processDisputeCrowdsourcerCreatedLog db augur trx log w =
  let s := store w in
  Resolved tt (mkWorld
    (mkStore (orders s) (orders_canceled s) (initial_reports s) (markets s)
       (completeSets s)
       (crowdsourcers s ++ [crowdsourcer_of log (Some (Payouts.payoutID p))])
       (disputes s) (payouts s))
    (journal w ++ [Ran (InTransaction trx) SELECT "payouts";
                   Ran (InTransaction trx) INSERT "crowdsourcers";
                   Emit "DisputeCrowdsourcerCreated" (log_object log)])
    (detached w)).
Proof.
  intros Hp. unfold processDisputeCrowdsourcerCreatedLog. statements.
  unfold payout_of_log in Hp.
  rewrite (insertPayout_found _ _ _ _ _ _ _ Hp).
  statements. simpl.
  repeat rewrite <- app_assoc. reflexivity.
Qed.

Lemma processDisputeCrowdsourcerCreatedLog_created db augur trx log w :
  find (payout_of_log log) (payouts (store w)) = None ->
  processDisputeCrowdsourcerCreatedLog db augur trx log w =
  let s := store w in
  Resolved tt (mkWorld
    (mkStore (orders s) (orders_canceled s) (initial_reports s) (markets s)
       (completeSets s)
       (crowdsourcers s ++ [crowdsourcer_of log (Some (next_payoutID s))])
       (disputes s)
       (payouts s ++ [Payouts.mk (next_payoutID s)
                        (DisputeCrowdsourcerCreated.market (inputs log))
                        (DisputeCrowdsourcerCreated.payoutNumerators (inputs log))
                        (DisputeCrowdsourcerCreated.invalid (inputs log))]))
    (journal w ++ [Ran (InTransaction trx) SELECT "payouts";
                   Ran (InTransaction trx) INSERT "payouts";
                   Ran (InTransaction trx) INSERT "crowdsourcers";
                   Emit "DisputeCrowdsourcerCreated" (log_object log)])
    (detached w)).
Proof.
  intros Hp. unfold processDisputeCrowdsourcerCreatedLog. statements.
  unfold payout_of_log in Hp.
  rewrite (insertPayout_created _ _ _ _ _ _ Hp).
  statements. simpl.
  repeat rewrite <- app_assoc. reflexivity.
Qed.

Lemma processDisputeCrowdsourcerCreatedLogRemoval_run db augur trx log w :
  processDisputeCrowdsourcerCreatedLogRemoval db augur trx log w =
  let s := store w in
  Resolved tt (mkWorld
    (mkStore (orders s) (orders_canceled s) (initial_reports s) (markets s)
       (completeSets s)
       (filter (fun c => negb (String.eqb (Crowdsourcers.crowdsourcerID c)
                  (DisputeCrowdsourcerCreated.disputeCrowdsourcer (inputs log))))
               (crowdsourcers s))
       (disputes s) (payouts s))
    (journal w ++ [Ran (InTransaction trx) DELETE "crowdsourcers";
                   Emit "DisputeCrowdsourcerCreated" (log_object log)])
    (detached w)).
Proof.
  unfold processDisputeCrowdsourcerCreatedLogRemoval. statements. simpl.
  repeat rewrite <- app_assoc. reflexivity.
Qed.

Lemma processDisputeCrowdsourcerContributionLog_run db augur trx log w :
  processDisputeCrowdsourcerContributionLog db augur trx log w =
  let s := store w in
  Resolved tt (mkWorld
    (mkStore (orders s) (orders_canceled s) (initial_reports s) (markets s)
       (completeSets s) (crowdsourcers s) (disputes s ++ [dispute_of log]) (payouts s))
    (journal w ++ [Ran (InTransaction trx) INSERT "disputes";
                   Emit "DisputeCrowdsourcerContribution" (log_object log)])
    (detached w)).
Proof.
  unfold processDisputeCrowdsourcerContributionLog. statements. simpl.
  repeat rewrite <- app_assoc. reflexivity.
Qed.

Lemma processDisputeCrowdsourcerContributionLogRemoval_run db augur trx log w :
  processDisputeCrowdsourcerContributionLogRemoval db augur trx log w =
  let s := store w in
  Resolved tt (mkWorld
    (mkStore (orders s) (orders_canceled s) (initial_reports s) (markets s)
       (completeSets s) (crowdsourcers s)
       (filter (fun d => negb (dispute_of_log log d)) (disputes s)) (payouts s))
    (journal w ++ [Ran (InTransaction trx) DELETE "disputes";
                   Emit "DisputeCrowdsourcerContribution" (log_object log)])
    (detached w)).
Proof.
  unfold processDisputeCrowdsourcerContributionLogRemoval. statements. simpl.
  repeat rewrite <- app_assoc. reflexivity.
Qed.

Lemma processDisputeCrowdsourcerCompletedLog_run db augur trx log w :
  processDisputeCrowdsourcerCompletedLog db augur trx log w =
  let s := store w in
  Resolved tt (mkWorld
    (mkStore (orders s) (orders_canceled s) (initial_reports s) (markets s)
       (completeSets s)
       (map (fun c => if crowdsourcer_is
                           (DisputeCrowdsourcerCompleted.disputeCrowdsourcer (inputs log)) c
                      then Crowdsourcers.set_completed 1 c else c) (crowdsourcers s))
       (disputes s) (payouts s))
    (journal w ++ [Ran (InTransaction trx) UPDATE "crowdsourcers";
                   Emit "DisputeCrowdsourcerCompleted" (log_object log)])
    (detached w)).
Proof.
  unfold processDisputeCrowdsourcerCompletedLog. statements. simpl.
  repeat rewrite <- app_assoc. reflexivity.
Qed.

Lemma processDisputeCrowdsourcerCompletedLogRemoval_run db augur trx log w :
  processDisputeCrowdsourcerCompletedLogRemoval db augur trx log w =
  let s := store w in
  Resolved tt (mkWorld
    (mkStore (orders s) (orders_canceled s) (initial_reports s) (markets s)
       (completeSets s)
       (map (fun c => if crowdsourcer_is
                           (DisputeCrowdsourcerCompleted.disputeCrowdsourcer (inputs log)) c
                      then Crowdsourcers.set_completed 0 c else c) (crowdsourcers s))
       (disputes s) (payouts s))
    (journal w ++ [Ran (InTransaction trx) UPDATE "crowdsourcers";
                   Emit "DisputeCrowdsourcerCompleted" (log_object log)])
    (detached w)).
Proof.
  unfold processDisputeCrowdsourcerCompletedLogRemoval. statements. simpl.
  repeat rewrite <- app_assoc. reflexivity.
Qed.

(** ** The processors on a database with constraints *)

Lemma constrained_insert_accepted {R} db (t : Table R) c r w :
  c (rows t (store w)) r = None ->
  Constrained.knex_insert db t c r w = knex_insert db t r w.
Proof.
  intros H. unfold Constrained.knex_insert, knex_insert. statements. simpl.
  rewrite H. reflexivity.
Qed.

Lemma constrained_insert_refused {R} db (t : Table R) c r w err :
  c (rows t (store w)) r = Some err ->
  Constrained.knex_insert db t c r w
  = Rejected err (mkWorld (store w) (journal w ++ [Ran db INSERT (table_name t)])
                    (detached w)).
Proof.
  intros H. unfold Constrained.knex_insert. statements. simpl.
  rewrite H. reflexivity.
Qed.

Lemma constrained_processOrderCanceledLog_accepted schema db augur log w :
  orders_canceled_c schema (orders_canceled (store w)) (cancellation_record log) = None ->
  Constrained.processOrderCanceledLog schema db augur log w
  = processOrderCanceledLog db augur log w.
Proof.
  intros H. unfold Constrained.processOrderCanceledLog, processOrderCanceledLog,
    Constrained.knex_insert. statements. simpl.
  unfold cancellation_record in H. rewrite H. reflexivity.
Qed.

Lemma constrained_processOrderCanceledLog_refused schema db augur log w err :
  orders_canceled_c schema (orders_canceled (store w)) (cancellation_record log) = Some err ->
  Constrained.processOrderCanceledLog schema db augur log w
  = Rejected err
      (mkWorld (written_before_own_insert schema (OrderCanceledLog log) (store w))
         (journal w ++ [Ran db UPDATE "orders"; Ran db INSERT "orders_canceled"])
         (detached w)).
Proof.
  intros H. unfold Constrained.processOrderCanceledLog, Constrained.knex_insert.
  statements. simpl. unfold cancellation_record in H. rewrite H.
  rewrite <- app_assoc. reflexivity.
Qed.

Lemma constrained_processCompleteSetsPurchasedOrSoldLog_missing schema db augur log w :
  find (market_is (CompleteSetsPurchasedOrSold.market (inputs log))) (markets (store w))
    = None ->
  Constrained.processCompleteSetsPurchasedOrSoldLog schema db augur log w
  = processCompleteSetsPurchasedOrSoldLog db augur log w.
Proof.
  intros Hm. unfold Constrained.processCompleteSetsPurchasedOrSoldLog,
    processCompleteSetsPurchasedOrSoldLog. statements. simpl.
  unfold market_is in Hm. rewrite Hm. reflexivity.
Qed.

Lemma constrained_processCompleteSetsPurchasedOrSoldLog_accepted schema db augur log w m :
  find (market_is (CompleteSetsPurchasedOrSold.market (inputs log))) (markets (store w))
    = Some m ->
  completeSets_c schema (completeSets (store w)) (fill_of augur log m) = None ->
  Constrained.processCompleteSetsPurchasedOrSoldLog schema db augur log w
  = processCompleteSetsPurchasedOrSoldLog db augur log w.
Proof.
  intros Hm H. unfold Constrained.processCompleteSetsPurchasedOrSoldLog,
    processCompleteSetsPurchasedOrSoldLog, Constrained.knex_insert. statements. simpl.
  unfold market_is in Hm. rewrite Hm. simpl.
  unfold fill_of in H. rewrite H. reflexivity.
Qed.

Lemma constrained_processCompleteSetsPurchasedOrSoldLog_refused schema db augur log w m err :
  find (market_is (CompleteSetsPurchasedOrSold.market (inputs log))) (markets (store w))
    = Some m ->
  completeSets_c schema (completeSets (store w)) (fill_of augur log m) = Some err ->
  Constrained.processCompleteSetsPurchasedOrSoldLog schema db augur log w
  = Rejected err
      (mkWorld (store w)
         (journal w ++ [Ran db SELECT "markets"; Ran db INSERT "completeSets"])
         (detached w)).
Proof.
  intros Hm H. unfold Constrained.processCompleteSetsPurchasedOrSoldLog,
    Constrained.knex_insert. statements. simpl.
  unfold market_is in Hm. rewrite Hm. simpl.
  unfold fill_of in H. rewrite H. rewrite <- app_assoc. reflexivity.
Qed.

Lemma constrained_processDisputeCrowdsourcerContributionLog_accepted
    schema db augur trx log w :
  disputes_c schema (disputes (store w)) (dispute_of log) = None ->
  Constrained.processDisputeCrowdsourcerContributionLog schema db augur trx log w
  = processDisputeCrowdsourcerContributionLog db augur trx log w.
Proof.
  intros H. unfold Constrained.processDisputeCrowdsourcerContributionLog,
    processDisputeCrowdsourcerContributionLog, Constrained.knex_insert.
  statements. simpl. unfold dispute_of in H. rewrite H. reflexivity.
Qed.

Lemma constrained_processDisputeCrowdsourcerContributionLog_refused
    schema db augur trx log w err :
  disputes_c schema (disputes (store w)) (dispute_of log) = Some err ->
  Constrained.processDisputeCrowdsourcerContributionLog schema db augur trx log w
  = Rejected err
      (mkWorld (store w) (journal w ++ [Ran (InTransaction trx) INSERT "disputes"])
         (detached w)).
Proof.
  intros H. unfold Constrained.processDisputeCrowdsourcerContributionLog,
    Constrained.knex_insert. statements. simpl.
  unfold dispute_of in H. rewrite H. reflexivity.
Qed.

(** The statements [insertPayout] runs: the lookup, and the insert when the
    lookup finds nothing. *)
Lemma constrained_processDisputeCrowdsourcerCreatedLog_run schema db augur trx log w :
  Constrained.processDisputeCrowdsourcerCreatedLog schema db augur trx log w
  = let s := written_before_own_insert schema (DisputeCrowdsourcerCreatedLog log) (store w) in
    let row := crowdsourcer_of log (payoutID_of_creation schema log (store w)) in
    let j := journal w
             ++ Ran (InTransaction trx) SELECT "payouts"
                :: match find (payout_of_log log) (payouts (store w)) with
                   | Some _ => []
                   | None => [Ran (InTransaction trx) INSERT "payouts"]
                   end in
    match crowdsourcers_c schema (crowdsourcers (store w)) row with
    | Some err =>
        Rejected err
          (mkWorld s (j ++ [Ran (InTransaction trx) INSERT "crowdsourcers"]) (detached w))
    | None =>
        Resolved tt
          (mkWorld (with_rows crowdsourcers_t (crowdsourcers (store w) ++ [row]) s)
             (j ++ [Ran (InTransaction trx) INSERT "crowdsourcers";
                    Emit "DisputeCrowdsourcerCreated" (log_object log)])
             (detached w))
    end.
Proof.
  unfold Constrained.processDisputeCrowdsourcerCreatedLog, Constrained.insertPayout,
    Constrained.knex_insert, payoutID_of_creation, written_before_own_insert,
    crowdsourcer_of, payout_of_log.
  statements. simpl.
  destruct (find _ (payouts (store w))) as [p|]; simpl.
  - destruct (crowdsourcers_c schema _ _); simpl;
      repeat rewrite <- app_assoc; reflexivity.
  - destruct (payouts_c schema _ _); simpl;
      destruct (crowdsourcers_c schema _ _); simpl;
      repeat rewrite <- app_assoc; reflexivity.
Qed.

(** On a database that refuses nothing the processors are the ones above. *)
Lemma constrained_apply_unconstrained db augur trx e w :
  Constrained.apply unconstrained db augur trx e w = apply db augur trx e w.
Proof. destruct e as [log|log|log|log|log|log]; reflexivity. Qed.

(** The statements a processor ran publish nothing. *)
Ltac no_emit :=
  rewrite ?emitted_app; cbn [emitted flat_map app]; rewrite ?app_nil_r; reflexivity.

(** What a Forward processor comes to on a database with constraints: the
    error for the missing market, the error its own insert is refused with,
    or success. *)
Lemma constrained_apply_run schema db augur trx e w :
  if market_missing e (store w)
  then exists w' err,
         Constrained.apply schema db augur trx e w = Rejected err w'
         /\ err = new_Error "market min price, max price, category, and/or num ticks not found"
         /\ store w' = store w
         /\ emitted (journal w') = emitted (journal w)
         /\ detached w' = detached w
  else
    match own_insert_refused schema augur e (store w) with
    | Some err =>
        exists w',
          Constrained.apply schema db augur trx e w = Rejected err w'
          /\ store w' = written_before_own_insert schema e (store w)
          /\ emitted (journal w') = emitted (journal w)
          /\ detached w' = detached w
    | None => exists w', Constrained.apply schema db augur trx e w = Resolved tt w'
    end.
Proof.
  destruct e as [log|log|log|log|log|log];
    cbn [market_missing own_insert_refused Constrained.apply].
  - destruct (orders_canceled_c schema (orders_canceled (store w)) (cancellation_record log))
      as [err|] eqn:H.
    + rewrite (constrained_processOrderCanceledLog_refused _ _ _ _ _ _ H).
      eexists. split; [reflexivity|]. project.
      split; [reflexivity|]. split; [no_emit | reflexivity].
    + rewrite (constrained_processOrderCanceledLog_accepted _ _ _ _ _ H).
      rewrite processOrderCanceledLog_run. eexists; reflexivity.
  - rewrite processInitialReporterRedeemedLog_run. eexists; reflexivity.
  - destruct (find (market_is (CompleteSetsPurchasedOrSold.market (inputs log)))
                (markets (store w))) as [m|] eqn:Hm.
    + destruct (completeSets_c schema (completeSets (store w)) (fill_of augur log m))
        as [err|] eqn:H.
      * rewrite (constrained_processCompleteSetsPurchasedOrSoldLog_refused
                   _ _ _ _ _ _ _ Hm H).
        eexists. split; [reflexivity|]. project.
        split; [reflexivity|]. split; [no_emit | reflexivity].
      * rewrite (constrained_processCompleteSetsPurchasedOrSoldLog_accepted
                   _ _ _ _ _ _ Hm H).
        rewrite (processCompleteSetsPurchasedOrSoldLog_found _ _ _ _ _ Hm).
        eexists; reflexivity.
    + rewrite (constrained_processCompleteSetsPurchasedOrSoldLog_missing _ _ _ _ _ Hm).
      rewrite (processCompleteSetsPurchasedOrSoldLog_missing _ _ _ _ Hm).
      do 2 eexists. split; [reflexivity|]. project.
      split; [reflexivity|]. split; [reflexivity|]. split; [no_emit | reflexivity].
  - rewrite constrained_processDisputeCrowdsourcerCreatedLog_run. cbv zeta.
    destruct (crowdsourcers_c schema (crowdsourcers (store w))
                (crowdsourcer_of log (payoutID_of_creation schema log (store w))))
      as [err|].
    + eexists. split; [reflexivity|]. project. split; [reflexivity|].
      split; [|reflexivity].
      destruct (find (payout_of_log log) (payouts (store w))); no_emit.
    + eexists; reflexivity.
  - destruct (disputes_c schema (disputes (store w)) (dispute_of log)) as [err|] eqn:H.
    + rewrite (constrained_processDisputeCrowdsourcerContributionLog_refused
                 _ _ _ _ _ _ _ H).
      eexists. split; [reflexivity|]. project.
      split; [reflexivity|]. split; [no_emit | reflexivity].
    + rewrite (constrained_processDisputeCrowdsourcerContributionLog_accepted
                 _ _ _ _ _ _ H).
      rewrite processDisputeCrowdsourcerContributionLog_run. eexists; reflexivity.
  - rewrite processDisputeCrowdsourcerCompletedLog_run. eexists; reflexivity.
Qed.

Lemma payout_found_again log (l : list Payouts.row) payoutID :
  (forall p, In p l -> payout_of_log log p = false) ->
  find (payout_of_log log)
    (l ++ [Payouts.mk payoutID (DisputeCrowdsourcerCreated.market (inputs log))
             (DisputeCrowdsourcerCreated.payoutNumerators (inputs log))
             (DisputeCrowdsourcerCreated.invalid (inputs log))])
  = Some (Payouts.mk payoutID (DisputeCrowdsourcerCreated.market (inputs log))
            (DisputeCrowdsourcerCreated.payoutNumerators (inputs log))
            (DisputeCrowdsourcerCreated.invalid (inputs log))).
Proof.
  intros Hnone. apply find_inserted; [exact Hnone|].
  unfold payout_of_log. apply payout_matches_own.
Qed.

(** A creation log that was applied has its payout settled: applying it
    again writes no payout row and is handed the same payoutID. *)
Lemma creation_settles_the_payout schema log s :
  let s1 := written_before_own_insert schema (DisputeCrowdsourcerCreatedLog log) s in
  forall crowdsourcers',
    let s1' := with_rows crowdsourcers_t crowdsourcers' s1 in
    written_before_own_insert schema (DisputeCrowdsourcerCreatedLog log) s1' = s1'
    /\ payoutID_of_creation schema log s1' = payoutID_of_creation schema log s.
Proof.
  cbv zeta. intros crowdsourcers'.
  unfold written_before_own_insert, payoutID_of_creation.
  destruct (find (payout_of_log log) (payouts s)) as [p|] eqn:Hfind.
  - cbn [with_rows crowdsourcers_t payouts]. rewrite Hfind. split; reflexivity.
  - destruct (payouts_c schema (payouts s) _) as [err|] eqn:Hc.
    + cbn [with_rows crowdsourcers_t payouts]. rewrite Hfind.
      unfold next_payoutID. cbn [payouts]. unfold next_payoutID in Hc. rewrite Hc.
      split; reflexivity.
    + cbn [with_rows crowdsourcers_t payouts_t payouts].
      rewrite payout_found_again by (apply find_none; exact Hfind).
      split; reflexivity.
Qed.

(** ** Settling detached promises *)

Lemma settle_nothing w :
  detached w = [] -> settle w = w.
Proof.
  intros H. unfold settle. rewrite H. simpl. destruct w; simpl in *; subst; reflexivity.
Qed.

Lemma settle_updateOpenInterest s j db marketId :
  settle (mkWorld s j [TaskUpdateOpenInterest db marketId])
  = mkWorld (recomputed marketId s)
            (j ++ [Ran db SELECT "completeSets"; Ran db UPDATE "markets"]) [].
Proof.
  unfold settle. cbn [detached store journal fold_left run_task].
  rewrite updateOpenInterest_run. reflexivity.
Qed.

Lemma set_openInterest_same m :
  Markets.set_openInterest (Markets.openInterest m) m = m.
Proof. destruct m; reflexivity. Qed.

Lemma recomputed_consistent marketId s :
  aggregate_consistent marketId s -> recomputed marketId s = s.
Proof.
  intros H. unfold recomputed.
  rewrite (update_nothing (market_is marketId)).
  - apply store_eta.
  - intros m Hin Hm. rewrite <- (H m Hin Hm). apply set_openInterest_same.
Qed.

Lemma recomputed_is_consistent marketId s :
  aggregate_consistent marketId (recomputed marketId s).
Proof.
  intros m Hin Hm. unfold recomputed in *. project. cbn [markets completeSets] in Hin.
  apply in_map_iff in Hin. destruct Hin as [m0 [Hm0 _]].
  destruct (market_is marketId m0) eqn:E.
  - subst m. reflexivity.
  - subst m. congruence.
Qed.

Lemma find_present {R} (f : R -> bool) (l : list R) (x : R) :
  In x l -> f x = true -> exists y, find f l = Some y /\ f y = true.
Proof.
  intros Hin Hx. destruct (find f l) as [y|] eqn:E.
  - exists y. split; [reflexivity|]. apply (find_some _ _ E).
  - rewrite (find_none _ _ E x Hin) in Hx. discriminate.
Qed.

Lemma fill_of_log_fill_of augur log m :
  fill_of_log log (fill_of augur log m) = true.
Proof.
  unfold fill_of_log, fill_of. simpl. rewrite String.eqb_refl, Z.eqb_refl. reflexivity.
Qed.

Lemma dispute_of_log_dispute_of log :
  dispute_of_log log (dispute_of log) = true.
Proof.
  unfold dispute_of_log, dispute_of. simpl. rewrite String.eqb_refl, Z.eqb_refl. reflexivity.
Qed.

(** ** Forward, then Removal *)

Lemma set_orderState_undo r :
  Orders.orderState r = OPEN ->
  Orders.set_orderState OPEN (Orders.set_orderState CANCELED r) = r.
Proof. destruct r; simpl; intros ->; reflexivity. Qed.

Lemma set_redeemed_undo r :
  InitialReports.redeemed r = false ->
  InitialReports.set_redeemed false (InitialReports.set_redeemed true r) = r.
Proof. destruct r; simpl; intros ->; reflexivity. Qed.

Lemma set_completed_undo c :
  Crowdsourcers.completed c = Some 0%Z ->
  Crowdsourcers.set_completed 0 (Crowdsourcers.set_completed 1 c) = c.
Proof. destruct c; simpl; intros ->; reflexivity. Qed.

Lemma order_canceled_restores db augur log w :
  forward_ready (OrderCanceledLog log) (store w) ->
  restores (processOrderCanceledLog db augur log)
           (processOrderCanceledLogRemoval db augur log) w.
Proof.
  intros [Hopen Hnone]. unfold restores.
  rewrite processOrderCanceledLog_run. cbv zeta.
  eexists. eexists. split; [reflexivity|]. split; [reflexivity|].
  rewrite processOrderCanceledLogRemoval_run. cbv zeta. project.
  split; [reflexivity|]. split; [reflexivity|].
  rewrite (update_then_undo (order_is (OrderCanceled.orderId (inputs log)))).
  - rewrite (insert_then_delete (cancellation_of (OrderCanceled.orderId (inputs log)))).
    + apply store_eta.
    + exact Hnone.
    + unfold cancellation_of. simpl. apply String.eqb_refl.
  - intros r. destruct r; reflexivity.
  - intros r Hin Hr. apply set_orderState_undo. apply Hopen; assumption.
Qed.

Lemma initial_reporter_redeemed_restores db augur log w :
  forward_ready (InitialReporterRedeemedLog log) (store w) ->
  restores (processInitialReporterRedeemedLog db augur log)
           (processInitialReporterRedeemedLogRemoval db augur log) w.
Proof.
  intros Hdown. unfold restores.
  rewrite processInitialReporterRedeemedLog_run. cbv zeta.
  eexists. eexists. split; [reflexivity|]. split; [reflexivity|].
  rewrite processInitialReporterRedeemedLogRemoval_run. cbv zeta. project.
  split; [reflexivity|]. split; [reflexivity|].
  rewrite (update_then_undo (report_of (InitialReporterRedeemed.market (inputs log)))).
  - apply store_eta.
  - intros r. destruct r; reflexivity.
  - intros r Hin Hr. apply set_redeemed_undo. apply Hdown; assumption.
Qed.

Lemma crowdsourcer_created_restores db augur trx log w :
  forward_ready (DisputeCrowdsourcerCreatedLog log) (store w) ->
  restores (processDisputeCrowdsourcerCreatedLog db augur trx log)
           (processDisputeCrowdsourcerCreatedLogRemoval db augur trx log) w.
Proof.
  intros [Hnone [p [Hin Hp]]]. unfold restores.
  destruct (find_present _ _ _ Hin Hp) as [p' [Hfind _]].
  rewrite (processDisputeCrowdsourcerCreatedLog_found _ _ _ _ _ _ Hfind). cbv zeta.
  eexists. eexists. split; [reflexivity|]. split; [reflexivity|].
  rewrite processDisputeCrowdsourcerCreatedLogRemoval_run. cbv zeta. project.
  split; [reflexivity|]. split; [reflexivity|].
  rewrite (insert_then_delete
             (crowdsourcer_is (DisputeCrowdsourcerCreated.disputeCrowdsourcer (inputs log)))).
  - apply store_eta.
  - exact Hnone.
  - unfold crowdsourcer_is, crowdsourcer_of. simpl. apply String.eqb_refl.
Qed.

Lemma crowdsourcer_contribution_restores db augur trx log w :
  forward_ready (DisputeCrowdsourcerContributionLog log) (store w) ->
  restores (processDisputeCrowdsourcerContributionLog db augur trx log)
           (processDisputeCrowdsourcerContributionLogRemoval db augur trx log) w.
Proof.
  intros Hnone. unfold restores.
  rewrite processDisputeCrowdsourcerContributionLog_run. cbv zeta.
  eexists. eexists. split; [reflexivity|]. split; [reflexivity|].
  rewrite processDisputeCrowdsourcerContributionLogRemoval_run. cbv zeta. project.
  split; [reflexivity|]. split; [reflexivity|].
  rewrite (insert_then_delete (dispute_of_log log)).
  - apply store_eta.
  - exact Hnone.
  - apply dispute_of_log_dispute_of.
Qed.

Lemma crowdsourcer_completed_restores db augur trx log w :
  forward_ready (DisputeCrowdsourcerCompletedLog log) (store w) ->
  restores (processDisputeCrowdsourcerCompletedLog db augur trx log)
           (processDisputeCrowdsourcerCompletedLogRemoval db augur trx log) w.
Proof.
  intros Hzero. unfold restores.
  rewrite processDisputeCrowdsourcerCompletedLog_run. cbv zeta.
  eexists. eexists. split; [reflexivity|]. split; [reflexivity|].
  rewrite processDisputeCrowdsourcerCompletedLogRemoval_run. cbv zeta. project.
  split; [reflexivity|]. split; [reflexivity|].
  rewrite (update_then_undo
             (crowdsourcer_is (DisputeCrowdsourcerCompleted.disputeCrowdsourcer (inputs log)))).
  - apply store_eta.
  - intros c. destruct c; reflexivity.
  - intros c Hin Hc. apply set_completed_undo. apply Hzero; assumption.
Qed.

Lemma complete_sets_restores db augur log w :
  detached w = [] ->
  forward_ready (CompleteSetsPurchasedOrSoldLog log) (store w) ->
  exists w1 w2 w2',
    processCompleteSetsPurchasedOrSoldLog db augur log w = Resolved tt w1
    /\ processCompleteSetsPurchasedOrSoldLogRemoval db augur log w1 = Resolved tt w2
    /\ store (settle w2) = store w
    /\ processCompleteSetsPurchasedOrSoldLogRemoval db augur log (settle w1)
       = Resolved tt w2'
    /\ store (settle w2') = store w.
Proof.
  intros Hd [[m0 [Hin Hm0]] [Hnone Hagg]].
  destruct (find_present _ _ _ Hin Hm0) as [m [Hfind _]].
  rewrite (processCompleteSetsPurchasedOrSoldLog_found _ _ _ _ _ Hfind). cbv zeta.
  rewrite Hd. cbn [app].
  assert (Hdel : filter (fun r => negb (fill_of_log log r))
                   (completeSets (store w) ++ [fill_of augur log m])
                 = completeSets (store w)).
  { apply (insert_then_delete (fill_of_log log)); [exact Hnone|].
    apply fill_of_log_fill_of. }
  do 3 eexists. split; [reflexivity|].
  rewrite settle_updateOpenInterest.
  rewrite !processCompleteSetsPurchasedOrSoldLogRemoval_run. cbv zeta. project.
  rewrite settle_updateOpenInterest.
  unfold recomputed at 2 3. project. rewrite Hdel.
  split; [reflexivity|]. split; [|split; [reflexivity|]].
  - project. rewrite !store_eta.
    rewrite (recomputed_consistent _ _ Hagg). apply (recomputed_consistent _ _ Hagg).
  - rewrite settle_nothing by reflexivity. project.
    unfold recomputed. project. rewrite Hdel.
    rewrite (update_then_undo
               (market_is (CompleteSetsPurchasedOrSold.market (inputs log)))).
    + apply store_eta.
    + intros r. destruct r; reflexivity.
    + intros r Hr Hmr. rewrite <- (Hagg r Hr Hmr). destruct r; reflexivity.
Qed.

(** ** Forward, then Removal: when the store does not come back *)

Lemma order_canceled_ready db augur log w w1 w2 :
  processOrderCanceledLog db augur log w = Resolved tt w1 ->
  processOrderCanceledLogRemoval db augur log w1 = Resolved tt w2 ->
  store w2 = store w ->
  forward_ready (OrderCanceledLog log) (store w).
Proof.
  rewrite processOrderCanceledLog_run. cbv zeta. intros H1. injection H1 as <-.
  rewrite processOrderCanceledLogRemoval_run. cbv zeta. project.
  intros H2. injection H2 as <-. project. intros Hs.
  assert (Ho : orders (store w) = orders (store w)) by reflexivity.
  rewrite <- Hs in Ho at 1. cbn [orders] in Ho.
  assert (Hc : orders_canceled (store w) = orders_canceled (store w)) by reflexivity.
  rewrite <- Hs in Hc at 1. cbn [orders_canceled] in Hc.
  split.
  - intros r Hin Hr.
    rewrite (update_update (order_is (OrderCanceled.orderId (inputs log)))) in Ho
      by (intros r0; destruct r0; reflexivity).
    pose proof (update_fixed (order_is (OrderCanceled.orderId (inputs log))) _ _ Ho r Hin Hr)
      as Hfix.
    rewrite <- Hfix. reflexivity.
  - intros c Hin.
    refine (insert_then_delete_fixed (cancellation_of (OrderCanceled.orderId (inputs log)))
              (orders_canceled (store w)) (cancellation_record log) _ Hc c Hin).
    unfold cancellation_of, cancellation_record. simpl. apply String.eqb_refl.
Qed.

Lemma initial_reporter_redeemed_ready db augur log w w1 w2 :
  processInitialReporterRedeemedLog db augur log w = Resolved tt w1 ->
  processInitialReporterRedeemedLogRemoval db augur log w1 = Resolved tt w2 ->
  store w2 = store w ->
  forward_ready (InitialReporterRedeemedLog log) (store w).
Proof.
  rewrite processInitialReporterRedeemedLog_run. cbv zeta. intros H1. injection H1 as <-.
  rewrite processInitialReporterRedeemedLogRemoval_run. cbv zeta. project.
  intros H2. injection H2 as <-. project. intros Hs.
  apply (f_equal initial_reports) in Hs. cbn [initial_reports] in Hs.
  rewrite (update_update (report_of (InitialReporterRedeemed.market (inputs log)))) in Hs
    by (intros r0; destruct r0; reflexivity).
  intros r Hin Hr.
  rewrite <- (update_fixed (report_of (InitialReporterRedeemed.market (inputs log)))
                _ _ Hs r Hin Hr).
  reflexivity.
Qed.

Lemma crowdsourcer_completed_ready db augur trx log w w1 w2 :
  processDisputeCrowdsourcerCompletedLog db augur trx log w = Resolved tt w1 ->
  processDisputeCrowdsourcerCompletedLogRemoval db augur trx log w1 = Resolved tt w2 ->
  store w2 = store w ->
  forward_ready (DisputeCrowdsourcerCompletedLog log) (store w).
Proof.
  rewrite processDisputeCrowdsourcerCompletedLog_run. cbv zeta. intros H1.
  injection H1 as <-.
  rewrite processDisputeCrowdsourcerCompletedLogRemoval_run. cbv zeta. project.
  intros H2. injection H2 as <-. project. intros Hs.
  apply (f_equal crowdsourcers) in Hs. cbn [crowdsourcers] in Hs.
  rewrite (update_update
             (crowdsourcer_is (DisputeCrowdsourcerCompleted.disputeCrowdsourcer (inputs log))))
    in Hs by (intros r0; destruct r0; reflexivity).
  intros c Hin Hc.
  rewrite <- (update_fixed
                (crowdsourcer_is
                   (DisputeCrowdsourcerCompleted.disputeCrowdsourcer (inputs log)))
                _ _ Hs c Hin Hc).
  reflexivity.
Qed.

Lemma crowdsourcer_contribution_ready db augur trx log w w1 w2 :
  processDisputeCrowdsourcerContributionLog db augur trx log w = Resolved tt w1 ->
  processDisputeCrowdsourcerContributionLogRemoval db augur trx log w1 = Resolved tt w2 ->
  store w2 = store w ->
  forward_ready (DisputeCrowdsourcerContributionLog log) (store w).
Proof.
  rewrite processDisputeCrowdsourcerContributionLog_run. cbv zeta. intros H1.
  injection H1 as <-.
  rewrite processDisputeCrowdsourcerContributionLogRemoval_run. cbv zeta. project.
  intros H2. injection H2 as <-. project. intros Hs.
  apply (f_equal disputes) in Hs. cbn [disputes] in Hs.
  intros d Hin.
  exact (insert_then_delete_fixed (dispute_of_log log) _ _
           (dispute_of_log_dispute_of log) Hs d Hin).
Qed.

Lemma crowdsourcer_created_ready db augur trx log w w1 w2 :
  processDisputeCrowdsourcerCreatedLog db augur trx log w = Resolved tt w1 ->
  processDisputeCrowdsourcerCreatedLogRemoval db augur trx log w1 = Resolved tt w2 ->
  store w2 = store w ->
  forward_ready (DisputeCrowdsourcerCreatedLog log) (store w).
Proof.
  intros H1.
  assert (Hrow : forall payoutID,
            crowdsourcer_is (DisputeCrowdsourcerCreated.disputeCrowdsourcer (inputs log))
              (crowdsourcer_of log payoutID) = true).
  { intros payoutID. unfold crowdsourcer_is, crowdsourcer_of. simpl. apply String.eqb_refl. }
  destruct (find (payout_of_log log) (payouts (store w))) as [p|] eqn:Hfind.
  - rewrite (processDisputeCrowdsourcerCreatedLog_found _ _ _ _ _ _ Hfind) in H1.
    cbv zeta in H1. injection H1 as <-.
    rewrite processDisputeCrowdsourcerCreatedLogRemoval_run. cbv zeta. project.
    intros H2. injection H2 as <-. project. intros Hs.
    apply (f_equal crowdsourcers) in Hs. cbn [crowdsourcers] in Hs.
    split.
    + intros c Hin.
      exact (insert_then_delete_fixed
               (crowdsourcer_is (DisputeCrowdsourcerCreated.disputeCrowdsourcer (inputs log)))
               _ _ (Hrow _) Hs c Hin).
    + exists p. apply find_some in Hfind. exact Hfind.
  - rewrite (processDisputeCrowdsourcerCreatedLog_created _ _ _ _ _ Hfind) in H1.
    cbv zeta in H1. injection H1 as <-.
    rewrite processDisputeCrowdsourcerCreatedLogRemoval_run. cbv zeta. project.
    intros H2. injection H2 as <-. project. intros Hs.
    apply (f_equal payouts) in Hs. cbn [payouts] in Hs.
    apply (f_equal (@length _)) in Hs. rewrite length_app in Hs. simpl in Hs. lia.
Qed.

Lemma complete_sets_ready db augur log w w1 w2 :
  detached w = [] ->
  processCompleteSetsPurchasedOrSoldLog db augur log w = Resolved tt w1 ->
  processCompleteSetsPurchasedOrSoldLogRemoval db augur log w1 = Resolved tt w2
  \/ processCompleteSetsPurchasedOrSoldLogRemoval db augur log (settle w1) = Resolved tt w2 ->
  store (settle w2) = store w ->
  forward_ready (CompleteSetsPurchasedOrSoldLog log) (store w).
Proof.
  intros Hd H1 H2 Hs.
  destruct (find (market_is (CompleteSetsPurchasedOrSold.market (inputs log)))
              (markets (store w))) as [m|] eqn:Hfind.
  2:{ rewrite (processCompleteSetsPurchasedOrSoldLog_missing _ _ _ _ Hfind) in H1.
      discriminate H1. }
  rewrite (processCompleteSetsPurchasedOrSoldLog_found _ _ _ _ _ Hfind) in H1.
  cbv zeta in H1. injection H1 as <-. rewrite Hd in H2. cbn [app] in H2.
  rewrite settle_updateOpenInterest in H2.
  rewrite !processCompleteSetsPurchasedOrSoldLogRemoval_run in H2. cbv zeta in H2.
  project.
  assert (Hfinal : exists s,
            store (settle w2)
            = recomputed (CompleteSetsPurchasedOrSold.market (inputs log)) s
            /\ completeSets s
               = filter (fun r => negb (fill_of_log log r))
                        (completeSets (store w) ++ [fill_of augur log m])).
  { destruct H2 as [H2|H2]; injection H2 as <-.
    - project. rewrite settle_updateOpenInterest. project.
      eexists. split; [reflexivity|]. unfold recomputed. project. reflexivity.
    - rewrite settle_nothing by reflexivity. project.
      eexists. split; [reflexivity|]. unfold recomputed. project. reflexivity. }
  destruct Hfinal as (s & Hfinal & Hrows). rewrite Hs in Hfinal.
  split; [|split].
  - exists m. apply find_some in Hfind. exact Hfind.
  - apply (f_equal completeSets) in Hfinal. unfold recomputed in Hfinal.
    cbn [completeSets] in Hfinal. rewrite Hrows in Hfinal. symmetry in Hfinal.
    intros r Hin.
    exact (insert_then_delete_fixed (fill_of_log log) _ _
             (fill_of_log_fill_of augur log m) Hfinal r Hin).
  - rewrite Hfinal. apply recomputed_is_consistent.
Qed.

Lemma revert_detaches_nothing db augur trx e w w2 :
  revert db augur trx e w = Resolved tt w2 -> detached w2 = detached w.
Proof.
  destruct e as [log|log|log|log|log|log]; cbn [revert]; intros H.
  - rewrite processOrderCanceledLogRemoval_run in H. injection H as <-. reflexivity.
  - rewrite processInitialReporterRedeemedLogRemoval_run in H. injection H as <-.
    reflexivity.
  - rewrite processCompleteSetsPurchasedOrSoldLogRemoval_run in H. injection H as <-.
    reflexivity.
  - rewrite processDisputeCrowdsourcerCreatedLogRemoval_run in H. injection H as <-.
    reflexivity.
  - rewrite processDisputeCrowdsourcerContributionLogRemoval_run in H. injection H as <-.
    reflexivity.
  - rewrite processDisputeCrowdsourcerCompletedLogRemoval_run in H. injection H as <-.
    reflexivity.
Qed.

Lemma apply_detaches_nothing db augur trx e w w1 :
  match e with CompleteSetsPurchasedOrSoldLog _ => False | _ => True end ->
  apply db augur trx e w = Resolved tt w1 -> detached w1 = detached w.
Proof.
  destruct e as [log|log|log|log|log|log]; cbn [apply]; intros He H;
    try contradiction.
  - rewrite processOrderCanceledLog_run in H. injection H as <-. reflexivity.
  - rewrite processInitialReporterRedeemedLog_run in H. injection H as <-. reflexivity.
  - destruct (find (payout_of_log log) (payouts (store w))) as [p|] eqn:Hfind.
    + rewrite (processDisputeCrowdsourcerCreatedLog_found _ _ _ _ _ _ Hfind) in H.
      injection H as <-. reflexivity.
    + rewrite (processDisputeCrowdsourcerCreatedLog_created _ _ _ _ _ Hfind) in H.
      injection H as <-. reflexivity.
  - rewrite processDisputeCrowdsourcerContributionLog_run in H. injection H as <-.
    reflexivity.
  - rewrite processDisputeCrowdsourcerCompletedLog_run in H. injection H as <-. reflexivity.
Qed.

(** C1 (as amended): for every event type, with no promise pending, the
    round trip gives the store back exactly when the store is as the Forward
    log expects it ([forward_ready]): the log has not been applied yet (no
    row bears its key, its flag is down, the market of a complete-set log is
    there) and, besides, the orders of a cancellation are OPEN, the
    [completed] flag of a completion is 0, the payout set of a creation has
    its row, and the total of the market of a complete-set log is the sum of
    its fills.  When the store is so, the Forward processor resolves, the
    Removal processor resolves on what it left, and the store is then the one
    before the Forward, whether the recomputation the complete-set Forward
    leaves running settles before or after the Removal.  When a Forward and
    its Removal have resolved and the store is the one before the Forward,
    the store was so: each condition is one the code forces. *)
Theorem round_trip_restores_store db augur trx e w :
  detached w = [] ->
  (forward_ready e (store w) ->
   exists w1 w2 w2',
     apply db augur trx e w = Resolved tt w1
     /\ revert db augur trx e w1 = Resolved tt w2
     /\ store (settle w2) = store w
     /\ revert db augur trx e (settle w1) = Resolved tt w2'
     /\ store (settle w2') = store w)
  /\ (forall w1 w2,
        apply db augur trx e w = Resolved tt w1 ->
        revert db augur trx e w1 = Resolved tt w2
        \/ revert db augur trx e (settle w1) = Resolved tt w2 ->
        store (settle w2) = store w ->
        forward_ready e (store w)).
Proof.
  intros Hd. split.
  - intros Hready.
    assert (Hpair : forall apply_ revert_, restores apply_ revert_ w ->
              exists w1 w2 w2',
                apply_ w = Resolved tt w1 /\ revert_ w1 = Resolved tt w2
                /\ store (settle w2) = store w
                /\ revert_ (settle w1) = Resolved tt w2'
                /\ store (settle w2') = store w).
    { intros apply_ revert_ (w1 & w2 & Ha & Hd1 & Hr & Hd2 & Hs).
      rewrite Hd in Hd1, Hd2. exists w1, w2, w2.
      rewrite (settle_nothing w1 Hd1), (settle_nothing w2 Hd2). auto. }
    destruct e as [log|log|log|log|log|log]; cbn [apply revert].
    + apply Hpair, order_canceled_restores, Hready.
    + apply Hpair, initial_reporter_redeemed_restores, Hready.
    + apply complete_sets_restores; assumption.
    + apply Hpair, crowdsourcer_created_restores, Hready.
    + apply Hpair, crowdsourcer_contribution_restores, Hready.
    + apply Hpair, crowdsourcer_completed_restores, Hready.
  - intros w1 w2 H1 H2 Hs.
    assert (Hplain :
              match e with CompleteSetsPurchasedOrSoldLog _ => False | _ => True end ->
              revert db augur trx e w1 = Resolved tt w2 /\ store w2 = store w).
    { intros He. pose proof (apply_detaches_nothing _ _ _ _ _ _ He H1) as Hd1.
      rewrite Hd in Hd1. rewrite (settle_nothing w1 Hd1) in H2.
      assert (H2' : revert db augur trx e w1 = Resolved tt w2) by (destruct H2; assumption).
      pose proof (revert_detaches_nothing _ _ _ _ _ _ H2') as Hd2. rewrite Hd1 in Hd2.
      rewrite (settle_nothing w2 Hd2) in Hs. auto. }
    destruct e as [log|log|log|log|log|log]; cbn [apply revert] in *.
    + destruct (Hplain I) as [H2' Hs']. exact (order_canceled_ready _ _ _ _ _ _ H1 H2' Hs').
    + destruct (Hplain I) as [H2' Hs'].
      exact (initial_reporter_redeemed_ready _ _ _ _ _ _ H1 H2' Hs').
    + exact (complete_sets_ready _ _ _ _ _ _ Hd H1 H2 Hs).
    + destruct (Hplain I) as [H2' Hs'].
      exact (crowdsourcer_created_ready _ _ _ _ _ _ _ H1 H2' Hs').
    + destruct (Hplain I) as [H2' Hs'].
      exact (crowdsourcer_contribution_ready _ _ _ _ _ _ _ H1 H2' Hs').
    + destruct (Hplain I) as [H2' Hs'].
      exact (crowdsourcer_completed_ready _ _ _ _ _ _ _ H1 H2' Hs').
Qed.

Lemma round_trip_restores_store_witness :
  detached world_with_market = []
  /\ forward_ready (CompleteSetsPurchasedOrSoldLog (purchase "0xT2" 3 1000))
       (store world_with_market)
  /\ exists w1 w2 w2',
       apply Pool sample_augur 7 (CompleteSetsPurchasedOrSoldLog (purchase "0xT2" 3 1000))
         world_with_market = Resolved tt w1
       /\ revert Pool sample_augur 7 (CompleteSetsPurchasedOrSoldLog (purchase "0xT2" 3 1000))
            w1 = Resolved tt w2
       /\ store (settle w2) = store world_with_market
       /\ revert Pool sample_augur 7 (CompleteSetsPurchasedOrSoldLog (purchase "0xT2" 3 1000))
            (settle w1) = Resolved tt w2'
       /\ store (settle w2') = store world_with_market.
Proof.
  assert (Hready : forward_ready (CompleteSetsPurchasedOrSoldLog (purchase "0xT2" 3 1000))
                     (store world_with_market)).
  { simpl. split; [|split].
    - exists (sample_market 0). split; [left; reflexivity | reflexivity].
    - intros r [].
    - intros m [<-|[]] _. reflexivity. }
  split; [reflexivity|]. split; [exact Hready|].
  apply (proj1 (round_trip_restores_store Pool sample_augur 7
                  (CompleteSetsPurchasedOrSoldLog (purchase "0xT2" 3 1000))
                  world_with_market eq_refl)).
  exact Hready.
Defined.

(** C1 (as stated) fails, in four ways.  An order that is FILLED when its
    cancellation log is applied comes back OPEN from the Removal, not FILLED:
    the Removal sets a fixed state.  A crowdsourcer as the creation
    processor inserts it has no [completed] value (NULL); the completion
    Forward sets 1 and its Removal sets 0, not NULL.  The Removal of a
    creation log whose payout set was new deletes the crowdsourcer and
    leaves the payout row the Forward created.  And where the open-interest
    total of a market is not the sum of its fills (as an earlier complete-set
    Forward leaves it when its recomputation has not landed), the round trip
    of another fill recomputes the total instead of giving it back. *)
Lemma round_trip_does_not_restore :
  (let e := OrderCanceledLog cancel_0xABC in
   let w := world_with_order FILLED in
   let w1 := world_of (apply Pool sample_augur 7 e w) in
   let w2 := world_of (revert Pool sample_augur 7 e w1) in
   resolved (apply Pool sample_augur 7 e w) = true
   /\ resolved (revert Pool sample_augur 7 e w1) = true
   /\ map Orders.orderState (orders (store w)) = [FILLED]
   /\ map Orders.orderState (orders (store (settle w2))) = [OPEN]
   /\ store (settle w2) <> store w)
  /\ (let created :=
        crowdsourcer_created "0xMARKET" "0xCROWDSOURCER1" [0; 10000]%Z false 4 in
      let e := DisputeCrowdsourcerCompletedLog (crowdsourcer_completed "0xCROWDSOURCER1") in
      let w := world_of (apply Pool sample_augur 7 (DisputeCrowdsourcerCreatedLog created)
                           world_with_market) in
      let w1 := world_of (apply Pool sample_augur 7 e w) in
      let w2 := world_of (revert Pool sample_augur 7 e w1) in
      resolved (apply Pool sample_augur 7 e w) = true
      /\ resolved (revert Pool sample_augur 7 e w1) = true
      /\ map Crowdsourcers.completed (crowdsourcers (store w)) = [None]
      /\ map Crowdsourcers.completed (crowdsourcers (store w1)) = [Some 1%Z]
      /\ map Crowdsourcers.completed (crowdsourcers (store (settle w2))) = [Some 0%Z]
      /\ store (settle w2) <> store w)
  /\ (let e := DisputeCrowdsourcerCreatedLog
                 (crowdsourcer_created "0xMARKET" "0xCROWDSOURCER1" [0; 10000]%Z false 4) in
      let w := world_with_market in
      let w1 := world_of (apply Pool sample_augur 7 e w) in
      let w2 := world_of (revert Pool sample_augur 7 e w1) in
      resolved (apply Pool sample_augur 7 e w) = true
      /\ resolved (revert Pool sample_augur 7 e w1) = true
      /\ payouts (store w) = []
      /\ crowdsourcers (store (settle w2)) = crowdsourcers (store w)
      /\ payouts (store (settle w2)) = [Payouts.mk 1 "0xMARKET" [0; 10000]%Z false]
      /\ store (settle w2) <> store w)
  /\ (let stale := world_of (apply Pool sample_augur 7
                               (CompleteSetsPurchasedOrSoldLog (purchase "0xT1" 0 1000))
                               world_with_market) in
      let e := CompleteSetsPurchasedOrSoldLog (purchase "0xT2" 3 500) in
      let w := mkWorld (store stale) (journal stale) [] in
      let w1 := world_of (apply Pool sample_augur 7 e w) in
      let w2 := world_of (revert Pool sample_augur 7 e w1) in
      resolved (apply Pool sample_augur 7 e w) = true
      /\ resolved (revert Pool sample_augur 7 e w1) = true
      /\ map CompleteSets.numCompleteSets (completeSets (store w)) = [1000 # 100]
      /\ map Markets.openInterest (markets (store w)) = [0%Q]
      /\ completeSets (store (settle w2)) = completeSets (store w)
      /\ map Markets.openInterest (markets (store (settle w2))) = [1000 # 100]
      /\ store (settle w2) <> store w).
Proof.
  cbv zeta. repeat split; try reflexivity; vm_compute; discriminate.
Qed.

(** ** Preconditions are not checked *)

(** C2 (as stated) fails: the Removal of a cancellation log on an order that
    is FILLED, with no cancellation on record, resolves and sets the order
    to OPEN. *)
Lemma removal_on_uncanceled_order_resolves :
  let w := world_with_order FILLED in
  let o := revert Pool sample_augur 7 (OrderCanceledLog cancel_0xABC) w in
  orders_canceled (store w) = []
  /\ resolved o = true
  /\ map Orders.orderState (orders (store (world_of o))) = [OPEN]
  /\ store (world_of o) <> store w.
Proof.
  cbv zeta. repeat split; try reflexivity.
  vm_compute. discriminate.
Qed.

Lemma revert_resolves db augur trx e w :
  exists w', revert db augur trx e w = Resolved tt w'.
Proof.
  destruct e as [log|log|log|log|log|log]; cbn [revert].
  - rewrite processOrderCanceledLogRemoval_run. eexists; reflexivity.
  - rewrite processInitialReporterRedeemedLogRemoval_run. eexists; reflexivity.
  - rewrite processCompleteSetsPurchasedOrSoldLogRemoval_run. eexists; reflexivity.
  - rewrite processDisputeCrowdsourcerCreatedLogRemoval_run. eexists; reflexivity.
  - rewrite processDisputeCrowdsourcerContributionLogRemoval_run. eexists; reflexivity.
  - rewrite processDisputeCrowdsourcerCompletedLogRemoval_run. eexists; reflexivity.
Qed.

(** C2 (as amended): no processor checks the precondition of its direction
    and none raises InconsistentStateError.  Every Removal processor resolves
    on any store; the one for an order cancellation sets every order of that
    id to OPEN and deletes every cancellation record of that id, whatever the
    order's state was.  A Forward processor, whatever the constraints of the
    tables, resolves unless the market row of a complete-set log is missing
    (it then rejects with a plain Error and the store as it was) or the
    database refuses the insert into the processor's own table (it then
    rejects with the error of the database, and what it wrote before the
    insert is still written). *)
Theorem no_precondition_is_checked schema db augur trx e w :
  (exists w', revert db augur trx e w = Resolved tt w'
     /\ match e with
        | OrderCanceledLog log =>
            orders (store w')
            = map (fun r => if order_is (OrderCanceled.orderId (inputs log)) r
                            then Orders.set_orderState OPEN r else r)
                  (orders (store w))
            /\ orders_canceled (store w')
               = filter (fun r => negb (cancellation_of
                                          (OrderCanceled.orderId (inputs log)) r))
                        (orders_canceled (store w))
        | _ => True
        end)
  /\ (if market_missing e (store w)
      then
        exists w' err,
          Constrained.apply schema db augur trx e w = Rejected err w'
          /\ err = new_Error
                     "market min price, max price, category, and/or num ticks not found"
          /\ is_InconsistentStateError err = false
          /\ store w' = store w
      else
        match own_insert_refused schema augur e (store w) with
        | Some err =>
            exists w',
              Constrained.apply schema db augur trx e w = Rejected err w'
              /\ store w' = written_before_own_insert schema e (store w)
        | None => exists w', Constrained.apply schema db augur trx e w = Resolved tt w'
        end).
Proof.
  split.
  - destruct (revert_resolves db augur trx e w) as [w' Hw']. exists w'.
    split; [exact Hw'|].
    destruct e as [log|log|log|log|log|log]; try exact I.
    cbn [revert] in Hw'. rewrite processOrderCanceledLogRemoval_run in Hw'.
    cbv zeta in Hw'. injection Hw' as <-. project. split; reflexivity.
  - pose proof (constrained_apply_run schema db augur trx e w) as H.
    destruct (market_missing e (store w)).
    + destruct H as (w' & err & H & -> & Hs & _). exists w'. eexists.
      split; [exact H|]. repeat split. exact Hs.
    + destruct (own_insert_refused schema augur e (store w)) as [err|].
      * destruct H as (w' & H & Hs & _). exists w'. split; assumption.
      * exact H.
Qed.

Lemma no_precondition_is_checked_witness :
  let e := OrderCanceledLog cancel_0xABC in
  let refused := SQLITE_CONSTRAINT "orders_canceled.orderId" in
  let w := world_of (apply Pool sample_augur 7 e (world_with_order OPEN)) in
  map Orders.orderState (orders (store w)) = [CANCELED]
  /\ map OrdersCanceled.orderId (orders_canceled (store w)) = ["0xABC"]
  /\ exists w',
       Constrained.apply keyed_schema Pool sample_augur 7 e w = Rejected refused w'
       /\ store w' = written_before_own_insert keyed_schema e (store w).
Proof.
  cbv zeta. split; [reflexivity|]. split; [reflexivity|].
  exact (proj2 (no_precondition_is_checked keyed_schema Pool sample_augur 7
                  (OrderCanceledLog cancel_0xABC)
                  (world_of (apply Pool sample_augur 7 (OrderCanceledLog cancel_0xABC)
                               (world_with_order OPEN))))).
Defined.

(** ** Applying a Forward log twice *)

(** C3 (as stated) fails: applying the same initial-report redemption log a
    second time resolves; it is not rejected. *)
Lemma second_forward_resolves :
  let e := InitialReporterRedeemedLog redeemed_0xMARKET in
  let o1 := apply Pool sample_augur 7 e (world_with_report false) in
  let o2 := apply Pool sample_augur 7 e (world_of o1) in
  resolved o1 = true /\ resolved o2 = true.
Proof. cbv zeta. split; reflexivity. Qed.

(** With no key constraint on the table, a cancellation log that is applied
    twice leaves two cancellation records. *)
Lemma second_cancellation_is_recorded_again :
  let e := OrderCanceledLog cancel_0xABC in
  let o1 := apply Pool sample_augur 7 e (world_with_order OPEN) in
  let o2 := apply Pool sample_augur 7 e (world_of o1) in
  resolved o2 = true
  /\ map OrdersCanceled.orderId (orders_canceled (store (world_of o2))) = ["0xABC"; "0xABC"].
Proof. cbv zeta. split; reflexivity. Qed.

Lemma update_twice {R} (where_ : R -> bool) (set_ : R -> R) (l : list R) :
  (forall r, where_ (set_ r) = where_ r) ->
  (forall r, set_ (set_ r) = set_ r) ->
  map (fun r => if where_ r then set_ r else r)
      (map (fun r => if where_ r then set_ r else r) l)
  = map (fun r => if where_ r then set_ r else r) l.
Proof.
  intros Hw Hs. rewrite (update_update where_) by exact Hw.
  apply map_ext. intros r. destruct (where_ r); [apply Hs|reflexivity].
Qed.

(** C3 (as amended): a Forward log applied a second time, with no Removal
    in between, is never met with a check of the processor's own: what
    happens is up to the constraints of the tables.  The flag-setting
    processors (initial report redeemed, crowdsourcer completed) resolve and
    leave the store as the first application left it.  The other processors
    issue their insert again, with the row the first application stored:
    where the table takes it, the processor resolves and the row is stored a
    second time; where the table refuses it, the processor rejects with the
    error of the database, the store is as the first application left it and
    nothing more is published or left running. *)
Theorem second_forward_is_not_rejected schema db augur trx e w w1 :
  Constrained.apply schema db augur trx e w = Resolved tt w1 ->
  match own_insert_refused schema augur e (store w1) with
  | Some err =>
      exists w2,
        Constrained.apply schema db augur trx e w1 = Rejected err w2
        /\ store w2 = store w1
        /\ emitted (journal w2) = emitted (journal w1)
        /\ detached w2 = detached w1
  | None =>
      exists w2,
        Constrained.apply schema db augur trx e w1 = Resolved tt w2
        /\ match e with
           | InitialReporterRedeemedLog _ | DisputeCrowdsourcerCompletedLog _ =>
               store w2 = store w1
           | OrderCanceledLog log =>
               In (cancellation_record log) (orders_canceled (store w1))
               /\ store w2
                  = with_rows orders_canceled_t
                      (orders_canceled (store w1) ++ [cancellation_record log]) (store w1)
           | CompleteSetsPurchasedOrSoldLog log =>
               exists m,
                 find (market_is (CompleteSetsPurchasedOrSold.market (inputs log)))
                      (markets (store w1)) = Some m
                 /\ In (fill_of augur log m) (completeSets (store w1))
                 /\ store w2
                    = with_rows completeSets_t
                        (completeSets (store w1) ++ [fill_of augur log m]) (store w1)
           | DisputeCrowdsourcerCreatedLog log =>
               exists payoutID,
                 In (crowdsourcer_of log payoutID) (crowdsourcers (store w1))
                 /\ store w2
                    = with_rows crowdsourcers_t
                        (crowdsourcers (store w1) ++ [crowdsourcer_of log payoutID])
                        (store w1)
           | DisputeCrowdsourcerContributionLog log =>
               In (dispute_of log) (disputes (store w1))
               /\ store w2
                  = with_rows disputes_t (disputes (store w1) ++ [dispute_of log]) (store w1)
           end
  end.
Proof.
  intros H1.
  pose proof (constrained_apply_run schema db augur trx e w1) as H2.
  destruct e as [log|log|log|log|log|log];
    cbn [market_missing own_insert_refused Constrained.apply] in *.
  - (* order cancellation *)
    destruct (orders_canceled_c schema (orders_canceled (store w)) (cancellation_record log))
      as [err|] eqn:Hfirst.
    { rewrite (constrained_processOrderCanceledLog_refused _ _ _ _ _ _ Hfirst) in H1.
      discriminate H1. }
    rewrite (constrained_processOrderCanceledLog_accepted _ _ _ _ _ Hfirst) in H1.
    rewrite processOrderCanceledLog_run in H1. cbv zeta in H1. injection H1 as <-.
    project. cbn [store orders_canceled] in H2.
    assert (Hagain :
      map (fun r => if order_is (OrderCanceled.orderId (inputs log)) r
                    then Orders.set_orderState CANCELED r else r)
          (map (fun r => if order_is (OrderCanceled.orderId (inputs log)) r
                         then Orders.set_orderState CANCELED r else r)
               (orders (store w)))
      = map (fun r => if order_is (OrderCanceled.orderId (inputs log)) r
                      then Orders.set_orderState CANCELED r else r)
            (orders (store w))).
    { apply update_twice; intros r; destruct r; reflexivity. }
    unfold order_is in Hagain.
    destruct (orders_canceled_c schema _ (cancellation_record log)) as [err|] eqn:Hsecond.
    + destruct H2 as (w2 & H2 & Hs & He & Hd). exists w2.
      split; [exact H2|]. split; [|split; assumption].
      rewrite Hs. unfold written_before_own_insert, order_is.
      cbn [with_rows orders_t store orders orders_canceled initial_reports markets
           completeSets crowdsourcers disputes payouts].
      rewrite Hagain. reflexivity.
    + rewrite constrained_processOrderCanceledLog_accepted by (project; exact Hsecond).
      rewrite processOrderCanceledLog_run. cbv zeta. project.
      eexists. split; [reflexivity|]. project.
      split; [apply in_or_app; right; left; reflexivity|].
      cbn [with_rows orders_canceled_t orders orders_canceled initial_reports markets
           completeSets crowdsourcers disputes payouts].
      rewrite Hagain. reflexivity.
  - (* initial report redeemed *)
    rewrite processInitialReporterRedeemedLog_run in H1. cbv zeta in H1.
    injection H1 as <-.
    rewrite processInitialReporterRedeemedLog_run. cbv zeta. project.
    eexists. split; [reflexivity|]. project.
    rewrite (update_twice (report_of (InitialReporterRedeemed.market (inputs log)))).
    + reflexivity.
    + intros r; destruct r; reflexivity.
    + intros r; destruct r; reflexivity.
  - (* complete sets *)
    destruct (find (market_is (CompleteSetsPurchasedOrSold.market (inputs log)))
                (markets (store w))) as [m|] eqn:Hm.
    2:{ rewrite (constrained_processCompleteSetsPurchasedOrSoldLog_missing _ _ _ _ _ Hm)
          in H1.
        rewrite (processCompleteSetsPurchasedOrSoldLog_missing _ _ _ _ Hm) in H1.
        discriminate H1. }
    destruct (completeSets_c schema (completeSets (store w)) (fill_of augur log m))
      as [err|] eqn:Hfirst.
    { rewrite (constrained_processCompleteSetsPurchasedOrSoldLog_refused
                 _ _ _ _ _ _ _ Hm Hfirst) in H1. discriminate H1. }
    rewrite (constrained_processCompleteSetsPurchasedOrSoldLog_accepted
               _ _ _ _ _ _ Hm Hfirst) in H1.
    rewrite (processCompleteSetsPurchasedOrSoldLog_found _ _ _ _ _ Hm) in H1.
    cbv zeta in H1. injection H1 as <-. project. cbn [store markets completeSets] in H2.
    rewrite Hm in *.
    destruct (completeSets_c schema _ (fill_of augur log m)) as [err|] eqn:Hsecond.
    + exact H2.
    + rewrite (constrained_processCompleteSetsPurchasedOrSoldLog_accepted
                 _ _ _ _ _ m) by (project; assumption).
      rewrite (processCompleteSetsPurchasedOrSoldLog_found _ _ _ _ m)
        by (project; assumption).
      cbv zeta. project. eexists. split; [reflexivity|]. project.
      exists m. split; [reflexivity|].
      split; [apply in_or_app; right; left; reflexivity | reflexivity].
  - (* crowdsourcer created *)
    rewrite constrained_processDisputeCrowdsourcerCreatedLog_run in H1. cbv zeta in H1.
    destruct (crowdsourcers_c schema (crowdsourcers (store w)) _) as [err|];
      [discriminate H1|].
    assert (Hst : store w1
                  = with_rows crowdsourcers_t
                      (crowdsourcers (store w)
                       ++ [crowdsourcer_of log (payoutID_of_creation schema log (store w))])
                      (written_before_own_insert schema
                         (DisputeCrowdsourcerCreatedLog log) (store w)))
      by (injection H1 as <-; reflexivity).
    clear H1.
    destruct (creation_settles_the_payout schema log (store w)
                (crowdsourcers (store w)
                 ++ [crowdsourcer_of log (payoutID_of_creation schema log (store w))]))
      as [Hsame Hid].
    cbv zeta in Hsame, Hid. rewrite <- Hst in Hsame, Hid.
    rewrite Hid in *.
    destruct (crowdsourcers_c schema (crowdsourcers (store w1)) _) as [err|] eqn:Hsecond.
    + rewrite Hsame in H2. exact H2.
    + rewrite constrained_processDisputeCrowdsourcerCreatedLog_run. cbv zeta.
      rewrite Hid, Hsame, Hsecond.
      eexists. split; [reflexivity|]. project.
      exists (payoutID_of_creation schema log (store w)).
      split; [|reflexivity].
      rewrite Hst. cbn [with_rows crowdsourcers_t crowdsourcers].
      apply in_or_app; right; left; reflexivity.
  - (* contribution *)
    destruct (disputes_c schema (disputes (store w)) (dispute_of log)) as [err|] eqn:Hfirst.
    { rewrite (constrained_processDisputeCrowdsourcerContributionLog_refused
                 _ _ _ _ _ _ _ Hfirst) in H1. discriminate H1. }
    rewrite (constrained_processDisputeCrowdsourcerContributionLog_accepted
               _ _ _ _ _ _ Hfirst) in H1.
    rewrite processDisputeCrowdsourcerContributionLog_run in H1. cbv zeta in H1.
    injection H1 as <-. project. cbn [store disputes] in H2.
    destruct (disputes_c schema _ (dispute_of log)) as [err|] eqn:Hsecond.
    + exact H2.
    + rewrite constrained_processDisputeCrowdsourcerContributionLog_accepted
        by (project; exact Hsecond).
      rewrite processDisputeCrowdsourcerContributionLog_run. cbv zeta. project.
      eexists. split; [reflexivity|]. project.
      split; [apply in_or_app; right; left; reflexivity | reflexivity].
  - (* crowdsourcer completed *)
    rewrite processDisputeCrowdsourcerCompletedLog_run in H1. cbv zeta in H1.
    injection H1 as <-.
    rewrite processDisputeCrowdsourcerCompletedLog_run. cbv zeta. project.
    eexists. split; [reflexivity|]. project.
    rewrite (update_twice (crowdsourcer_is
               (DisputeCrowdsourcerCompleted.disputeCrowdsourcer (inputs log)))).
    + reflexivity.
    + intros r; destruct r; reflexivity.
    + intros r; destruct r; reflexivity.
Qed.

Lemma second_forward_is_not_rejected_witness :
  let e := OrderCanceledLog cancel_0xABC in
  let refused := SQLITE_CONSTRAINT "orders_canceled.orderId" in
  let w1 := world_of (Constrained.apply keyed_schema Pool sample_augur 7 e
                        (world_with_order OPEN)) in
  let u1 := world_of (Constrained.apply unconstrained Pool sample_augur 7 e
                        (world_with_order OPEN)) in
  (Constrained.apply keyed_schema Pool sample_augur 7 e (world_with_order OPEN)
   = Resolved tt w1
   /\ exists w2,
        Constrained.apply keyed_schema Pool sample_augur 7 e w1 = Rejected refused w2
        /\ store w2 = store w1
        /\ emitted (journal w2) = emitted (journal w1)
        /\ detached w2 = detached w1)
  /\ (Constrained.apply unconstrained Pool sample_augur 7 e (world_with_order OPEN)
      = Resolved tt u1
      /\ exists u2,
           Constrained.apply unconstrained Pool sample_augur 7 e u1 = Resolved tt u2
           /\ In (cancellation_record cancel_0xABC) (orders_canceled (store u1))
           /\ store u2
              = with_rows orders_canceled_t
                  (orders_canceled (store u1) ++ [cancellation_record cancel_0xABC])
                  (store u1)).
Proof.
  cbv zeta. split; (split; [reflexivity|]).
  - exact (second_forward_is_not_rejected keyed_schema Pool sample_augur 7
             (OrderCanceledLog cancel_0xABC) (world_with_order OPEN) _ eq_refl).
  - exact (second_forward_is_not_rejected unconstrained Pool sample_augur 7
             (OrderCanceledLog cancel_0xABC) (world_with_order OPEN) _ eq_refl).
Defined.

(** ** Complete-set fills and the open-interest total *)

(** The Removal deletes the rows with the log's (transactionHash, logIndex),
    and no other row. *)
Lemma removal_deletes_by_key db augur log w r :
  In r (completeSets (store (world_of
         (processCompleteSetsPurchasedOrSoldLogRemoval db augur log w))))
  <-> In r (completeSets (store w)) /\ fill_of_log log r = false.
Proof.
  rewrite processCompleteSetsPurchasedOrSoldLogRemoval_run. cbv zeta.
  unfold world_of, recomputed. project. apply delete_spec.
Qed.

(** The Removal resolves with the total of its market recomputed from the
    rows that are left. *)
Lemma removal_recomputes db augur log w :
  exists w', processCompleteSetsPurchasedOrSoldLogRemoval db augur log w = Resolved tt w'
    /\ aggregate_consistent (CompleteSetsPurchasedOrSold.market (inputs log)) (store w').
Proof.
  rewrite processCompleteSetsPurchasedOrSoldLogRemoval_run. cbv zeta.
  eexists. split; [reflexivity|]. project. apply recomputed_is_consistent.
Qed.

(** The Forward resolves with the recomputation still to run; the total is
    that of the market's rows once it has. *)
Lemma forward_recomputes_once_settled db augur log w w1 :
  detached w = [] ->
  processCompleteSetsPurchasedOrSoldLog db augur log w = Resolved tt w1 ->
  detached w1 = [TaskUpdateOpenInterest db (CompleteSetsPurchasedOrSold.market (inputs log))]
  /\ markets (store w1) = markets (store w)
  /\ aggregate_consistent (CompleteSetsPurchasedOrSold.market (inputs log))
       (store (settle w1)).
Proof.
  intros Hd H1.
  destruct (find (market_is (CompleteSetsPurchasedOrSold.market (inputs log)))
              (markets (store w))) as [m|] eqn:Hfind.
  - rewrite (processCompleteSetsPurchasedOrSoldLog_found _ _ _ _ _ Hfind) in H1.
    cbv zeta in H1. injection H1 as <-. rewrite Hd. project. cbn [app].
    split; [reflexivity|]. split; [reflexivity|].
    rewrite settle_updateOpenInterest. project. apply recomputed_is_consistent.
  - rewrite (processCompleteSetsPurchasedOrSoldLog_missing _ _ _ _ Hfind) in H1.
    discriminate H1.
Qed.

(** C4 (the code at the failing input): when the Forward processor of a
    complete-set purchase resolves, the fill is stored and the open-interest
    total of its market is still the old one; the recomputation was started
    without being awaited. *)
Theorem forward_resolves_with_stale_aggregate :
  let o := processCompleteSetsPurchasedOrSoldLog Pool sample_augur
             (purchase "0xT2" 3 1000) world_with_market in
  resolved o = true
  /\ map CompleteSets.numCompleteSets (completeSets (store (world_of o))) = [1000 # 100]
  /\ map Markets.openInterest (markets (store (world_of o))) = [0%Q]
  /\ detached (world_of o) = [TaskUpdateOpenInterest Pool "0xMARKET"]
  /\ ~ aggregate_consistent "0xMARKET" (store (world_of o))
  /\ map Markets.openInterest (markets (store (settle (world_of o)))) = [1000 # 100].
Proof.
  cbv zeta. repeat split; try reflexivity.
  intros H. specialize (H (sample_market 0) (or_introl eq_refl) eq_refl).
  vm_compute in H. discriminate H.
Qed.

(** ** Any sequence of fills and removals *)

Lemma filter_absorbs {R} (P Q : R -> bool) (l : list R) :
  (forall r, In r l -> P r = true -> Q r = true) ->
  filter P (filter Q l) = filter P l.
Proof.
  induction l as [|r l IH]; intros H; simpl; [reflexivity|].
  assert (IH' : filter P (filter Q l) = filter P l)
    by (apply IH; intros; apply H; simpl; auto).
  destruct (Q r) eqn:EQ; simpl.
  - rewrite IH'. reflexivity.
  - destruct (P r) eqn:EP; [|exact IH'].
    rewrite (H r (or_introl eq_refl) EP) in EQ. discriminate.
Qed.

Lemma recomputed_other marketId other s s' :
  markets s' = markets s ->
  filter (fill_of_market other) (completeSets s')
    = filter (fill_of_market other) (completeSets s) ->
  marketId <> other ->
  aggregate_consistent other s ->
  aggregate_consistent other (recomputed marketId s').
Proof.
  intros Hmarkets Hfills Hneq H m Hin Hm.
  unfold recomputed in *. cbn [markets completeSets] in *.
  rewrite Hfills. rewrite Hmarkets in Hin.
  apply in_map_iff in Hin. destruct Hin as [m0 [Hm0 Hin0]].
  destruct (market_is marketId m0) eqn:E.
  - exfalso. subst m. unfold market_is in *. destruct m0; simpl in *.
    apply String.eqb_eq in E, Hm. congruence.
  - subst m. apply H; assumption.
Qed.

Lemma recomputed_all marketId s s' :
  markets s' = markets s ->
  (forall other, marketId <> other ->
     filter (fill_of_market other) (completeSets s')
     = filter (fill_of_market other) (completeSets s)) ->
  all_consistent s ->
  all_consistent (recomputed marketId s').
Proof.
  intros Hmarkets Hfills H other.
  destruct (string_dec marketId other) as [<-|Hneq].
  - apply recomputed_is_consistent.
  - apply (recomputed_other marketId other s s'); auto.
Qed.

Lemma forward_step_consistent db augur log w :
  detached w = [] -> all_consistent (store w) ->
  let w' := settle (world_of (processCompleteSetsPurchasedOrSoldLog db augur log w)) in
  detached w' = [] /\ all_consistent (store w')
  /\ (completeSets (store w') = completeSets (store w)
      \/ exists m, completeSets (store w')
                   = completeSets (store w) ++ [fill_of augur log m]).
Proof.
  intros Hd H. cbv zeta.
  destruct (find (market_is (CompleteSetsPurchasedOrSold.market (inputs log)))
              (markets (store w))) as [m|] eqn:Hfind.
  - rewrite (processCompleteSetsPurchasedOrSoldLog_found _ _ _ _ _ Hfind). cbv zeta.
    unfold world_of. rewrite Hd. cbn [app]. rewrite settle_updateOpenInterest. project.
    split; [reflexivity|]. split.
    + apply (recomputed_all _ (store w)); [reflexivity| |exact H].
      intros other Hneq. project. rewrite filter_app. simpl.
      unfold fill_of_market at 2. simpl.
      apply String.eqb_neq in Hneq. rewrite Hneq. apply app_nil_r.
    + right. exists m. reflexivity.
  - rewrite (processCompleteSetsPurchasedOrSoldLog_missing _ _ _ _ Hfind).
    unfold world_of. rewrite settle_nothing by exact Hd. project. auto.
Qed.

Lemma removal_step_consistent db augur log w :
  detached w = [] -> all_consistent (store w) ->
  (forall r, In r (completeSets (store w)) -> fill_of_log log r = true ->
     CompleteSets.marketId r = CompleteSetsPurchasedOrSold.market (inputs log)) ->
  let w' := settle (world_of (processCompleteSetsPurchasedOrSoldLogRemoval db augur log w)) in
  detached w' = [] /\ all_consistent (store w')
  /\ completeSets (store w')
     = filter (fun r => negb (fill_of_log log r)) (completeSets (store w)).
Proof.
  intros Hd H Hkey. cbv zeta.
  rewrite processCompleteSetsPurchasedOrSoldLogRemoval_run. cbv zeta.
  unfold world_of. rewrite settle_nothing by exact Hd. project.
  split; [exact Hd|]. split; [|reflexivity].
  apply (recomputed_all _ (store w)); [reflexivity| |exact H].
  intros other Hneq. project. apply filter_absorbs.
  intros r Hin Hr. apply negb_true_iff.
  destruct (fill_of_log log r) eqn:E; [|reflexivity].
  exfalso. apply Hneq. rewrite <- (Hkey r Hin E).
  unfold fill_of_market in Hr. apply String.eqb_eq in Hr. exact Hr.
Qed.

(** With every recomputation settled before the next log, the totals stay
    the sums of the stored fills through any sequence of fills and removals
    whose log identities each belong to one market. *)
Lemma replay_keeps_aggregates db augur steps : forall w,
  detached w = [] ->
  all_consistent (store w) ->
  keys_agree (map snd steps) ->
  fills_keyed (map snd steps) (store w) ->
  all_consistent (store (replay db augur steps w)).
Proof.
  induction steps as [|[d log] steps IH]; intros w Hd H Hagree Hkeyed; [exact H|].
  cbn [replay]. simpl map in Hagree, Hkeyed.
  assert (Hagree' : keys_agree (map snd steps)).
  { intros l1 l2 H1 H2. apply Hagree; right; assumption. }
  destruct d; cbn [process_fill].
  - destruct (forward_step_consistent db augur log w Hd H) as (Hd' & H' & Hrows).
    apply IH; try assumption.
    intros r log' Hr Hlog' Hmatch.
    assert (Hold : In r (completeSets (store w)) ->
                   CompleteSets.marketId r
                   = CompleteSetsPurchasedOrSold.market (inputs log')).
    { intros Hin. apply Hkeyed; [exact Hin | right; exact Hlog' | exact Hmatch]. }
    destruct Hrows as [Hrows|[m Hrows]]; rewrite Hrows in Hr; [auto|].
    apply in_app_or in Hr. destruct Hr as [Hr|[<-|[]]]; [auto|].
    unfold fill_of_log, fill_of in Hmatch. simpl in Hmatch.
    apply andb_true_iff in Hmatch. destruct Hmatch as [Htx Hidx].
    apply String.eqb_eq in Htx. apply Z.eqb_eq in Hidx. simpl.
    apply Hagree; [left; reflexivity | right; exact Hlog' | exact Htx | exact Hidx].
  - destruct (removal_step_consistent db augur log w Hd H) as (Hd' & H' & Hrows).
    { intros r Hin Hr. apply (Hkeyed r log Hin); [left; reflexivity | exact Hr]. }
    apply IH; try assumption.
    intros r log' Hr Hlog' Hmatch. rewrite Hrows in Hr. apply filter_In in Hr.
    apply (Hkeyed r log'); [apply Hr | right; exact Hlog' | exact Hmatch].
Qed.

(** ** A complete-set log for a market that is not there *)

(** C9: when the markets table has no row for the market of a complete-set
    log, the Forward processor rejects, with the error for the missing market,
    having only read: the store (the fills and the open-interest totals with
    it) is unchanged, nothing was published and nothing was left running. *)
Theorem forward_without_market_rejects db augur log w :
  (forall m, In m (markets (store w)) ->
             Markets.marketId m <> CompleteSetsPurchasedOrSold.market (inputs log)) ->
  exists w',
    processCompleteSetsPurchasedOrSoldLog db augur log w
    = Rejected (new_Error "market min price, max price, category, and/or num ticks not found")
               w'
    /\ store w' = store w
    /\ journal w' = journal w ++ [Ran db SELECT "markets"]
    /\ detached w' = detached w.
Proof.
  intros Hnone.
  rewrite processCompleteSetsPurchasedOrSoldLog_missing.
  - eexists. split; [reflexivity|]. project. auto.
  - apply find_select_nothing. intros m Hin. unfold market_is.
    apply String.eqb_neq. apply Hnone. exact Hin.
Qed.

Lemma forward_without_market_rejects_witness :
  (forall m, In m (markets (store (world_with_order OPEN))) ->
             Markets.marketId m
             <> CompleteSetsPurchasedOrSold.market (inputs (purchase "0xT2" 3 1000)))
  /\ exists w',
       processCompleteSetsPurchasedOrSoldLog Pool sample_augur (purchase "0xT2" 3 1000)
         (world_with_order OPEN)
       = Rejected
           (new_Error "market min price, max price, category, and/or num ticks not found") w'
       /\ store w' = store (world_with_order OPEN)
       /\ journal w' = journal (world_with_order OPEN) ++ [Ran Pool SELECT "markets"]
       /\ detached w' = detached (world_with_order OPEN).
Proof.
  assert (Hnone : forall m, In m (markets (store (world_with_order OPEN))) ->
            Markets.marketId m
            <> CompleteSetsPurchasedOrSold.market (inputs (purchase "0xT2" 3 1000))).
  { intros m []. }
  split; [exact Hnone|].
  apply (forward_without_market_rejects Pool sample_augur (purchase "0xT2" 3 1000)
           (world_with_order OPEN) Hnone).
Defined.

(** ** The node health monitor *)

(** C10: when the getController callback is handed an error (and so no
    controller), the error callback is called twice on that tick: with the
    RPC error, and then with a controller-mismatch error, the comparison
    being made all the same, against [undefined]. *)
Theorem rpc_error_is_reported_twice augur controller err :
  getControllerCallback controller true (Some err) VUndefined
  = [ ClearInterval; ErrorCallback err;
      ClearInterval;
      ErrorCallback (new_Error ("Controller mismatch. Configured: " ++ controller
                                ++ " Found: undefined")) ]
  /\ errorCallback_calls (getControllerCallback controller true (Some err) VUndefined)
     = [ err;
         new_Error ("Controller mismatch. Configured: " ++ controller
                    ++ " Found: undefined") ]
  /\ errorCallback_calls
       (monitorEthereumNodeHealth_tick augur true (fun _ => (Some err, VUndefined)))
     = [ err;
         new_Error ("Controller mismatch. Configured: "
                    ++ Controller (contracts_addresses augur (rpc_getNetworkID augur))
                    ++ " Found: undefined") ].
Proof. repeat split; reflexivity. Qed.

(** ** The cancellation of order 0xABC *)

Lemma updated_rows_state (orderId : string) (state : OrderState) (l : list Orders.row) r :
  In r (map (fun r => if order_is orderId r then Orders.set_orderState state r else r) l) ->
  order_is orderId r = true ->
  Orders.orderState r = state.
Proof.
  intros Hin Hr. apply in_map_iff in Hin. destruct Hin as [r0 [Hr0 _]].
  destruct (order_is orderId r0) eqn:E; subst r; [reflexivity|congruence].
Qed.

Lemma updated_rows_keep (orderId : string) (state : OrderState) (l : list Orders.row) r :
  In r l -> order_is orderId r = true ->
  In (Orders.set_orderState state r)
     (map (fun r => if order_is orderId r then Orders.set_orderState state r else r) l).
Proof.
  intros Hin Hr. apply in_map_iff. exists r. rewrite Hr. auto.
Qed.

(** C5: applying a cancellation log with orderId 0xABC and orderType 0, the
    order being in the orders table, sets the order's state to CANCELED,
    leaves a cancellation record keyed by 0xABC and publishes an OrderCanceled
    event whose orderType is buy; the Removal of the same log then sets the
    order's state to OPEN and deletes the cancellation record. *)
Theorem cancellation_of_0xABC db augur log w order :
  OrderCanceled.orderId (inputs log) = "0xABC" ->
  OrderCanceled.orderType (inputs log) = "0" ->
  In order (orders (store w)) ->
  Orders.orderId order = "0xABC" ->
  exists w1 w2 payload,
    processOrderCanceledLog db augur log w = Resolved tt w1
    /\ In (Orders.set_orderState CANCELED order) (orders (store w1))
    /\ (forall r, In r (orders (store w1)) -> Orders.orderId r = "0xABC" ->
                  Orders.orderState r = CANCELED)
    /\ In (OrdersCanceled.mk "0xABC" (transactionHash log) (logIndex log) (blockNumber log))
          (orders_canceled (store w1))
    /\ emitted (journal w1) = emitted (journal w) ++ [("OrderCanceled", payload)]
    /\ obj_get "orderType" payload = VStr "buy"
    /\ processOrderCanceledLogRemoval db augur log w1 = Resolved tt w2
    /\ In (Orders.set_orderState OPEN order) (orders (store w2))
    /\ (forall r, In r (orders (store w2)) -> Orders.orderId r = "0xABC" ->
                  Orders.orderState r = OPEN)
    /\ (forall c, In c (orders_canceled (store w2)) -> OrdersCanceled.orderId c <> "0xABC").
Proof.
  intros Hid Htype Hin Horder.
  assert (Hmatch : order_is "0xABC" order = true)
    by (unfold order_is; rewrite Horder; reflexivity).
  rewrite processOrderCanceledLog_run. cbv zeta. rewrite Hid, Htype.
  destruct (find_update_some (order_is "0xABC") (Orders.set_orderState CANCELED)
              (orders (store w)) order) as [found [Hfound _]];
    [intros r; destruct r; reflexivity | exact Hin | exact Hmatch |].
  unfold order_is in Hfound. rewrite Hfound.
  do 3 eexists. split; [reflexivity|]. project.
  split; [apply updated_rows_keep; assumption|].
  split.
  { intros r Hr Hrid. apply (updated_rows_state "0xABC" _ _ _ Hr).
    unfold order_is. rewrite Hrid. reflexivity. }
  split; [apply in_or_app; right; left; reflexivity|].
  split; [project; rewrite !emitted_app; reflexivity|].
  split; [reflexivity|].
  rewrite processOrderCanceledLogRemoval_run. cbv zeta. rewrite Hid. project.
  split; [reflexivity|]. project.
  split.
  { replace (Orders.set_orderState OPEN order)
      with (Orders.set_orderState OPEN (Orders.set_orderState CANCELED order))
      by (destruct order; reflexivity).
    apply updated_rows_keep.
    - apply updated_rows_keep; assumption.
    - destruct order; exact Hmatch. }
  split.
  { intros r Hr Hrid. apply (updated_rows_state "0xABC" _ _ _ Hr).
    unfold order_is. rewrite Hrid. reflexivity. }
  intros c Hc. apply filter_In in Hc. destruct Hc as [_ Hc].
  apply negb_true_iff in Hc. apply String.eqb_neq. exact Hc.
Qed.

Lemma cancellation_of_0xABC_witness :
  OrderCanceled.orderId (inputs cancel_0xABC) = "0xABC"
  /\ OrderCanceled.orderType (inputs cancel_0xABC) = "0"
  /\ In (order_0xABC OPEN) (orders (store (world_with_order OPEN)))
  /\ Orders.orderId (order_0xABC OPEN) = "0xABC"
  /\ exists w1 w2 payload,
       processOrderCanceledLog Pool sample_augur cancel_0xABC (world_with_order OPEN)
       = Resolved tt w1
       /\ In (Orders.set_orderState CANCELED (order_0xABC OPEN)) (orders (store w1))
       /\ (forall r, In r (orders (store w1)) -> Orders.orderId r = "0xABC" ->
                     Orders.orderState r = CANCELED)
       /\ In (OrdersCanceled.mk "0xABC" (transactionHash cancel_0xABC)
                (logIndex cancel_0xABC) (blockNumber cancel_0xABC))
             (orders_canceled (store w1))
       /\ emitted (journal w1)
          = emitted (journal (world_with_order OPEN)) ++ [("OrderCanceled", payload)]
       /\ obj_get "orderType" payload = VStr "buy"
       /\ processOrderCanceledLogRemoval Pool sample_augur cancel_0xABC w1 = Resolved tt w2
       /\ In (Orders.set_orderState OPEN (order_0xABC OPEN)) (orders (store w2))
       /\ (forall r, In r (orders (store w2)) -> Orders.orderId r = "0xABC" ->
                     Orders.orderState r = OPEN)
       /\ (forall c, In c (orders_canceled (store w2)) ->
                     OrdersCanceled.orderId c <> "0xABC").
Proof.
  split; [reflexivity|]. split; [reflexivity|].
  split; [left; reflexivity|]. split; [reflexivity|].
  apply (cancellation_of_0xABC Pool sample_augur cancel_0xABC (world_with_order OPEN)
           (order_0xABC OPEN)).
  - reflexivity.
  - reflexivity.
  - left; reflexivity.
  - reflexivity.
Defined.

(** ** What is published *)

(** C6 (as stated) fails: for a complete-set purchase the Forward processor
    publishes the row it inserted and the Removal processor publishes the log;
    the first has a marketId and a numPurchasedOrSold field, the second has
    neither. *)
Lemma complete_set_payloads_differ :
  let e := CompleteSetsPurchasedOrSoldLog (purchase "0xT2" 3 1000) in
  let w1 := world_of (apply Pool sample_augur 7 e world_with_market) in
  let w2 := world_of (revert Pool sample_augur 7 e w1) in
  exists applied reverted,
    emitted (journal w1) = [("CompleteSetsPurchased", applied)]
    /\ emitted (journal w2) = [("CompleteSetsPurchased", applied);
                               ("CompleteSetsPurchased", reverted)]
    /\ Object_keys applied
       = ["marketId"; "account"; "blockNumber"; "universe"; "eventName";
          "transactionHash"; "logIndex"; "tradeGroupId"; "numCompleteSets";
          "numPurchasedOrSold"]
    /\ Object_keys reverted
       = ["blockNumber"; "transactionHash"; "logIndex"; "eventName"; "market";
          "account"; "numCompleteSets"; "tradeGroupId"; "universe"]
    /\ ~ same_shape applied reverted.
Proof.
  cbv zeta. do 2 eexists.
  split; [reflexivity|]. split; [reflexivity|].
  split; [reflexivity|]. split; [reflexivity|].
  intros H. destruct (H "marketId") as [H1 _].
  assert (Hin : In "marketId"
                  ["blockNumber"; "transactionHash"; "logIndex"; "eventName"; "market";
                   "account"; "numCompleteSets"; "tradeGroupId"; "universe"])
    by (apply H1; left; reflexivity).
  simpl in Hin. repeat (destruct Hin as [Hin|Hin]; [discriminate Hin|]). exact Hin.
Qed.

Lemma find_update_project {R A} (where_ : R -> bool) (set_ : R -> R) (f : R -> A)
    (l : list R) :
  (forall r, where_ (set_ r) = where_ r) ->
  (forall r, f (set_ r) = f r) ->
  option_map f (find where_ (map (fun r => if where_ r then set_ r else r) l))
  = option_map f (find where_ l).
Proof.
  intros Hw Hf. induction l as [|r l IH]; simpl; [reflexivity|].
  destruct (where_ r) eqn:E.
  - rewrite Hw, E. simpl. rewrite Hf. reflexivity.
  - rewrite E. exact IH.
Qed.

Lemma same_shape_refl p : same_shape p p.
Proof. intros k. reflexivity. Qed.

(** C6 (as amended): for the order-cancellation, initial-report and dispute
    crowdsourcer pairs, the Forward processor and the Removal processor run
    after it publish the same event name with the same payload, so with the
    same fields.  For the complete-set pair the event name is the same and
    the payloads are not: the Forward publishes the inserted row, the Removal
    the log. *)
Theorem payloads_of_a_pair db augur trx e w w1 :
  apply db augur trx e w = Resolved tt w1 ->
  exists w2 name applied reverted,
    revert db augur trx e w1 = Resolved tt w2
    /\ emitted (journal w1) = emitted (journal w) ++ [(name, applied)]
    /\ emitted (journal w2) = emitted (journal w1) ++ [(name, reverted)]
    /\ match e with
       | CompleteSetsPurchasedOrSoldLog log =>
           (exists m,
              find (market_is (CompleteSetsPurchasedOrSold.market (inputs log)))
                   (markets (store w)) = Some m
              /\ applied = CompleteSets.object (fill_of augur log m))
           /\ reverted = log_object log
       | _ => applied = reverted /\ same_shape applied reverted
       end.
Proof.
  intros H1. destruct e as [log|log|log|log|log|log]; cbn [apply revert] in *.
  - rewrite processOrderCanceledLog_run in H1. cbv zeta in H1. injection H1 as <-.
    rewrite processOrderCanceledLogRemoval_run. cbv zeta. project.
    do 4 eexists. split; [reflexivity|].
    split; [project; rewrite !emitted_app; reflexivity|].
    split; [project; rewrite !emitted_app; reflexivity|].
    assert (Hsame : forall x y : JsObject, x = y -> x = y /\ same_shape x y)
      by (intros x y ->; split; [reflexivity|apply same_shape_refl]).
    apply Hsame. f_equal.
    rewrite (update_update (order_is (OrderCanceled.orderId (inputs log))))
      by (intros r; destruct r; reflexivity).
    rewrite !(find_update_project (order_is (OrderCanceled.orderId (inputs log))));
      try reflexivity; intros r; destruct r; reflexivity.
  - rewrite processInitialReporterRedeemedLog_run in H1. cbv zeta in H1.
    injection H1 as <-.
    rewrite processInitialReporterRedeemedLogRemoval_run. cbv zeta. project.
    do 4 eexists. split; [reflexivity|].
    split; [project; rewrite !emitted_app; reflexivity|].
    split; [project; rewrite !emitted_app; reflexivity|].
    split; [reflexivity|apply same_shape_refl].
  - destruct (find (market_is (CompleteSetsPurchasedOrSold.market (inputs log)))
                (markets (store w))) as [m|] eqn:Hfind.
    + rewrite (processCompleteSetsPurchasedOrSoldLog_found _ _ _ _ _ Hfind) in H1.
      cbv zeta in H1. injection H1 as <-.
      rewrite processCompleteSetsPurchasedOrSoldLogRemoval_run. cbv zeta. project.
      do 4 eexists. split; [reflexivity|].
      split; [project; rewrite !emitted_app; reflexivity|].
      split; [project; rewrite !emitted_app; reflexivity|].
      split; [exists m; split; reflexivity | reflexivity].
    + rewrite (processCompleteSetsPurchasedOrSoldLog_missing _ _ _ _ Hfind) in H1.
      discriminate H1.
  - destruct (find (payout_of_log log) (payouts (store w))) as [p|] eqn:Hfind.
    + rewrite (processDisputeCrowdsourcerCreatedLog_found _ _ _ _ _ _ Hfind) in H1.
      cbv zeta in H1. injection H1 as <-.
      rewrite processDisputeCrowdsourcerCreatedLogRemoval_run. cbv zeta. project.
      do 4 eexists. split; [reflexivity|].
      split; [project; rewrite !emitted_app; reflexivity|].
      split; [project; rewrite !emitted_app; reflexivity|].
      split; [reflexivity|apply same_shape_refl].
    + rewrite (processDisputeCrowdsourcerCreatedLog_created _ _ _ _ _ Hfind) in H1.
      cbv zeta in H1. injection H1 as <-.
      rewrite processDisputeCrowdsourcerCreatedLogRemoval_run. cbv zeta. project.
      do 4 eexists. split; [reflexivity|].
      split; [project; rewrite !emitted_app; reflexivity|].
      split; [project; rewrite !emitted_app; reflexivity|].
      split; [reflexivity|apply same_shape_refl].
  - rewrite processDisputeCrowdsourcerContributionLog_run in H1. cbv zeta in H1.
    injection H1 as <-.
    rewrite processDisputeCrowdsourcerContributionLogRemoval_run. cbv zeta. project.
    do 4 eexists. split; [reflexivity|].
    split; [project; rewrite !emitted_app; reflexivity|].
    split; [project; rewrite !emitted_app; reflexivity|].
    split; [reflexivity|apply same_shape_refl].
  - rewrite processDisputeCrowdsourcerCompletedLog_run in H1. cbv zeta in H1.
    injection H1 as <-.
    rewrite processDisputeCrowdsourcerCompletedLogRemoval_run. cbv zeta. project.
    do 4 eexists. split; [reflexivity|].
    split; [project; rewrite !emitted_app; reflexivity|].
    split; [project; rewrite !emitted_app; reflexivity|].
    split; [reflexivity|apply same_shape_refl].
Qed.

Lemma payloads_of_a_pair_witness :
  let e := OrderCanceledLog cancel_0xABC in
  let w1 := world_of (apply Pool sample_augur 7 e (world_with_order OPEN)) in
  apply Pool sample_augur 7 e (world_with_order OPEN) = Resolved tt w1
  /\ exists w2 name applied reverted,
       revert Pool sample_augur 7 e w1 = Resolved tt w2
       /\ emitted (journal w1)
          = emitted (journal (world_with_order OPEN)) ++ [(name, applied)]
       /\ emitted (journal w2) = emitted (journal w1) ++ [(name, reverted)]
       /\ applied = reverted /\ same_shape applied reverted.
Proof.
  cbv zeta. split; [reflexivity|].
  apply (payloads_of_a_pair Pool sample_augur 7 (OrderCanceledLog cancel_0xABC)
           (world_with_order OPEN)).
  reflexivity.
Defined.

(** ** The payout set of a dispute crowdsourcer *)

Lemma payoutID_bound (l : list Payouts.row) p :
  In p l -> (Payouts.payoutID p <= fold_right Z.max 0 (map Payouts.payoutID l))%Z.
Proof.
  induction l as [|q l IH]; intros Hin; [destruct Hin|].
  simpl. destruct Hin as [->|Hin]; [lia|]. specialize (IH Hin). lia.
Qed.

Lemma next_payoutID_fresh s p :
  In p (payouts s) -> Payouts.payoutID p <> next_payoutID s.
Proof.
  intros Hin. unfold next_payoutID. pose proof (payoutID_bound _ _ Hin). lia.
Qed.

(** C7: a creation log whose (market, payoutNumerators, invalid) has no payout
    row yet adds exactly one payout row, under an id no other row has, and
    the crowdsourcer row it inserts references that id; a second creation log
    with the same three leaves the payouts as they are and its crowdsourcer
    row references the same id.  The payout statements and the crowdsourcer
    insert all run on the transaction the processor was given. *)
Theorem payout_is_found_or_created db augur trx log log' w :
  (forall p, In p (payouts (store w)) -> payout_of_log log p = false) ->
  DisputeCrowdsourcerCreated.market (inputs log')
    = DisputeCrowdsourcerCreated.market (inputs log) ->
  DisputeCrowdsourcerCreated.payoutNumerators (inputs log')
    = DisputeCrowdsourcerCreated.payoutNumerators (inputs log) ->
  DisputeCrowdsourcerCreated.invalid (inputs log')
    = DisputeCrowdsourcerCreated.invalid (inputs log) ->
  exists w1 w2 payoutID,
    processDisputeCrowdsourcerCreatedLog db augur trx log w = Resolved tt w1
    /\ payouts (store w1)
       = payouts (store w)
         ++ [Payouts.mk payoutID (DisputeCrowdsourcerCreated.market (inputs log))
               (DisputeCrowdsourcerCreated.payoutNumerators (inputs log))
               (DisputeCrowdsourcerCreated.invalid (inputs log))]
    /\ (forall p, In p (payouts (store w)) -> Payouts.payoutID p <> payoutID)
    /\ crowdsourcers (store w1)
       = crowdsourcers (store w) ++ [crowdsourcer_of log (Some payoutID)]
    /\ journal w1
       = journal w ++ [Ran (InTransaction trx) SELECT "payouts";
                       Ran (InTransaction trx) INSERT "payouts";
                       Ran (InTransaction trx) INSERT "crowdsourcers";
                       Emit "DisputeCrowdsourcerCreated" (log_object log)]
    /\ processDisputeCrowdsourcerCreatedLog db augur trx log' w1 = Resolved tt w2
    /\ payouts (store w2) = payouts (store w1)
    /\ crowdsourcers (store w2)
       = crowdsourcers (store w1) ++ [crowdsourcer_of log' (Some payoutID)]
    /\ journal w2
       = journal w1 ++ [Ran (InTransaction trx) SELECT "payouts";
                        Ran (InTransaction trx) INSERT "crowdsourcers";
                        Emit "DisputeCrowdsourcerCreated" (log_object log')].
Proof.
  intros Hnone Hmarket Hnumerators Hinvalid.
  pose proof (find_select_nothing _ _ Hnone) as Hfind.
  rewrite (processDisputeCrowdsourcerCreatedLog_created _ _ _ _ _ Hfind). cbv zeta.
  do 3 eexists. split; [reflexivity|]. project.
  split; [reflexivity|].
  split; [intros p Hp; apply next_payoutID_fresh; exact Hp|].
  split; [reflexivity|]. split; [reflexivity|].
  assert (Hfind' :
    find (payout_of_log log')
      (payouts (store w)
       ++ [Payouts.mk (next_payoutID (store w))
             (DisputeCrowdsourcerCreated.market (inputs log))
             (DisputeCrowdsourcerCreated.payoutNumerators (inputs log))
             (DisputeCrowdsourcerCreated.invalid (inputs log))])
    = Some (Payouts.mk (next_payoutID (store w))
              (DisputeCrowdsourcerCreated.market (inputs log))
              (DisputeCrowdsourcerCreated.payoutNumerators (inputs log))
              (DisputeCrowdsourcerCreated.invalid (inputs log)))).
  { unfold payout_of_log. rewrite Hmarket, Hnumerators, Hinvalid.
    apply find_inserted; [exact Hnone | apply payout_matches_own]. }
  erewrite processDisputeCrowdsourcerCreatedLog_found by (project; exact Hfind').
  cbv zeta. project.
  split; [reflexivity|]. project. repeat split.
Qed.

Lemma payout_is_found_or_created_witness :
  let log := crowdsourcer_created "0xMARKET" "0xCROWDSOURCER1" [0; 10000]%Z false 4 in
  let log' := crowdsourcer_created "0xMARKET" "0xCROWDSOURCER2" [0; 10000]%Z false 5 in
  let w := mkWorld (mkStore [] [] [] [] [] [] []
                      [Payouts.mk 1 "0xMARKET" [10000; 0]%Z false]) [] [] in
  (forall p, In p (payouts (store w)) -> payout_of_log log p = false)
  /\ exists w1 w2 payoutID,
       processDisputeCrowdsourcerCreatedLog Pool sample_augur 7 log w = Resolved tt w1
       /\ payouts (store w1)
          = payouts (store w) ++ [Payouts.mk payoutID "0xMARKET" [0; 10000]%Z false]
       /\ (forall p, In p (payouts (store w)) -> Payouts.payoutID p <> payoutID)
       /\ crowdsourcers (store w1)
          = crowdsourcers (store w) ++ [crowdsourcer_of log (Some payoutID)]
       /\ journal w1
          = journal w ++ [Ran (InTransaction 7) SELECT "payouts";
                          Ran (InTransaction 7) INSERT "payouts";
                          Ran (InTransaction 7) INSERT "crowdsourcers";
                          Emit "DisputeCrowdsourcerCreated" (log_object log)]
       /\ processDisputeCrowdsourcerCreatedLog Pool sample_augur 7 log' w1 = Resolved tt w2
       /\ payouts (store w2) = payouts (store w1)
       /\ crowdsourcers (store w2)
          = crowdsourcers (store w1) ++ [crowdsourcer_of log' (Some payoutID)]
       /\ journal w2
          = journal w1 ++ [Ran (InTransaction 7) SELECT "payouts";
                           Ran (InTransaction 7) INSERT "crowdsourcers";
                           Emit "DisputeCrowdsourcerCreated" (log_object log')].
Proof.
  cbv zeta.
  assert (Hnone : forall p,
            In p (payouts (store (mkWorld (mkStore [] [] [] [] [] [] []
                      [Payouts.mk 1 "0xMARKET" [10000; 0]%Z false]) [] []))) ->
            payout_of_log
              (crowdsourcer_created "0xMARKET" "0xCROWDSOURCER1" [0; 10000]%Z false 4) p
            = false).
  { intros p [<-|[]]. reflexivity. }
  split; [exact Hnone|].
  apply (payout_is_found_or_created Pool sample_augur 7
           (crowdsourcer_created "0xMARKET" "0xCROWDSOURCER1" [0; 10000]%Z false 4)
           (crowdsourcer_created "0xMARKET" "0xCROWDSOURCER2" [0; 10000]%Z false 5)
           _ Hnone); reflexivity.
Defined.

(** ** When the notification goes out *)


Lemma processCompleteSetsPurchasedOrSoldLogRemoval_with_updateOpenInterest :
  processCompleteSetsPurchasedOrSoldLogRemoval
  = processCompleteSetsPurchasedOrSoldLogRemoval_with updateOpenInterest.
Proof. reflexivity. Qed.




(** * Further properties *)

(** ** More on rows *)

Lemma update_absorbs {R} (where_ : R -> bool) (f g : R -> R) (l : list R) :
  (forall r, where_ (f r) = where_ r) ->
  (forall r, g (f r) = g r) ->
  map (fun r => if where_ r then g r else r)
      (map (fun r => if where_ r then f r else r) l)
  = map (fun r => if where_ r then g r else r) l.
Proof.
  intros Hw Hg. rewrite (update_update where_) by exact Hw.
  apply map_ext. intros r. destruct (where_ r); [apply Hg|reflexivity].
Qed.

(** ** order-canceled.ts: orders that are not there, and what is published *)

(** X1: cancelling an order the orders table does not hold changes no order,
    still inserts the cancellation record, and publishes the log as it is:
    the orderType of the notification is the raw code of the log, not a
    buy/sell label, and it carries no marketId, outcome or price. *)
Theorem cancellation_of_unknown_order db augur log w :
  (forall r, In r (orders (store w)) ->
             Orders.orderId r <> OrderCanceled.orderId (inputs log)) ->
  exists w1,
    processOrderCanceledLog db augur log w = Resolved tt w1
    /\ orders (store w1) = orders (store w)
    /\ orders_canceled (store w1)
       = orders_canceled (store w)
         ++ [OrdersCanceled.mk (OrderCanceled.orderId (inputs log))
               (transactionHash log) (logIndex log) (blockNumber log)]
    /\ emitted (journal w1) = emitted (journal w) ++ [("OrderCanceled", log_object log)]
    /\ obj_get "orderType" (log_object log) = VStr (OrderCanceled.orderType (inputs log))
    /\ obj_get "marketId" (log_object log) = VUndefined.
Proof.
  intros Hnone.
  assert (Hno : forall r, In r (orders (store w)) ->
            order_is (OrderCanceled.orderId (inputs log)) r = false).
  { intros r Hin. apply String.eqb_neq. apply Hnone. exact Hin. }
  rewrite processOrderCanceledLog_run. cbv zeta.
  rewrite (update_nothing (order_is (OrderCanceled.orderId (inputs log)))).
  2:{ intros r Hin Hr. rewrite (Hno r Hin) in Hr. discriminate. }
  pose proof (find_select_nothing (order_is (OrderCanceled.orderId (inputs log))) _ Hno)
    as Hfind.
  unfold order_is in Hfind. rewrite Hfind.
  eexists. split; [reflexivity|]. project.
  split; [reflexivity|]. split; [reflexivity|].
  split; [rewrite emitted_app; reflexivity|]. split; reflexivity.
Qed.

Lemma cancellation_of_unknown_order_witness :
  (forall r, In r (orders (store world_with_market)) ->
             Orders.orderId r <> OrderCanceled.orderId (inputs cancel_0xABC))
  /\ exists w1,
       processOrderCanceledLog Pool sample_augur cancel_0xABC world_with_market
       = Resolved tt w1
       /\ orders (store w1) = orders (store world_with_market)
       /\ orders_canceled (store w1)
          = orders_canceled (store world_with_market)
            ++ [OrdersCanceled.mk (OrderCanceled.orderId (inputs cancel_0xABC))
                  (transactionHash cancel_0xABC) (logIndex cancel_0xABC)
                  (blockNumber cancel_0xABC)]
       /\ emitted (journal w1)
          = emitted (journal world_with_market)
            ++ [("OrderCanceled", log_object cancel_0xABC)]
       /\ obj_get "orderType" (log_object cancel_0xABC)
          = VStr (OrderCanceled.orderType (inputs cancel_0xABC))
       /\ obj_get "marketId" (log_object cancel_0xABC) = VUndefined.
Proof.
  assert (Hnone : forall r, In r (orders (store world_with_market)) ->
            Orders.orderId r <> OrderCanceled.orderId (inputs cancel_0xABC)).
  { intros r []. }
  split; [exact Hnone|].
  apply (cancellation_of_unknown_order Pool sample_augur cancel_0xABC world_with_market
           Hnone).
Defined.

Ltac case_key k :=
  repeat match goal with
         | |- context [String.eqb k ?s] =>
             let E := fresh "E" in
             destruct (String.eqb k s) eqn:E; try reflexivity
         end.

(** X2: when the orders table holds the order, both processors publish the
    log enriched from the first row of that order: orderType is buy for the
    code 0 and sell for any other code, marketId, outcome and price are the
    row's, and every other field is the log's own. *)
Theorem cancellation_is_published_enriched db augur d log w row :
  find (order_is (OrderCanceled.orderId (inputs log))) (orders (store w)) = Some row ->
  exists w1 payload,
    process_cancellation db augur d log w = Resolved tt w1
    /\ emitted (journal w1) = emitted (journal w) ++ [("OrderCanceled", payload)]
    /\ obj_get "orderType" payload
       = VStr (if String.eqb (OrderCanceled.orderType (inputs log)) "0"
               then "buy" else "sell")
    /\ obj_get "marketId" payload = VStr (Orders.marketId row)
    /\ obj_get "outcome" payload = VNum (Orders.outcome row)
    /\ obj_get "price" payload = Orders.price row
    /\ forall k, ~ In k ["orderType"; "marketId"; "outcome"; "price"] ->
                 obj_get k payload = obj_get k (log_object log).
Proof.
  intros Hfind.
  assert (Hpayload : forall label,
    exists payload,
      Object_assign (log_object log)
        (option_map (fun r => obj_set "orderType" (VStr label)
                                (MarketIDAndOutcomeAndPrice r)) (Some row)) = payload
      /\ obj_get "orderType" payload = VStr label
      /\ obj_get "marketId" payload = VStr (Orders.marketId row)
      /\ obj_get "outcome" payload = VNum (Orders.outcome row)
      /\ obj_get "price" payload = Orders.price row
      /\ forall k, ~ In k ["orderType"; "marketId"; "outcome"; "price"] ->
                   obj_get k payload = obj_get k (log_object log)).
  { intros label. eexists. split; [reflexivity|]. repeat split.
    intros k Hk. cbn. case_key k; exfalso; apply Hk; simpl;
      repeat match goal with
             | H : String.eqb k _ = true |- _ => apply String.eqb_eq in H; subst k
             end; tauto. }
  destruct (Hpayload (if String.eqb (OrderCanceled.orderType (inputs log)) "0"
                      then "buy" else "sell")) as (payload & Hp & Hfields).
  exists (world_of (process_cancellation db augur d log w)), payload.
  destruct d; cbn [process_cancellation].
  - rewrite processOrderCanceledLog_run. cbv zeta. unfold world_of.
    split; [reflexivity|]. project. split; [|exact Hfields].
    rewrite emitted_app. cbn [emitted flat_map app]. do 3 f_equal.
    rewrite <- Hp. f_equal.
    rewrite (find_update_project (order_is (OrderCanceled.orderId (inputs log))));
      [rewrite Hfind; reflexivity | |]; intros r; destruct r; reflexivity.
  - rewrite processOrderCanceledLogRemoval_run. cbv zeta. unfold world_of.
    split; [reflexivity|]. project. split; [|exact Hfields].
    rewrite emitted_app. cbn [emitted flat_map app]. do 3 f_equal.
    rewrite <- Hp. f_equal.
    rewrite (find_update_project (order_is (OrderCanceled.orderId (inputs log))));
      [rewrite Hfind; reflexivity | |]; intros r; destruct r; reflexivity.
Qed.

Lemma cancellation_is_published_enriched_witness :
  find (order_is (OrderCanceled.orderId (inputs cancel_0xABC)))
       (orders (store (world_with_order FILLED))) = Some (order_0xABC FILLED)
  /\ exists w1 payload,
       process_cancellation Pool sample_augur Removal cancel_0xABC (world_with_order FILLED)
       = Resolved tt w1
       /\ emitted (journal w1)
          = emitted (journal (world_with_order FILLED)) ++ [("OrderCanceled", payload)]
       /\ obj_get "orderType" payload = VStr "buy"
       /\ obj_get "marketId" payload = VStr "0xMARKET"
       /\ obj_get "outcome" payload = VNum 1
       /\ obj_get "price" payload = VStr "0.5"
       /\ forall k, ~ In k ["orderType"; "marketId"; "outcome"; "price"] ->
                    obj_get k payload = obj_get k (log_object cancel_0xABC).
Proof.
  split; [reflexivity|].
  apply (cancellation_is_published_enriched Pool sample_augur Removal cancel_0xABC
           (world_with_order FILLED) (order_0xABC FILLED)).
  reflexivity.
Defined.

(** ** order-canceled.ts: the Removal of a cancellation absorbs earlier ones *)

(** X3: the Removal of a cancellation log undoes every cancellation of its
    order, not only its own: run after the Forward of any log of the same
    order, it leaves the store it would have left without that Forward.  (So
    after two cancellations of an order and the Removal of one, no
    cancellation is on record and the order is OPEN.) *)
Theorem cancellation_removal_absorbs db augur log log' w :
  OrderCanceled.orderId (inputs log') = OrderCanceled.orderId (inputs log) ->
  store_after (processOrderCanceledLogRemoval db augur log)
    (world_of (processOrderCanceledLog db augur log' w))
  = store_after (processOrderCanceledLogRemoval db augur log) w.
Proof.
  intros Hid. unfold store_after.
  rewrite processOrderCanceledLog_run. cbv zeta. unfold world_of at 2.
  rewrite !processOrderCanceledLogRemoval_run. cbv zeta. unfold world_of. project.
  rewrite Hid.
  rewrite (update_absorbs (order_is (OrderCanceled.orderId (inputs log))))
    by (intros r; destruct r; reflexivity).
  rewrite filter_app. cbn [filter OrdersCanceled.orderId].
  rewrite String.eqb_refl. cbn [negb]. rewrite app_nil_r. reflexivity.
Qed.

Lemma cancellation_removal_absorbs_witness :
  let second := mkLog 105 "0xT9" 2 "OrderCanceled" (OrderCanceled.mk "0xABC" "1") in
  let twice := world_of (processOrderCanceledLog Pool sample_augur second
                 (world_of (processOrderCanceledLog Pool sample_augur cancel_0xABC
                              (world_with_order OPEN)))) in
  store_after (processOrderCanceledLogRemoval Pool sample_augur cancel_0xABC) twice
  = store (world_with_order OPEN)
  /\ store_after (processOrderCanceledLogRemoval Pool sample_augur cancel_0xABC) twice
     = store_after (processOrderCanceledLogRemoval Pool sample_augur cancel_0xABC)
         (world_of (processOrderCanceledLog Pool sample_augur cancel_0xABC
                      (world_with_order OPEN))).
Proof.
  cbv zeta. split; [reflexivity|].
  apply (cancellation_removal_absorbs Pool sample_augur cancel_0xABC
           (mkLog 105 "0xT9" 2 "OrderCanceled" (OrderCanceled.mk "0xABC" "1"))).
  reflexivity.
Defined.

(** ** Flags: the last write wins *)

Lemma last_direction_ext {L} (f g : L -> bool) (steps : list (Direction * L)) :
  (forall log, f log = g log) -> last_direction f steps = last_direction g steps.
Proof.
  intros Hfg. induction steps as [|[d log] steps IH]; simpl; [reflexivity|].
  rewrite IH, Hfg. reflexivity.
Qed.

(** Rows that are written by one log after the other end up as the last log
    that names them wrote them. *)
Lemma last_write_wins {R L} (names : L -> R -> bool) (write : Direction -> R -> R)
    (steps : list (Direction * L)) :
  (forall log d r, names log (write d r) = names log r) ->
  (forall d d' r, write d (write d' r) = write d r) ->
  forall rows,
    fold_left (fun rows step =>
                 map (fun r => if names (snd step) r then write (fst step) r else r) rows)
              steps rows
    = map (fun r => match last_direction (fun log => names log r) steps with
                    | Some d => write d r
                    | None => r
                    end) rows.
Proof.
  intros Hnames Hwrite.
  induction steps as [|[d log] steps IH]; intros rows; simpl.
  - symmetry. apply map_id.
  - rewrite IH, map_map. apply map_ext. intros r.
    assert (Hsame : last_direction
                      (fun log0 => names log0 (if names log r then write d r else r)) steps
                    = last_direction (fun log0 => names log0 r) steps).
    { apply last_direction_ext. intros log0.
      destruct (names log r); [apply Hnames | reflexivity]. }
    rewrite Hsame.
    destruct (last_direction (fun log0 => names log0 r) steps) as [d'|].
    + destruct (names log r); [apply Hwrite | reflexivity].
    + destruct (names log r); reflexivity.
Qed.

Lemma redemptions_run db augur steps : forall w,
  store (redemptions db augur steps w)
  = with_rows initial_reports_t
      (fold_left
         (fun rows step =>
            map (fun r =>
                   if report_of (InitialReporterRedeemed.market (inputs (snd step))) r
                   then InitialReports.set_redeemed
                          (match fst step with Forward => true | Removal => false end) r
                   else r) rows)
         steps (initial_reports (store w)))
      (store w).
Proof.
  induction steps as [|[d log] steps IH]; intros w; cbn [redemptions fold_left].
  - cbn [with_rows initial_reports_t]. symmetry. apply store_eta.
  - rewrite IH. cbn [fst snd].
    destruct d; cbn [process_redemption];
      rewrite ?processInitialReporterRedeemedLog_run,
              ?processInitialReporterRedeemedLogRemoval_run;
      cbv zeta; unfold world_of; project; reflexivity.
Qed.

(** X4: after any sequence of initial-report redemption logs, Forward and
    Removal, the redeemed flag of an initial report is true when the last
    log for its market was a Forward and false when it was a Removal,
    whatever the flag was before and whatever came earlier; a report whose
    market no log names is as it was, and so is every other table. *)
Theorem redemption_is_last_write db augur steps w :
  store (redemptions db augur steps w)
  = with_rows initial_reports_t
      (map (fun r =>
              match last_direction
                      (fun log => report_of (InitialReporterRedeemed.market (inputs log)) r)
                      steps with
              | Some Forward => InitialReports.set_redeemed true r
              | Some Removal => InitialReports.set_redeemed false r
              | None => r
              end) (initial_reports (store w)))
      (store w).
Proof.
  rewrite redemptions_run. f_equal.
  rewrite (last_write_wins
             (fun log r => report_of (InitialReporterRedeemed.market (inputs log)) r)
             (fun d => InitialReports.set_redeemed
                         (match d with Forward => true | Removal => false end))).
  - apply map_ext. intros r.
    destruct (last_direction _ steps) as [[|]|]; reflexivity.
  - intros log d r. destruct r; reflexivity.
  - intros d d' r. destruct r; reflexivity.
Qed.

Lemma redemption_is_last_write_witness :
  let log := fun marketId => mkLog 102 "0xT3" 1 "InitialReporterRedeemed"
                               (InitialReporterRedeemed.mk marketId) in
  let w := mkWorld (mkStore [] [] [InitialReports.mk "0xMARKET" false;
                                   InitialReports.mk "0xOTHER" true;
                                   InitialReports.mk "0xTHIRD" true] [] [] [] [] [])
                   [] [] in
  let steps := [(Forward, log "0xMARKET"); (Forward, log "0xOTHER");
                (Removal, log "0xMARKET"); (Removal, log "0xOTHER");
                (Forward, log "0xMARKET")] in
  map InitialReports.redeemed (initial_reports (store (redemptions Pool sample_augur steps w)))
  = [true; false; true].
Proof.
  cbv zeta. rewrite redemption_is_last_write. reflexivity.
Defined.

Lemma completions_run db augur trx steps : forall w,
  store (completions db augur trx steps w)
  = with_rows crowdsourcers_t
      (fold_left
         (fun rows step =>
            map (fun c =>
                   if crowdsourcer_is
                        (DisputeCrowdsourcerCompleted.disputeCrowdsourcer (inputs (snd step))) c
                   then Crowdsourcers.set_completed
                          (match fst step with Forward => 1%Z | Removal => 0%Z end) c
                   else c) rows)
         steps (crowdsourcers (store w)))
      (store w).
Proof.
  induction steps as [|[d log] steps IH]; intros w; cbn [completions fold_left].
  - cbn [with_rows crowdsourcers_t]. symmetry. apply store_eta.
  - rewrite IH. cbn [fst snd].
    destruct d; cbn [process_completion];
      rewrite ?processDisputeCrowdsourcerCompletedLog_run,
              ?processDisputeCrowdsourcerCompletedLogRemoval_run;
      cbv zeta; unfold world_of; project; reflexivity.
Qed.

(** X5: after any sequence of crowdsourcer completion logs, Forward and
    Removal, the completed flag of a crowdsourcer is 1 when the last log for
    it was a Forward and 0 when it was a Removal, whatever the flag was
    before (NULL included) and whatever came earlier; a crowdsourcer that no
    log names is as it was, and so is every other table. *)
Theorem completion_is_last_write db augur trx steps w :
  store (completions db augur trx steps w)
  = with_rows crowdsourcers_t
      (map (fun c =>
              match last_direction
                      (fun log => crowdsourcer_is
                                    (DisputeCrowdsourcerCompleted.disputeCrowdsourcer
                                       (inputs log)) c)
                      steps with
              | Some Forward => Crowdsourcers.set_completed 1 c
              | Some Removal => Crowdsourcers.set_completed 0 c
              | None => c
              end) (crowdsourcers (store w)))
      (store w).
Proof.
  rewrite completions_run. f_equal.
  rewrite (last_write_wins
             (fun log c => crowdsourcer_is
                             (DisputeCrowdsourcerCompleted.disputeCrowdsourcer (inputs log)) c)
             (fun d => Crowdsourcers.set_completed
                         (match d with Forward => 1%Z | Removal => 0%Z end))).
  - apply map_ext. intros c.
    destruct (last_direction _ steps) as [[|]|]; reflexivity.
  - intros log d c. destruct c; reflexivity.
  - intros d d' c. destruct c; reflexivity.
Qed.

Lemma completion_is_last_write_witness :
  let created := fun (id : string) (index : Z) =>
    DisputeCrowdsourcerCreatedLog
      (crowdsourcer_created "0xMARKET" id [0; 10000]%Z false index) in
  let w := world_of (apply Pool sample_augur 7 (created "0xCROWDSOURCER2" 5%Z)
             (world_of (apply Pool sample_augur 7 (created "0xCROWDSOURCER1" 4%Z)
                          world_with_market))) in
  let steps := [(Forward, crowdsourcer_completed "0xCROWDSOURCER1");
                (Removal, crowdsourcer_completed "0xCROWDSOURCER1")] in
  map Crowdsourcers.completed (crowdsourcers (store w)) = [None; None]
  /\ map Crowdsourcers.completed
       (crowdsourcers (store (completions Pool sample_augur 7 steps w)))
     = [Some 0%Z; None].
Proof.
  cbv zeta. split; [reflexivity|].
  rewrite completion_is_last_write. reflexivity.
Defined.

(** ** Dispute contributions: removal in any order *)

(** X6: a contribution is removed by its own (transactionHash, logIndex)
    alone, so an older contribution can be removed while a newer one stays:
    the store is then the one the newer contribution alone would have left. *)
Theorem older_contribution_can_be_removed db augur trx older newer w :
  dispute_of_log older (dispute_of newer) = false ->
  (forall d, In d (disputes (store w)) -> dispute_of_log older d = false) ->
  store_after (processDisputeCrowdsourcerContributionLogRemoval db augur trx older)
    (world_of (processDisputeCrowdsourcerContributionLog db augur trx newer
       (world_of (processDisputeCrowdsourcerContributionLog db augur trx older w))))
  = store_after (processDisputeCrowdsourcerContributionLog db augur trx newer) w.
Proof.
  intros Hother Hnone. unfold store_after.
  rewrite !processDisputeCrowdsourcerContributionLog_run. cbv zeta.
  unfold world_of. project.
  rewrite ?processDisputeCrowdsourcerContributionLog_run. cbv zeta. project.
  rewrite processDisputeCrowdsourcerContributionLogRemoval_run. cbv zeta. project.
  rewrite filter_app. cbn [filter]. rewrite Hother. cbn [negb].
  rewrite (insert_then_delete (dispute_of_log older));
    [reflexivity | exact Hnone | apply dispute_of_log_dispute_of].
Qed.

Lemma older_contribution_can_be_removed_witness :
  let older := contribution "0xT5" "0xREPORTER" "0xCROWDSOURCER1" 0 10 in
  let newer := contribution "0xT5" "0xREPORTER" "0xCROWDSOURCER1" 1 20 in
  dispute_of_log older (dispute_of newer) = false
  /\ (forall d, In d (disputes (store world_with_market)) ->
                dispute_of_log older d = false)
  /\ store_after (processDisputeCrowdsourcerContributionLogRemoval Pool sample_augur 7 older)
       (world_of (processDisputeCrowdsourcerContributionLog Pool sample_augur 7 newer
          (world_of (processDisputeCrowdsourcerContributionLog Pool sample_augur 7 older
                       world_with_market))))
     = store_after (processDisputeCrowdsourcerContributionLog Pool sample_augur 7 newer)
         world_with_market.
Proof.
  cbv zeta.
  assert (Hnone : forall d, In d (disputes (store world_with_market)) ->
            dispute_of_log (contribution "0xT5" "0xREPORTER" "0xCROWDSOURCER1" 0 10) d
            = false).
  { intros d []. }
  split; [reflexivity|]. split; [exact Hnone|].
  apply (older_contribution_can_be_removed Pool sample_augur 7
           (contribution "0xT5" "0xREPORTER" "0xCROWDSOURCER1" 0 10)
           (contribution "0xT5" "0xREPORTER" "0xCROWDSOURCER1" 1 20)
           world_with_market); [reflexivity | exact Hnone].
Defined.

(** ** Crowdsourcer creation when the payout cannot be had *)

Lemma processDisputeCrowdsourcerCreatedLog_with_insertPayout :
  processDisputeCrowdsourcerCreatedLog
  = processDisputeCrowdsourcerCreatedLog_with insertPayout.
Proof. reflexivity. Qed.

(** X7: the creation processor does not look at the error [insertPayout]
    calls back with: when the payout lookup fails, the crowdsourcer row is
    inserted all the same, with no payoutID, the notification is published
    and the processor reports success. *)
Theorem payout_error_is_not_looked_at insertPayout_ db augur trx log w err w0 :
  insertPayout_ db trx
    (DisputeCrowdsourcerCreated.market (inputs log))
    (DisputeCrowdsourcerCreated.payoutNumerators (inputs log))
    (DisputeCrowdsourcerCreated.invalid (inputs log)) w = Rejected err w0 ->
  exists w1,
    processDisputeCrowdsourcerCreatedLog_with insertPayout_ db augur trx log w
    = Resolved tt w1
    /\ crowdsourcers (store w1) = crowdsourcers (store w0) ++ [crowdsourcer_of log None]
    /\ Crowdsourcers.payoutID (crowdsourcer_of log None) = None
    /\ journal w1
       = journal w0 ++ [Ran (InTransaction trx) INSERT "crowdsourcers";
                        Emit "DisputeCrowdsourcerCreated" (log_object log)].
Proof.
  intros Hfail. unfold processDisputeCrowdsourcerCreatedLog_with, bind, asCallback.
  rewrite Hfail. statements. simpl.
  eexists. split; [reflexivity|]. project.
  rewrite <- app_assoc. repeat split.
Qed.

Lemma payout_error_is_not_looked_at_witness :
  let log := crowdsourcer_created "0xMARKET" "0xCROWDSOURCER1" [0; 10000]%Z false 4 in
  let err := new_Error "SQLITE_BUSY" in
  failing_insertPayout err Pool 7 "0xMARKET" [0; 10000]%Z false world_with_market
  = Rejected err world_with_market
  /\ exists w1,
       processDisputeCrowdsourcerCreatedLog_with (failing_insertPayout err)
         Pool sample_augur 7 log world_with_market = Resolved tt w1
       /\ crowdsourcers (store w1)
          = crowdsourcers (store world_with_market) ++ [crowdsourcer_of log None]
       /\ Crowdsourcers.payoutID (crowdsourcer_of log None) = None
       /\ journal w1
          = journal world_with_market
            ++ [Ran (InTransaction 7) INSERT "crowdsourcers";
                Emit "DisputeCrowdsourcerCreated" (log_object log)].
Proof.
  cbv zeta. split; [reflexivity|].
  apply (payout_error_is_not_looked_at (failing_insertPayout (new_Error "SQLITE_BUSY"))
           Pool sample_augur 7
           (crowdsourcer_created "0xMARKET" "0xCROWDSOURCER1" [0; 10000]%Z false 4)
           world_with_market (new_Error "SQLITE_BUSY") world_with_market).
  reflexivity.
Defined.

(** ** No statement outside the handle a processor is given *)

(** X8: the dispute crowdsourcer processors run every one of their statements
    on the transaction they are given, never on [db] itself, and the
    order-cancellation and initial-report processors and the complete-set
    Forward processor run every one of theirs on the handle they are given. *)
Theorem statements_stay_on_the_handle db augur trx :
  (forall log, runs_on db (processCompleteSetsPurchasedOrSoldLog db augur log))
  /\ (forall log, runs_on db (processOrderCanceledLog db augur log))
  /\ (forall log, runs_on db (processOrderCanceledLogRemoval db augur log))
  /\ (forall log, runs_on db (processInitialReporterRedeemedLog db augur log))
  /\ (forall log, runs_on db (processInitialReporterRedeemedLogRemoval db augur log))
  /\ (forall log, runs_on (InTransaction trx)
                    (processDisputeCrowdsourcerCreatedLogRemoval db augur trx log))
  /\ (forall log, runs_on (InTransaction trx)
                    (processDisputeCrowdsourcerContributionLog db augur trx log))
  /\ (forall log, runs_on (InTransaction trx)
                    (processDisputeCrowdsourcerContributionLogRemoval db augur trx log))
  /\ (forall log, runs_on (InTransaction trx)
                    (processDisputeCrowdsourcerCompletedLog db augur trx log))
  /\ (forall log, runs_on (InTransaction trx)
                    (processDisputeCrowdsourcerCompletedLogRemoval db augur trx log)).
Proof.
  repeat split; intros log.
  - intros w.
    destruct (find (market_is (CompleteSetsPurchasedOrSold.market (inputs log)))
                (markets (store w))) as [m|] eqn:Hfind.
    + rewrite (processCompleteSetsPurchasedOrSoldLog_found _ _ _ _ _ Hfind). cbv zeta.
      eexists. split; [unfold world_of; project; reflexivity|].
      intros on stmt table Hin. simpl in Hin.
      repeat (destruct Hin as [Hin|Hin]; [congruence|]). destruct Hin.
    + rewrite (processCompleteSetsPurchasedOrSoldLog_missing _ _ _ _ Hfind).
      eexists. split; [unfold world_of; project; reflexivity|].
      intros on stmt table Hin. simpl in Hin.
      repeat (destruct Hin as [Hin|Hin]; [congruence|]). destruct Hin.
  - intros w. rewrite processOrderCanceledLog_run. cbv zeta. eexists.
    split; [unfold world_of; project; reflexivity|].
    intros on stmt table Hin. simpl in Hin.
    repeat (destruct Hin as [Hin|Hin]; [congruence|]). destruct Hin.
  - intros w. rewrite processOrderCanceledLogRemoval_run. cbv zeta. eexists.
    split; [unfold world_of; project; reflexivity|].
    intros on stmt table Hin. simpl in Hin.
    repeat (destruct Hin as [Hin|Hin]; [congruence|]). destruct Hin.
  - intros w. rewrite processInitialReporterRedeemedLog_run. cbv zeta. eexists.
    split; [unfold world_of; project; reflexivity|].
    intros on stmt table Hin. simpl in Hin.
    repeat (destruct Hin as [Hin|Hin]; [congruence|]). destruct Hin.
  - intros w. rewrite processInitialReporterRedeemedLogRemoval_run. cbv zeta. eexists.
    split; [unfold world_of; project; reflexivity|].
    intros on stmt table Hin. simpl in Hin.
    repeat (destruct Hin as [Hin|Hin]; [congruence|]). destruct Hin.
  - intros w. rewrite processDisputeCrowdsourcerCreatedLogRemoval_run. cbv zeta. eexists.
    split; [unfold world_of; project; reflexivity|].
    intros on stmt table Hin. simpl in Hin.
    repeat (destruct Hin as [Hin|Hin]; [congruence|]). destruct Hin.
  - intros w. rewrite processDisputeCrowdsourcerContributionLog_run. cbv zeta. eexists.
    split; [unfold world_of; project; reflexivity|].
    intros on stmt table Hin. simpl in Hin.
    repeat (destruct Hin as [Hin|Hin]; [congruence|]). destruct Hin.
  - intros w. rewrite processDisputeCrowdsourcerContributionLogRemoval_run. cbv zeta.
    eexists. split; [unfold world_of; project; reflexivity|].
    intros on stmt table Hin. simpl in Hin.
    repeat (destruct Hin as [Hin|Hin]; [congruence|]). destruct Hin.
  - intros w. rewrite processDisputeCrowdsourcerCompletedLog_run. cbv zeta. eexists.
    split; [unfold world_of; project; reflexivity|].
    intros on stmt table Hin. simpl in Hin.
    repeat (destruct Hin as [Hin|Hin]; [congruence|]). destruct Hin.
  - intros w. rewrite processDisputeCrowdsourcerCompletedLogRemoval_run. cbv zeta.
    eexists. split; [unfold world_of; project; reflexivity|].
    intros on stmt table Hin. simpl in Hin.
    repeat (destruct Hin as [Hin|Hin]; [congruence|]). destruct Hin.
Qed.

(** ** Complete-set fills: what is stored, and logs that were never applied *)

(** X9: what the Forward processor of a complete-set log publishes is the
    row it stored, field for field; that row is appended to the fills, it
    carries the identity of the log (so that the Removal of the log finds
    it), the market of the log, and the same converted amount as
    numCompleteSets and as numPurchasedOrSold; no other table is written
    before the processor resolves. *)
Theorem fill_is_published_as_stored db augur log w w1 :
  processCompleteSetsPurchasedOrSoldLog db augur log w = Resolved tt w1 ->
  exists row,
    completeSets (store w1) = completeSets (store w) ++ [row]
    /\ emitted (journal w1)
       = emitted (journal w) ++ [(eventName log, CompleteSets.object row)]
    /\ fill_of_log log row = true
    /\ CompleteSets.marketId row = CompleteSetsPurchasedOrSold.market (inputs log)
    /\ CompleteSets.numPurchasedOrSold row = CompleteSets.numCompleteSets row
    /\ store w1
       = mkStore (orders (store w)) (orders_canceled (store w)) (initial_reports (store w))
           (markets (store w)) (completeSets (store w) ++ [row])
           (crowdsourcers (store w)) (disputes (store w)) (payouts (store w)).
Proof.
  intros H1.
  destruct (find (market_is (CompleteSetsPurchasedOrSold.market (inputs log)))
              (markets (store w))) as [m|] eqn:Hfind.
  - rewrite (processCompleteSetsPurchasedOrSoldLog_found _ _ _ _ _ Hfind) in H1.
    cbv zeta in H1. injection H1 as <-. exists (fill_of augur log m). project.
    split; [reflexivity|]. split; [rewrite emitted_app; reflexivity|].
    split; [apply fill_of_log_fill_of|]. repeat split.
  - rewrite (processCompleteSetsPurchasedOrSoldLog_missing _ _ _ _ Hfind) in H1.
    discriminate H1.
Qed.

Lemma fill_is_published_as_stored_witness :
  let w1 := world_of (processCompleteSetsPurchasedOrSoldLog Pool sample_augur
                        (purchase "0xT2" 3 1000) world_with_market) in
  processCompleteSetsPurchasedOrSoldLog Pool sample_augur (purchase "0xT2" 3 1000)
    world_with_market = Resolved tt w1
  /\ exists row,
       completeSets (store w1) = completeSets (store world_with_market) ++ [row]
       /\ emitted (journal w1)
          = emitted (journal world_with_market)
            ++ [(eventName (purchase "0xT2" 3 1000), CompleteSets.object row)]
       /\ fill_of_log (purchase "0xT2" 3 1000) row = true
       /\ CompleteSets.marketId row = "0xMARKET"
       /\ CompleteSets.numPurchasedOrSold row = CompleteSets.numCompleteSets row
       /\ store w1
          = mkStore [] [] [] [sample_market 0] ([] ++ [row]) [] [] [].
Proof.
  cbv zeta. split; [reflexivity|].
  apply (fill_is_published_as_stored Pool sample_augur (purchase "0xT2" 3 1000)
           world_with_market).
  reflexivity.
Defined.

(** X10: the Removal of a complete-set log that has no fill on record (it was
    never applied, or was removed already) deletes nothing and is not an
    error: the processor resolves and still publishes the notification of
    the log. *)
Theorem removal_of_unknown_fill db augur log w :
  (forall r, In r (completeSets (store w)) -> fill_of_log log r = false) ->
  exists w1,
    processCompleteSetsPurchasedOrSoldLogRemoval db augur log w = Resolved tt w1
    /\ completeSets (store w1) = completeSets (store w)
    /\ emitted (journal w1) = emitted (journal w) ++ [(eventName log, log_object log)].
Proof.
  intros Hnone.
  rewrite processCompleteSetsPurchasedOrSoldLogRemoval_run. cbv zeta.
  eexists. split; [reflexivity|]. unfold recomputed. project.
  split; [apply (delete_nothing (fill_of_log log)); exact Hnone|].
  rewrite emitted_app. reflexivity.
Qed.

Lemma removal_of_unknown_fill_witness :
  (forall r, In r (completeSets (store world_with_market)) ->
             fill_of_log (purchase "0xT2" 3 1000) r = false)
  /\ exists w1,
       processCompleteSetsPurchasedOrSoldLogRemoval Pool sample_augur
         (purchase "0xT2" 3 1000) world_with_market = Resolved tt w1
       /\ completeSets (store w1) = completeSets (store world_with_market)
       /\ emitted (journal w1)
          = emitted (journal world_with_market)
            ++ [(eventName (purchase "0xT2" 3 1000), log_object (purchase "0xT2" 3 1000))].
Proof.
  assert (Hnone : forall r, In r (completeSets (store world_with_market)) ->
            fill_of_log (purchase "0xT2" 3 1000) r = false).
  { intros r []. }
  split; [exact Hnone|].
  apply (removal_of_unknown_fill Pool sample_augur (purchase "0xT2" 3 1000)
           world_with_market Hnone).
Defined.

(** ** monitor-ethereum-node-health.ts: when the monitor speaks and stops *)

Lemma strict_neq_string_false v s :
  strict_neq_string v s = false <-> v = VStr s.
Proof.
  split.
  - destruct v; simpl; try discriminate. intros H. apply negb_false_iff in H.
    apply String.eqb_eq in H. congruence.
  - intros ->. simpl. rewrite String.eqb_refl. reflexivity.
Qed.

Lemma unhealthy_clears_first controller errorCallback err universeController :
  ~ healthy controller err universeController ->
  In ClearInterval (getControllerCallback controller errorCallback err universeController).
Proof.
  intros Hun. unfold getControllerCallback.
  destruct err as [e|]; [left; reflexivity|].
  destruct (strict_neq_string universeController controller) eqn:E; [left; reflexivity|].
  exfalso. apply Hun. split; [reflexivity|]. apply strict_neq_string_false. exact E.
Qed.

(** X11: the callback of a tick does nothing at all exactly when the node
    answers, without error, with the configured controller; in every other
    case it first clears the interval, and it calls the error callback (when
    one was given) once for the error and once for the mismatch, so one or
    two times. *)
Theorem monitor_is_silent_iff_healthy controller errorCallback err universeController :
  (getControllerCallback controller errorCallback err universeController = []
   <-> healthy controller err universeController)
  /\ (~ healthy controller err universeController ->
      exists rest,
        getControllerCallback controller errorCallback err universeController
        = ClearInterval :: rest
        /\ (1 <= length (errorCallback_calls
                    (getControllerCallback controller true err universeController)) <= 2)%nat
        /\ errorCallback_calls
             (getControllerCallback controller false err universeController) = []).
Proof.
  unfold healthy, getControllerCallback. split.
  - split.
    + destruct err as [e|]; [discriminate|].
      destruct (strict_neq_string universeController controller) eqn:E;
        [discriminate|]. intros _. split; [reflexivity|].
      apply strict_neq_string_false. exact E.
    + intros [-> ->]. simpl. rewrite String.eqb_refl. reflexivity.
  - intros Hun.
    destruct err as [e|].
    + eexists. split; [reflexivity|].
      destruct (strict_neq_string universeController controller); simpl;
        repeat split; lia.
    + destruct (strict_neq_string universeController controller) eqn:E.
      * eexists. split; [reflexivity|]. simpl. repeat split; lia.
      * exfalso. apply Hun. split; [reflexivity|].
        apply strict_neq_string_false. exact E.
Qed.

Lemma monitor_is_silent_iff_healthy_witness :
  (getControllerCallback "0xCONTROLLER" true None (VStr "0xOTHER") = []
   <-> healthy "0xCONTROLLER" None (VStr "0xOTHER"))
  /\ (~ healthy "0xCONTROLLER" None (VStr "0xOTHER") ->
      exists rest,
        getControllerCallback "0xCONTROLLER" true None (VStr "0xOTHER")
        = ClearInterval :: rest
        /\ (1 <= length (errorCallback_calls
                    (getControllerCallback "0xCONTROLLER" true None (VStr "0xOTHER")))
            <= 2)%nat
        /\ errorCallback_calls
             (getControllerCallback "0xCONTROLLER" false None (VStr "0xOTHER")) = []).
Proof.
  exact (monitor_is_silent_iff_healthy "0xCONTROLLER" true None (VStr "0xOTHER")).
Defined.

Lemma clearInterval_current t :
  one_interval t ->
  intervals (clearInterval (monitorEthereumNodeHealthId t) t) = []
  /\ one_interval (clearInterval (monitorEthereumNodeHealthId t) t).
Proof.
  intros H. pose proof H as (Hcur & Hlen & Hid).
  destruct (monitorEthereumNodeHealthId t) as [id|] eqn:E.
  - assert (Hnil : filter (fun i => negb (Nat.eqb (interval_id i) id)) (intervals t) = []).
    { destruct (intervals t) as [|i [|i' l]]; simpl in *; [reflexivity| |lia].
      assert (Hi : Some id = Some (interval_id i)) by (apply Hcur; auto).
      injection Hi as ->. rewrite Nat.eqb_refl. reflexivity. }
    split; [exact Hnil|].
    unfold one_interval, clearInterval.
    cbn [monitorEthereumNodeHealthId intervals timers_created].
    rewrite Hnil. repeat split.
    + intros i [].
    + simpl; lia.
    + intros id' Hid'. rewrite E in Hid'. exact (Hid _ Hid').
  - assert (Hnil : intervals t = []).
    { destruct (intervals t) as [|i l]; [reflexivity|].
      specialize (Hcur i (or_introl eq_refl)). discriminate. }
    split; [exact Hnil | exact H].
Qed.

Lemma health_effect_keeps t e : one_interval t -> one_interval (health_effect t e).
Proof.
  intros H. destruct e; simpl.
  - apply clearInterval_current. exact H.
  - exact H.
Qed.

Lemma health_effects_keep effects : forall t,
  one_interval t -> one_interval (fold_left health_effect effects t).
Proof.
  induction effects as [|e effects IH]; intros t H; simpl; [exact H|].
  apply IH. apply health_effect_keeps. exact H.
Qed.

Lemma monitorEthereumNodeHealth_keeps augur errorCallback t :
  one_interval t -> one_interval (monitorEthereumNodeHealth augur errorCallback t).
Proof.
  intros H. destruct (clearInterval_current t H) as [Hnil (Hcur & Hlen & Hid)].
  unfold monitorEthereumNodeHealth.
  destruct (monitorEthereumNodeHealthId t) as [id|] eqn:E.
  - cbv zeta. unfold one_interval. cbn [monitorEthereumNodeHealthId intervals timers_created].
    rewrite Hnil. simpl. repeat split.
    + intros i [<-|[]]. reflexivity.
    + lia.
    + intros id' Hid'. injection Hid' as <-. lia.
  - cbv zeta. unfold one_interval. cbn [monitorEthereumNodeHealthId intervals timers_created].
    simpl in Hnil. rewrite Hnil. simpl. repeat split.
    + intros i [<-|[]]. reflexivity.
    + lia.
    + intros id' Hid'. injection Hid' as <-. lia.
Qed.

Lemma monitor_step_keeps t s : one_interval t -> one_interval (monitor_step t s).
Proof.
  intros H. destruct s; simpl.
  - apply monitorEthereumNodeHealth_keeps. exact H.
  - apply health_effects_keep. exact H.
Qed.

Lemma fold_monitor_steps_keep steps : forall t,
  one_interval t -> one_interval (fold_left monitor_step steps t).
Proof.
  induction steps as [|s steps IH]; intros t H; simpl; [exact H|].
  apply IH. apply monitor_step_keeps. exact H.
Qed.

Lemma no_timers_one_interval : one_interval no_timers.
Proof.
  unfold one_interval, no_timers. simpl. repeat split; [intros i []|lia|discriminate].
Qed.

(** X12: however often the monitor is started again and whatever answers
    come in between, at most one interval is set at any time, and it is the
    one [monitorEthereumNodeHealthId] names: starting the monitor again never
    leaves an earlier interval running. *)
Theorem monitor_keeps_one_interval steps :
  (length (intervals (monitor_steps steps)) <= 1)%nat
  /\ forall i, In i (intervals (monitor_steps steps)) ->
       monitorEthereumNodeHealthId (monitor_steps steps) = Some (interval_id i).
Proof.
  destruct (fold_monitor_steps_keep steps no_timers no_timers_one_interval)
    as (Hcur & Hlen & _).
  split; [exact Hlen | exact Hcur].
Qed.

Lemma unhealthy_effects_clear effects : forall t,
  one_interval t -> In ClearInterval effects ->
  intervals (fold_left health_effect effects t) = [].
Proof.
  induction effects as [|e effects IH]; intros t H Hin; [destruct Hin|].
  simpl. destruct Hin as [->|Hin].
  - destruct (clearInterval_current t H) as [Hnil Hone].
    clear IH. simpl. revert Hnil Hone.
    generalize (clearInterval (monitorEthereumNodeHealthId t) t). intros t' Hnil Hone.
    revert t' Hnil Hone. induction effects as [|e' effects IH']; intros t' Hnil Hone;
      simpl; [exact Hnil|].
    apply IH'.
    + destruct e'; simpl; [|exact Hnil].
      apply clearInterval_current. exact Hone.
    + apply health_effect_keeps. exact Hone.
  - apply IH; [apply health_effect_keeps; exact H | exact Hin].
Qed.

(** X13: once an answer that is not healthy has reached its callback, no
    interval is set any more, whichever interval made the call: the answer
    to a call of an interval that was replaced since stops the interval that
    replaced it.  Monitoring does not resume by itself. *)
Theorem unhealthy_answer_stops_monitoring steps i err universeController :
  ~ healthy (interval_controller i) err universeController ->
  intervals (monitor_steps (steps ++ [Answered i err universeController])) = [].
Proof.
  intros Hun. unfold monitor_steps. rewrite fold_left_app. simpl.
  unfold getController_answered. apply unhealthy_effects_clear.
  - apply fold_monitor_steps_keep. apply no_timers_one_interval.
  - apply unhealthy_clears_first. exact Hun.
Qed.

Lemma unhealthy_answer_stops_monitoring_witness :
  let old := mkInterval 0 "0xUNIVERSE" "0xCONTROLLER" true in
  let steps := [Monitored sample_augur true; Monitored sample_augur false] in
  ~ healthy (interval_controller old) (Some (new_Error "timeout")) VUndefined
  /\ map interval_id (intervals (monitor_steps steps)) = [1%nat]
  /\ intervals (monitor_steps
       (steps ++ [Answered old (Some (new_Error "timeout")) VUndefined])) = [].
Proof.
  cbv zeta.
  assert (Hun : ~ healthy (interval_controller
                             (mkInterval 0 "0xUNIVERSE" "0xCONTROLLER" true))
                  (Some (new_Error "timeout")) VUndefined).
  { intros [H _]. discriminate H. }
  split; [exact Hun|]. split; [reflexivity|].
  apply (unhealthy_answer_stops_monitoring
           [Monitored sample_augur true; Monitored sample_augur false]
           (mkInterval 0 "0xUNIVERSE" "0xCONTROLLER" true)
           (Some (new_Error "timeout")) VUndefined Hun).
Defined.

(** ** The trading-positions getter: sorting by outcome *)

Section SortBy.
Context {A : Type}.
Variable key : A -> Z.

Lemma sort_insert_perm x l : Permutation (x :: l) (sort_insert key x l).
Proof.
  induction l as [|y l IH]; simpl; [reflexivity|].
  destruct (Z.leb (key x) (key y)); [reflexivity|].
  rewrite perm_swap. apply perm_skip. exact IH.
Qed.

Lemma sortBy_perm l : Permutation l (sortBy key l).
Proof.
  induction l as [|x l IH]; simpl; [reflexivity|].
  rewrite <- sort_insert_perm. apply perm_skip. exact IH.
Qed.

Lemma sortBy_length l : length (sortBy key l) = length l.
Proof. symmetry. apply Permutation_length. apply sortBy_perm. Qed.

Lemma sort_insert_sorted x l :
  StronglySorted (fun a b => (key a <= key b)%Z) l ->
  StronglySorted (fun a b => (key a <= key b)%Z) (sort_insert key x l).
Proof.
  induction l as [|y l IH]; intros Hl; simpl.
  - constructor; constructor.
  - inversion Hl as [|? ? Hl' Hy]; subst.
    destruct (Z.leb (key x) (key y)) eqn:E.
    + apply Z.leb_le in E. constructor; [exact Hl|].
      constructor; [exact E|].
      eapply Forall_impl; [|exact Hy]. intros a Ha. simpl in Ha. lia.
    + apply Z.leb_gt in E. constructor; [apply IH; exact Hl'|].
      apply (Permutation_Forall (sort_insert_perm x l)).
      constructor; [lia | exact Hy].
Qed.

Lemma sortBy_sorted l :
  StronglySorted (fun a b => (key a <= key b)%Z) (sortBy key l).
Proof.
  induction l as [|x l IH]; simpl; [constructor|].
  apply sort_insert_sorted. exact IH.
Qed.

Lemma sorted_distinct_strict l :
  StronglySorted (fun a b => (key a <= key b)%Z) l ->
  NoDup (map key l) ->
  StronglySorted (fun a b => (key a < key b)%Z) l.
Proof.
  induction l as [|x l IH]; intros Hs Hd; [constructor|].
  inversion Hs as [|? ? Hs' Hx]; subst. inversion Hd as [|? ? Hnotin Hd']; subst.
  constructor; [apply IH; assumption|].
  rewrite Forall_forall in *. intros a Ha. specialize (Hx a Ha). simpl in Hx.
  assert (key a <> key x).
  { intros Heq. apply Hnotin. rewrite <- Heq. apply in_map. exact Ha. }
  lia.
Qed.
End SortBy.

(** ** The trading-positions getter: the outcome that is missing *)

Section Missing.
Variable B : BigNumberJs.Lib.

Lemma missingOutcome_from (l : list (Position.t B)) : forall a m,
  (length l < m)%nat ->
  findIndex_from
    (fun pair : option (Position.t B) * option Z =>
       match pair with
       | (None, _) => true
       | (Some outcomePl, Some outcomeNumber) =>
           negb (Z.eqb (Position.outcome outcomePl) outcomeNumber)
       | (Some _, None) => true
       end)
    (Z.of_nat a) (zip l (map Z.of_nat (seq a m)))
  = first_skipped (Z.of_nat a) l.
Proof.
  induction l as [|p l IH]; intros a m Hm.
  - destruct m as [|m]; [simpl in Hm; lia|]. reflexivity.
  - destruct m as [|m]; [simpl in Hm; lia|].
    cbn [seq map zip findIndex_from first_skipped].
    destruct (Z.eqb (Position.outcome p) (Z.of_nat a)); [|reflexivity].
    cbn [negb]. replace (Z.of_nat a + 1)%Z with (Z.of_nat (S a)) by lia.
    apply IH. simpl in Hm. lia.
Qed.

Lemma missingOutcome_is_first_skipped (l : list (Position.t B)) :
  missingOutcome l (Z.of_nat (length l) + 1) = first_skipped 0 l.
Proof.
  unfold missingOutcome, findIndex, range.
  replace (Z.to_nat (Z.of_nat (length l) + 1)) with (S (length l)) by lia.
  apply (missingOutcome_from l 0 (S (length l))). lia.
Qed.

Lemma first_skipped_spec (l : list (Position.t B)) : forall i,
  StronglySorted outcome_lt l ->
  Forall (fun p => (i <= Position.outcome p)%Z) l ->
  let k := first_skipped i l in
  (i <= k <= i + Z.of_nat (length l))%Z
  /\ ~ In k (map Position.outcome l)
  /\ forall j, (i <= j < k)%Z -> In j (map Position.outcome l).
Proof.
  induction l as [|p l IH]; intros i Hs Hge; cbn [first_skipped].
  - cbv zeta. simpl. repeat split; try lia; try (intros []); intros j Hj; lia.
  - inversion Hs as [|? ? Hs' Hp]; subst. inversion Hge as [|? ? Hpi Hge']; subst.
    destruct (Z.eqb (Position.outcome p) i) eqn:E.
    + apply Z.eqb_eq in E.
      assert (Hge1 : Forall (fun q => (i + 1 <= Position.outcome q)%Z) l).
      { rewrite Forall_forall in *. intros q Hq. specialize (Hp q Hq).
        unfold outcome_lt in Hp. lia. }
      destruct (IH (i + 1)%Z Hs' Hge1) as (Hk & Hnot & Hall).
      cbv zeta. cbn [length map]. repeat split; try lia.
      * intros [Hin|Hin]; [lia | exact (Hnot Hin)].
      * intros j Hj. destruct (Z.eq_dec j i) as [->|Hne]; [left; exact E|].
        right. apply Hall. lia.
    + apply Z.eqb_neq in E. cbv zeta. cbn [length map]. repeat split; try lia.
      intros [Hin|Hin]; [lia|].
      apply in_map_iff in Hin. destruct Hin as [q [Hq Hin]].
      rewrite Forall_forall in Hp. specialize (Hp q Hin). unfold outcome_lt in Hp. lia.
Qed.

Lemma sorted_outcomes_are_strict (outcomes : list (Position.t B)) :
  NoDup (map Position.outcome outcomes) ->
  (forall p, In p outcomes -> (0 <= Position.outcome p)%Z) ->
  StronglySorted outcome_lt (sortBy Position.outcome outcomes)
  /\ Forall (fun p => (0 <= Position.outcome p)%Z) (sortBy Position.outcome outcomes)
  /\ forall j, In j (map Position.outcome (sortBy Position.outcome outcomes))
               <-> In j (map Position.outcome outcomes).
Proof.
  intros Hdistinct Hnonneg.
  pose proof (sortBy_perm Position.outcome outcomes) as Hperm.
  split; [|split].
  - apply (sorted_distinct_strict Position.outcome).
    + apply sortBy_sorted.
    + apply (Permutation_NoDup (Permutation_map Position.outcome Hperm)). exact Hdistinct.
  - apply (Permutation_Forall Hperm). apply Forall_forall. exact Hnonneg.
  - intros j. split; apply Permutation_in; [symmetry|];
      apply Permutation_map; exact Hperm.
Qed.

Lemma missingOutcome_spec (outcomes : list (Position.t B)) :
  NoDup (map Position.outcome outcomes) ->
  (forall p, In p outcomes -> (0 <= Position.outcome p)%Z) ->
  forall k,
    k = missingOutcome (sortBy Position.outcome outcomes)
          (Z.of_nat (length (sortBy Position.outcome outcomes)) + 1) ->
    (0 <= k <= Z.of_nat (length outcomes))%Z
    /\ ~ In k (map Position.outcome outcomes)
    /\ forall j, (0 <= j < k)%Z -> In j (map Position.outcome outcomes).
Proof.
  intros Hdistinct Hnonneg k ->.
  destruct (sorted_outcomes_are_strict outcomes Hdistinct Hnonneg) as (Hs & Hge & Hsame).
  rewrite missingOutcome_is_first_skipped.
  destruct (first_skipped_spec _ 0%Z Hs Hge) as (Hk & Hnot & Hall).
  rewrite sortBy_length in Hk. repeat split; try lia.
  - intros Hin. apply Hnot. apply Hsame. exact Hin.
  - intros j Hj. apply Hsame. apply Hall. exact Hj.
Qed.

(** X14: for positions with distinct outcome numbers, none of them negative,
    in any order, the outcome the getter takes to be the missing one is the
    least outcome number that no position has: every smaller number has a
    position, and it is at most the number of positions. *)
Theorem missing_outcome_is_the_least_not_held (outcomes : list (Position.t B)) :
  NoDup (map Position.outcome outcomes) ->
  (forall p, In p outcomes -> (0 <= Position.outcome p)%Z) ->
  let sortedOutcomes := sortBy Position.outcome outcomes in
  let k := missingOutcome sortedOutcomes (Z.of_nat (length sortedOutcomes) + 1) in
  (0 <= k <= Z.of_nat (length outcomes))%Z
  /\ ~ In k (map Position.outcome outcomes)
  /\ forall j, (0 <= j < k)%Z -> In j (map Position.outcome outcomes).
Proof.
  intros Hdistinct Hnonneg. cbv zeta.
  destruct (sorted_outcomes_are_strict outcomes Hdistinct Hnonneg) as (Hs & Hge & Hsame).
  rewrite missingOutcome_is_first_skipped.
  destruct (first_skipped_spec _ 0%Z Hs Hge) as (Hk & Hnot & Hall).
  rewrite sortBy_length in Hk.
  split; [lia|]. split.
  - intros Hin. apply Hnot. apply Hsame. exact Hin.
  - intros j Hj. apply Hsame. apply Hall. exact Hj.
Qed.
End Missing.

Lemma missing_outcome_is_the_least_not_held_witness :
  let outcomes := [sample_position 2 5; sample_position 0 3; sample_position 1 4] in
  NoDup (map Position.outcome outcomes)
  /\ (forall p, In p outcomes -> (0 <= Position.outcome p)%Z)
  /\ missingOutcome (sortBy Position.outcome outcomes) 4 = 3%Z
  /\ ~ In 3%Z (map Position.outcome outcomes).
Proof.
  cbv zeta.
  assert (Hdistinct : NoDup (map Position.outcome
            [sample_position 2 5; sample_position 0 3; sample_position 1 4])).
  { simpl. repeat constructor; simpl; intuition discriminate. }
  assert (Hnonneg : forall p,
            In p [sample_position 2 5; sample_position 0 3; sample_position 1 4] ->
            (0 <= Position.outcome p)%Z).
  { intros p [<-|[<-|[<-|[]]]]; simpl; lia. }
  split; [exact Hdistinct|]. split; [exact Hnonneg|]. split; [reflexivity|].
  apply (missing_outcome_is_the_least_not_held QNumbers
           [sample_position 2 5; sample_position 0 3; sample_position 1 4]
           Hdistinct Hnonneg).
Defined.

(** ** The trading-positions getter: the net positions of a market *)

Section NetPositionsOfMarket.
Variable B : BigNumberJs.Lib.
Variable sumProfitLossResults :
  Position.t B -> option (Position.t B) -> Result (Position.t B).

Abbreviation zero_total :=
  (fun o : Position.t B => eq_ZERO (Position.totalPosition o)).

Abbreviation held_of outcomes :=
  (filter (fun o : Position.t B => negb (eq_ZERO (Position.position o)))
          (sortBy Position.outcome outcomes)).

(** X15: the callback throws in three places only.  Handed no position at
    all for a market of one outcome, it reads the timestamp of a first
    position that is not there (a TypeError).  Handed positions, it throws
    what [BigNumber.minimum] throws on the totals of the positions whose
    [position] is not zero, which are no argument at all when every position
    is held in escrow only; or what [sumProfitLossResults] throws on the
    short position of outcome 1. *)
Theorem net_positions_throw_where numOutcomes marketType marketId outcomes e :
  netPositionsOfMarket sumProfitLossResults numOutcomes marketType marketId outcomes
  = Throws e ->
  (outcomes = [] /\ numOutcomes = Some 1%Z
   /\ e = TypeError "Cannot read property 'timestamp' of undefined")
  \/ (outcomes <> []
      /\ BigNumberJs.minimum B (map Position.totalPosition (held_of outcomes)) = Throws e)
  \/ (outcomes <> []
      /\ exists least short,
           BigNumberJs.minimum B (map Position.totalPosition (held_of outcomes))
           = Returns least
           /\ Position.outcome short = 1%Z
           /\ sumProfitLossResults short
                (hd_error
                   (map (fun p => Position.with_netPosition
                                    (BigNumberJs.minus B (Position.totalPosition p) least) p)
                        (held_of outcomes)))
              = Throws e).
Proof.
  unfold netPositionsOfMarket.
  pose proof (sortBy_length Position.outcome outcomes) as Hlen.
  destruct (sortBy Position.outcome outcomes) as [|first sorted] eqn:Hsorted.
  - (* no position *)
    destruct outcomes as [|o outcomes]; [|simpl in Hlen; discriminate].
    cbn [filter length Nat.eqb negb andb orb].
    destruct numOutcomes as [n|]; [|discriminate].
    cbn [Z.of_nat Z.add]. destruct (Z.eqb n 1) eqn:E; [|discriminate].
    apply Z.eqb_eq in E. subst n. cbn. intros H. injection H as <-. left. auto.
  - assert (Hsome : outcomes <> []).
    { intros ->. simpl in Hlen. discriminate. }
    assert (Hrest : forall zero : Position.t B,
      (if Z.eqb (Position.outcome zero) 0 then Returns (first :: sorted)
       else
         match BigNumberJs.minimum B
                 (map Position.totalPosition
                    (filter (fun o => negb (eq_ZERO (Position.position o)))
                            (first :: sorted))) with
         | Throws e0 => Throws e0
         | Returns minimumPosition =>
             if match marketType with
                | Some type => String.eqb type "categorical"
                | None => false
                end
             then Returns
                    (map (fun outcomePl =>
                            Position.with_netPosition
                              (BigNumberJs.minus B (Position.totalPosition outcomePl)
                                 minimumPosition) outcomePl)
                         (filter (fun o => negb (eq_ZERO (Position.position o)))
                                 (first :: sorted))
                     ++ [Position.with_netPosition
                           (BigNumberJs.negated B minimumPosition) zero])
             else if Z.eqb (Position.outcome
                              (Position.with_netPosition
                                 (BigNumberJs.negated B minimumPosition) zero)) 1
             then
               match sumProfitLossResults
                       (Position.with_netPosition
                          (BigNumberJs.negated B minimumPosition) zero)
                       (hd_error
                          (map (fun outcomePl =>
                                  Position.with_netPosition
                                    (BigNumberJs.minus B (Position.totalPosition outcomePl)
                                       minimumPosition) outcomePl)
                               (filter (fun o => negb (eq_ZERO (Position.position o)))
                                       (first :: sorted)))) with
               | Throws e0 => Throws e0
               | Returns result =>
                   Returns [Position.with_position
                              (Position.position
                                 (Position.with_netPosition
                                    (BigNumberJs.negated B minimumPosition) zero)) result]
               end
             else Returns (filter (fun o => negb (eq_ZERO (Position.position o)))
                                  (first :: sorted))
         end) = Throws e ->
      BigNumberJs.minimum B
        (map Position.totalPosition
           (filter (fun o => negb (eq_ZERO (Position.position o))) (first :: sorted)))
      = Throws e
      \/ exists least short,
           BigNumberJs.minimum B
             (map Position.totalPosition
                (filter (fun o => negb (eq_ZERO (Position.position o))) (first :: sorted)))
           = Returns least
           /\ Position.outcome short = 1%Z
           /\ sumProfitLossResults short
                (hd_error
                   (map (fun p => Position.with_netPosition
                                    (BigNumberJs.minus B (Position.totalPosition p) least) p)
                        (filter (fun o => negb (eq_ZERO (Position.position o)))
                                (first :: sorted))))
              = Throws e).
    { intros zero.
      destruct (Z.eqb (Position.outcome zero) 0); [discriminate|].
      destruct (BigNumberJs.minimum B _) as [least|e0];
        [|intros H; injection H as <-; left; reflexivity].
      destruct (match marketType with
                | Some type => String.eqb type "categorical"
                | None => false
                end); [discriminate|].
      destruct (Z.eqb (Position.outcome
                         (Position.with_netPosition (BigNumberJs.negated B least) zero)) 1)
        eqn:E1; [|discriminate].
      destruct (sumProfitLossResults _ _) as [result|e0] eqn:Esum; [discriminate|].
      intros H. injection H as <-. right.
      exists least, (Position.with_netPosition (BigNumberJs.negated B least) zero).
      split; [reflexivity|]. split; [apply Z.eqb_eq; exact E1 | exact Esum]. }
    set (missing := match numOutcomes with
                    | Some n => Z.eqb n (Z.of_nat (length (first :: sorted)) + 1)
                    | None => false
                    end).
    intros H. right.
    assert (Hor : forall P Q : Prop, P \/ Q -> (outcomes <> [] /\ P) \/ (outcomes <> [] /\ Q))
      by (intros P Q [HP|HQ]; [left|right]; split; assumption).
    apply Hor. clear Hor.
    destruct missing.
    + destruct (Nat.eqb (length (filter zero_total outcomes)) 1); [discriminate H|].
      cbn [andb orb negb] in H.
      destruct (filter zero_total outcomes) as [|z zeros]; cbn [app] in H;
        exact (Hrest _ H).
    + destruct (Nat.eqb (length (filter zero_total outcomes)) 1) eqn:E;
        [|discriminate H].
      cbn [andb orb negb] in H.
      destruct (filter zero_total outcomes) as [|z zeros]; [discriminate E|].
      exact (Hrest _ H).
Qed.

(** X16: when the market is missing exactly one outcome and exactly one
    position has a total of zero, or when neither is so, nothing is inferred:
    the positions come back as they are, all of them, ordered by outcome,
    positions of the same outcome in the order they came in. *)
Theorem net_positions_are_left_alone numOutcomes marketType marketId outcomes :
  (numOutcomes = Some (Z.of_nat (length outcomes) + 1)%Z
   <-> length (filter zero_total outcomes) = 1%nat) ->
  exists sorted,
    netPositionsOfMarket sumProfitLossResults numOutcomes marketType marketId outcomes
    = Returns sorted
    /\ sorted = sortBy Position.outcome outcomes
    /\ Permutation outcomes sorted
    /\ StronglySorted outcome_le sorted.
Proof.
  intros Hagree. exists (sortBy Position.outcome outcomes).
  split; [|split; [reflexivity|split; [apply sortBy_perm|apply sortBy_sorted]]].
  unfold netPositionsOfMarket. rewrite sortBy_length.
  destruct (Nat.eqb (length (filter zero_total outcomes)) 1) eqn:E.
  - apply Nat.eqb_eq in E. destruct Hagree as [_ Hn]. rewrite (Hn E).
    rewrite Z.eqb_refl. reflexivity.
  - apply Nat.eqb_neq in E.
    destruct numOutcomes as [n|]; [|reflexivity].
    destruct (Z.eqb n (Z.of_nat (length outcomes) + 1)) eqn:En; [|reflexivity].
    apply Z.eqb_eq in En. exfalso. apply E. apply Hagree. rewrite En. reflexivity.
Qed.
Lemma filter_none {A} (f : A -> bool) (l : list A) :
  (forall x, In x l -> f x = false) -> filter f l = [].
Proof.
  induction l as [|x l IH]; intros H; simpl; [reflexivity|].
  rewrite (H x) by (left; reflexivity). apply IH. intros y Hy. apply H. right. exact Hy.
Qed.

(** X17: in a categorical market where the account has a position with a
    non-zero total in every outcome but one, outcome 0 among them, the
    outcome that is missing is taken to be the short one, and the callback
    comes to [BigNumber.minimum] on the totals of the positions whose
    [position] is not zero.  When that returns, those positions come back in
    outcome order with the least of their totals taken off as netPosition,
    followed by one position for the missing outcome, all zero but for a
    netPosition of minus that least total; positions held in escrow only (a
    zero [position]) are dropped.  When it throws, the callback throws the
    same; and when every position is held in escrow only, it is called with
    no argument at all. *)
Theorem categorical_short_position marketId outcomes :
  NoDup (map Position.outcome outcomes) ->
  (forall p, In p outcomes -> (0 <= Position.outcome p)%Z) ->
  In 0%Z (map Position.outcome outcomes) ->
  (forall p, In p outcomes -> eq_ZERO (Position.totalPosition p) = false) ->
  exists k timestamp,
    netPositionsOfMarket sumProfitLossResults
      (Some (Z.of_nat (length outcomes) + 1)%Z) (Some "categorical") marketId outcomes
    = match BigNumberJs.minimum B (map Position.totalPosition (held_of outcomes)) with
      | Throws e => Throws e
      | Returns least =>
          Returns
            (map (fun p => Position.with_netPosition
                             (BigNumberJs.minus B (Position.totalPosition p) least) p)
                 (held_of outcomes)
             ++ [Position.with_netPosition (BigNumberJs.negated B least)
                   (missing_position marketId k timestamp)])
      end
    /\ (1 <= k <= Z.of_nat (length outcomes))%Z
    /\ ~ In k (map Position.outcome outcomes)
    /\ (forall j, (0 <= j < k)%Z -> In j (map Position.outcome outcomes))
    /\ ((forall p, In p outcomes -> eq_ZERO (Position.position p) = true) ->
        held_of outcomes = []).
Proof.
  intros Hdistinct Hnonneg Hzero Htotals.
  destruct (missingOutcome_spec B outcomes Hdistinct Hnonneg _ eq_refl)
    as (Hk & Hnot & Hall).
  set (k := missingOutcome (sortBy Position.outcome outcomes)
              (Z.of_nat (length (sortBy Position.outcome outcomes)) + 1)) in *.
  assert (Hk0 : k <> 0%Z) by (intros Heq; apply Hnot; rewrite Heq; exact Hzero).
  pose proof (sortBy_length Position.outcome outcomes) as Hlen.
  assert (Hescrow : (forall p, In p outcomes -> eq_ZERO (Position.position p) = true) ->
                    held_of outcomes = []).
  { intros Hall0. apply filter_none. intros p Hp. apply negb_false_iff. apply Hall0.
    apply (Permutation_in p (Permutation_sym (sortBy_perm Position.outcome outcomes))).
    exact Hp. }
  unfold netPositionsOfMarket. fold k. rewrite Hlen, Z.eqb_refl.
  rewrite (filter_none _ _ Htotals). cbn [length Nat.eqb andb orb negb app].
  destruct (sortBy Position.outcome outcomes) as [|first sorted] eqn:Hsorted.
  - destruct outcomes; [destruct Hzero | simpl in Hlen; discriminate].
  - exists k, (Position.timestamp first).
    cbn [missing_position Position.outcome].
    apply Z.eqb_neq in Hk0. rewrite Hk0. cbn [String.eqb].
    split.
    + destruct (BigNumberJs.minimum B _); reflexivity.
    + apply Z.eqb_neq in Hk0. repeat split; try lia; assumption.
Qed.
(** X19: when the one outcome the account has no position in is outcome 0,
    nothing is inferred, whatever the type of the market: the positions come
    back as they are, in outcome order, and no position is made up for
    outcome 0. *)
Theorem missing_outcome_0_is_not_short marketType marketId outcomes :
  NoDup (map Position.outcome outcomes) ->
  (forall p, In p outcomes -> (0 <= Position.outcome p)%Z) ->
  outcomes <> [] ->
  ~ In 0%Z (map Position.outcome outcomes) ->
  (forall p, In p outcomes -> eq_ZERO (Position.totalPosition p) = false) ->
  netPositionsOfMarket sumProfitLossResults
    (Some (Z.of_nat (length outcomes) + 1)%Z) marketType marketId outcomes
  = Returns (sortBy Position.outcome outcomes).
Proof.
  intros Hdistinct Hnonneg Hsome Hzero Htotals.
  destruct (missingOutcome_spec B outcomes Hdistinct Hnonneg _ eq_refl)
    as (Hk & _ & Hall).
  set (k := missingOutcome (sortBy Position.outcome outcomes)
              (Z.of_nat (length (sortBy Position.outcome outcomes)) + 1)) in *.
  assert (Hk0 : k = 0%Z).
  { destruct (Z.eq_dec k 0) as [|Hne]; [assumption|].
    exfalso. apply Hzero. apply Hall. lia. }
  pose proof (sortBy_length Position.outcome outcomes) as Hlen.
  unfold netPositionsOfMarket. fold k. rewrite Hlen, Z.eqb_refl.
  rewrite (filter_none _ _ Htotals). cbn [length Nat.eqb andb orb negb app].
  destruct (sortBy Position.outcome outcomes) as [|first sorted] eqn:Hsorted.
  - destruct outcomes; [contradiction | simpl in Hlen; discriminate].
  - cbn [missing_position Position.outcome]. rewrite Hk0. reflexivity.
Qed.
End NetPositionsOfMarket.

Lemma net_positions_are_left_alone_witness :
  let outcomes := [sample_position 1 5; sample_position 0 3] in
  (Some 2%Z = Some (Z.of_nat (length outcomes) + 1)%Z
   <-> length (filter (fun o => eq_ZERO (Position.totalPosition o))
                      outcomes) = 1%nat)
  /\ exists sorted,
       netPositionsOfMarket (fun p _ => Returns p) (Some 2%Z) (Some "yesNo") "0xMARKET" outcomes
       = Returns sorted
       /\ sorted = sortBy Position.outcome outcomes
       /\ Permutation outcomes sorted
       /\ StronglySorted outcome_le sorted.
Proof.
  cbv zeta.
  assert (Hagree :
    Some 2%Z = Some (Z.of_nat (length [sample_position 1 5; sample_position 0 3]) + 1)%Z
    <-> length (filter (fun o => eq_ZERO (Position.totalPosition o))
                       [sample_position 1 5; sample_position 0 3]) = 1%nat).
  { split; intros H; discriminate H. }
  split; [exact Hagree|].
  apply (net_positions_are_left_alone QNumbers (fun p _ => Returns p) (Some 2%Z) (Some "yesNo")
           "0xMARKET" [sample_position 1 5; sample_position 0 3] Hagree).
Defined.

Lemma missing_outcome_0_is_not_short_witness :
  let outcomes := [sample_position 1 7] in
  NoDup (map Position.outcome outcomes)
  /\ outcomes <> []
  /\ ~ In 0%Z (map Position.outcome outcomes)
  /\ netPositionsOfMarket (fun p _ => Returns p) (Some 2%Z) (Some "yesNo") "0xMARKET" outcomes
     = Returns (sortBy Position.outcome outcomes).
Proof.
  cbv zeta.
  assert (Hdistinct : NoDup (map Position.outcome [sample_position 1 7])).
  { simpl. repeat constructor. intros []. }
  assert (Hsome : [sample_position 1 7] <> []) by discriminate.
  assert (Hzero : ~ In 0%Z (map Position.outcome [sample_position 1 7])).
  { simpl. intros [H|[]]. discriminate H. }
  split; [exact Hdistinct|]. split; [exact Hsome|]. split; [exact Hzero|].
  apply (missing_outcome_0_is_not_short QNumbers (fun p _ => Returns p) (Some "yesNo") "0xMARKET"
           [sample_position 1 7] Hdistinct).
  - intros p [<-|[]]; simpl; lia.
  - exact Hsome.
  - exact Hzero.
  - intros p [<-|[]]; reflexivity.
Defined.

Lemma categorical_short_position_witness :
  let outcomes := [sample_position 2 5; sample_position 0 3; sample_position 1 4] in
  let held := filter (fun o => negb (eq_ZERO (Position.position o)))
                     (sortBy Position.outcome outcomes) in
  let escrowed := [escrowed_position 1 4; escrowed_position 0 3] in
  (NoDup (map Position.outcome outcomes)
   /\ In 0%Z (map Position.outcome outcomes)
   /\ map Position.outcome held = [0; 1; 2]%Z
   /\ exists k timestamp,
        netPositionsOfMarket (fun p _ => Returns p) (Some 4%Z) (Some "categorical")
          "0xMARKET" outcomes
        = Returns
            (map (fun p => Position.with_netPosition
                             (BigNumberJs.minus QNumbers (Position.totalPosition p) 3%Q) p)
                 held
             ++ [Position.with_netPosition (BigNumberJs.negated QNumbers 3%Q)
                   (missing_position "0xMARKET" k timestamp)])
        /\ (1 <= k <= 3)%Z)
  /\ (NoDup (map Position.outcome escrowed)
      /\ In 0%Z (map Position.outcome escrowed)
      /\ (forall p, In p escrowed -> eq_ZERO (Position.position p) = true)
      /\ netPositionsOfMarket (fun p _ => Returns p) (Some 3%Z) (Some "categorical")
           "0xMARKET" escrowed
         = Throws not_a_number).
Proof.
  cbv zeta. split.
  - assert (Hdistinct : NoDup (map Position.outcome
              [sample_position 2 5; sample_position 0 3; sample_position 1 4])).
    { simpl. repeat constructor; simpl; intuition discriminate. }
    split; [exact Hdistinct|]. split; [simpl; tauto|]. split; [reflexivity|].
    destruct (categorical_short_position QNumbers (fun p _ => Returns p) "0xMARKET"
                [sample_position 2 5; sample_position 0 3; sample_position 1 4] Hdistinct)
      as (k & timestamp & Hresult & Hk & _).
    + intros p [<-|[<-|[<-|[]]]]; simpl; lia.
    + simpl; tauto.
    + intros p [<-|[<-|[<-|[]]]]; reflexivity.
    + exists k, timestamp. split; [exact Hresult | exact Hk].
  - assert (Hdistinct : NoDup (map Position.outcome
              [escrowed_position 1 4; escrowed_position 0 3])).
    { simpl. repeat constructor; simpl; intuition discriminate. }
    split; [exact Hdistinct|]. split; [simpl; tauto|].
    split; [intros p [<-|[<-|[]]]; reflexivity|].
    destruct (categorical_short_position QNumbers (fun p _ => Returns p) "0xMARKET"
                [escrowed_position 1 4; escrowed_position 0 3] Hdistinct)
      as (k & timestamp & Hresult & _).
    + intros p [<-|[<-|[]]]; simpl; lia.
    + simpl; tauto.
    + intros p [<-|[<-|[]]]; reflexivity.
    + exact Hresult.
Defined.

Lemma net_positions_throw_where_witness :
  let escrowed := [escrowed_position 1 4; escrowed_position 0 3] in
  netPositionsOfMarket (fun p _ => Returns p) (Some 3%Z) (Some "categorical") "0xMARKET" escrowed
  = Throws not_a_number
  /\ escrowed <> []
  /\ BigNumberJs.minimum QNumbers
       (map Position.totalPosition
          (filter (fun o => negb (eq_ZERO (Position.position o)))
                  (sortBy Position.outcome escrowed)))
     = Throws not_a_number.
Proof.
  cbv zeta. split; [reflexivity|].
  destruct (net_positions_throw_where QNumbers (fun p _ => Returns p) (Some 3%Z)
              (Some "categorical") "0xMARKET" [escrowed_position 1 4; escrowed_position 0 3]
              not_a_number eq_refl)
    as [(Hnil & _)|[Hminimum|(_ & least & _ & Hleast & _)]].
  - discriminate Hnil.
  - exact Hminimum.
  - discriminate Hleast.
Defined.

(** ** The trading-positions getter: parameters and universe *)


(** ** Removing a crowdsourcer that has contributions *)

(** X20: the Removal of a crowdsourcer creation deletes the crowdsourcer
    rows of that id and nothing else, without a look at what refers to them:
    a contribution staked on the crowdsourcer stays in the disputes table,
    now naming a crowdsourcer that has no row, and the payouts are as they
    were. *)
Theorem crowdsourcer_removal_does_not_cascade db augur trx log w d :
  In d (disputes (store w)) ->
  Disputes.crowdsourcerID d
    = DisputeCrowdsourcerCreated.disputeCrowdsourcer (inputs log) ->
  exists w1,
    processDisputeCrowdsourcerCreatedLogRemoval db augur trx log w = Resolved tt w1
    /\ In d (disputes (store w1))
    /\ (forall c, In c (crowdsourcers (store w1)) ->
                  Crowdsourcers.crowdsourcerID c <> Disputes.crowdsourcerID d)
    /\ disputes (store w1) = disputes (store w)
    /\ payouts (store w1) = payouts (store w)
    /\ forall c, In c (crowdsourcers (store w)) ->
                 Crowdsourcers.crowdsourcerID c <> Disputes.crowdsourcerID d ->
                 In c (crowdsourcers (store w1)).
Proof.
  intros Hin Hid.
  rewrite processDisputeCrowdsourcerCreatedLogRemoval_run. cbv zeta.
  eexists. split; [reflexivity|]. project.
  split; [exact Hin|]. split; [|split; [reflexivity|split; [reflexivity|]]].
  - intros c Hc. apply filter_In in Hc. destruct Hc as [_ Hc].
    apply negb_true_iff in Hc. apply String.eqb_neq in Hc. rewrite Hid. exact Hc.
  - intros c Hc Hne. apply filter_In. split; [exact Hc|].
    apply negb_true_iff. apply String.eqb_neq. rewrite <- Hid. exact Hne.
Qed.

Lemma crowdsourcer_removal_does_not_cascade_witness :
  let created := crowdsourcer_created "0xMARKET" "0xCROWDSOURCER1" [0; 10000]%Z false 4 in
  let staked := contribution "0xT5" "0xREPORTER" "0xCROWDSOURCER1" 0 10 in
  let w := world_of (processDisputeCrowdsourcerContributionLog Pool sample_augur 7 staked
             (world_of (processDisputeCrowdsourcerCreatedLog Pool sample_augur 7 created
                          world_with_market))) in
  In (dispute_of staked) (disputes (store w))
  /\ map Crowdsourcers.crowdsourcerID (crowdsourcers (store w)) = ["0xCROWDSOURCER1"]
  /\ exists w1,
       processDisputeCrowdsourcerCreatedLogRemoval Pool sample_augur 7 created w
       = Resolved tt w1
       /\ In (dispute_of staked) (disputes (store w1))
       /\ (forall c, In c (crowdsourcers (store w1)) ->
                     Crowdsourcers.crowdsourcerID c
                     <> Disputes.crowdsourcerID (dispute_of staked))
       /\ disputes (store w1) = disputes (store w)
       /\ payouts (store w1) = payouts (store w)
       /\ forall c, In c (crowdsourcers (store w)) ->
                    Crowdsourcers.crowdsourcerID c
                    <> Disputes.crowdsourcerID (dispute_of staked) ->
                    In c (crowdsourcers (store w1)).
Proof.
  cbv zeta. split; [left; reflexivity|]. split; [reflexivity|].
  apply (crowdsourcer_removal_does_not_cascade Pool sample_augur 7
           (crowdsourcer_created "0xMARKET" "0xCROWDSOURCER1" [0; 10000]%Z false 4)).
  - left; reflexivity.
  - reflexivity.
Defined.

(** ** Open interest from an empty fills table *)

(** X21: starting with no fill on record and every market's total at zero,
    and with each recomputation settled before the next log is processed,
    every market's open-interest total is the sum of the fills stored for it
    after any sequence of complete-set Forward and Removal logs in which a
    log identity always names the same market, failed Forwards (market
    missing) and Removals of logs never applied included. *)
Theorem totals_follow_the_fills db augur steps w :
  detached w = [] ->
  completeSets (store w) = [] ->
  (forall m, In m (markets (store w)) -> Markets.openInterest m = 0%Q) ->
  keys_agree (map snd steps) ->
  forall m, In m (markets (store (replay db augur steps w))) ->
    Markets.openInterest m
    = sum_fills (filter (fill_of_market (Markets.marketId m))
                        (completeSets (store (replay db augur steps w)))).
Proof.
  intros Hd Hempty Hzero Hagree m Hin.
  assert (Hall : all_consistent (store (replay db augur steps w))).
  { apply replay_keeps_aggregates; try assumption.
    - intros marketId m' Hm' _. rewrite Hempty. simpl. apply Hzero. exact Hm'.
    - intros r log Hr. rewrite Hempty in Hr. destruct Hr. }
  apply (Hall (Markets.marketId m) m Hin).
  unfold market_is. apply String.eqb_refl.
Qed.

Lemma totals_follow_the_fills_witness :
  let steps := [ (Forward, purchase "0xT2" 3 1000); (Forward, purchase "0xT3" 4 500);
                 (Removal, purchase "0xT2" 3 1000);
                 (Removal, purchase "0xT7" 0 1) ] in
  keys_agree (map snd steps)
  /\ map Markets.openInterest (markets (store (replay Pool sample_augur steps
                                                 world_with_market))) = [500 # 100]
  /\ forall m, In m (markets (store (replay Pool sample_augur steps world_with_market))) ->
       Markets.openInterest m
       = sum_fills (filter (fill_of_market (Markets.marketId m))
                      (completeSets (store (replay Pool sample_augur steps
                                              world_with_market)))).
Proof.
  cbv zeta.
  assert (Hagree : keys_agree (map snd
            [ (Forward, purchase "0xT2" 3 1000); (Forward, purchase "0xT3" 4 500);
              (Removal, purchase "0xT2" 3 1000); (Removal, purchase "0xT7" 0 1) ])).
  { intros l1 l2 H1 H2 _ _. simpl in H1, H2.
    repeat (destruct H1 as [<-|H1]); try destruct H1;
      repeat (destruct H2 as [<-|H2]); try destruct H2; reflexivity. }
  split; [exact Hagree|]. split; [reflexivity|].
  apply (totals_follow_the_fills Pool sample_augur _ world_with_market).
  - reflexivity.
  - reflexivity.
  - intros m [<-|[]]. reflexivity.
  - exact Hagree.
Defined.
